(** * dclean: scanner registry, directory walk and deletion-safety gate

    A shallow embedding of the parts of the dclean sources that decide
    the behaviour of the deletion safety gate ([src/cleaner/safeDelete.js]),
    the cleanup executor ([src/cleaner/index.js]), the tree walker
    ([src/utils/fileSystem.js]), the scanners ([src/scanners/*.js]) and the
    scan orchestrator ([src/scanners/index.js]); and of what stands around
    them: the size measurement and its cache ([src/utils/fileSize.js]), the
    choices of the interactive cleanup and the labels it shows
    ([src/ui/prompts.js], [src/ui/display.js]), the scan paths of the
    command line ([bin/cli.js]), and the configuration and history files
    ([src/utils/config.js], [src/utils/history.js]).

    Strings are Rocq [string]s, byte sizes and millisecond timestamps are
    [Z], JavaScript exceptions are the left summand of a [sum], and the
    file system is read through explicit oracles or an explicit tree. *)

From Stdlib Require Import String Ascii List ZArith Lia Bool Arith.
From Stdlib Require DecimalString.
Import ListNotations.

Set Warnings "-register-all".

Open Scope list_scope.
Open Scope string_scope.

(* ===================================================================== *)
(** * Part I.  The program                                                *)
(* ===================================================================== *)

(** ** JavaScript string primitives used by the sources *)

Module Js.

(** [s.startsWith(pre)] *)
Definition startsWith (s pre : string) : bool := String.prefix pre s.

(** [list_ascii_of_string] reversed: the characters of [s], last first. *)
Definition rev_chars (s : string) : list ascii := rev (list_ascii_of_string s).

(** [s.endsWith(suf)] *)
Definition endsWith (s suf : string) : bool :=
  String.prefix (string_of_list_ascii (rev_chars suf))
                (string_of_list_ascii (rev_chars s)).

(** [s.split('/')]: always at least one piece. *)
Fixpoint split_slash (s : string) : list string :=
  match s with
  | EmptyString => [""]
  | String c s' =>
      if Ascii.eqb c "/" then "" :: split_slash s'
      else match split_slash s' with
           | seg :: rest => String c seg :: rest
           | [] => [String c ""]
           end
  end.

(** [arr.includes(x)] on an array of strings. *)
Definition includes (arr : list string) (x : string) : bool :=
  existsb (String.eqb x) arr.

(** [arr.join('/')] *)
Definition join_slash (arr : list string) : string := String.concat "/" arr.

End Js.

(** ** Node's [path.posix] functions

    These follow [lib/path.js] of Node.js.  [normalizeString] is written
    on the pieces between separators: an empty piece or ["."] is dropped,
    [".."] removes the last kept piece (or is kept itself when the path is
    relative and nothing is left to remove), any other piece is kept.  The
    kept pieces are held last-first. *)

Module Path.

Definition sep : string := "/".

Definition isAbsolute (p : string) : bool :=
  match p with
  | String c _ => Ascii.eqb c "/"
  | EmptyString => false
  end.

Definition normalize_step (allowAboveRoot : bool) (kept : list string) (piece : string)
  : list string :=
  if String.eqb piece "" then kept
  else if String.eqb piece "." then kept
  else if String.eqb piece ".." then
    match kept with
    | [] => if allowAboveRoot then [".."] else []
    | top :: below =>
        if allowAboveRoot && String.eqb top ".." then ".." :: kept else below
    end
  else piece :: kept.

Definition normalize_pieces (allowAboveRoot : bool) (path : string) : list string :=
  fold_left (normalize_step allowAboveRoot) (Js.split_slash path) [].

Definition normalizeString (path : string) (allowAboveRoot : bool) : string :=
  Js.join_slash (rev (normalize_pieces allowAboveRoot path)).

(** [path.resolve(p)] with one argument; [cwd] is [process.cwd()].
    The loop of [resolve] visits the argument and then, while no absolute
    piece has been seen, the working directory. *)
Definition resolve (cwd p : string) : string :=
  let '(resolvedPath, resolvedAbsolute) :=
    let '(rp, ra) :=
      if String.eqb p "" then ("", false) else (p ++ "/" ++ "", isAbsolute p) in
    if ra then (rp, ra)
    else if String.eqb cwd "" then (rp, ra)
    else (cwd ++ "/" ++ rp, isAbsolute cwd) in
  let resolvedPath := normalizeString resolvedPath (negb resolvedAbsolute) in
  if resolvedAbsolute then "/" ++ resolvedPath
  else if String.eqb resolvedPath "" then "." else resolvedPath.

Definition last_char_is_slash (p : string) : bool :=
  match Js.rev_chars p with
  | c :: _ => Ascii.eqb c "/"
  | [] => false
  end.

(** [path.normalize(p)] *)
Definition normalize (p : string) : string :=
  if String.eqb p "" then "."
  else
    let abs := isAbsolute p in
    let trailingSeparator := last_char_is_slash p in
    let body := normalizeString p (negb abs) in
    if String.eqb body "" then
      (if abs then "/" else if trailingSeparator then "./" else ".")
    else
      let body := if trailingSeparator then body ++ "/" else body in
      if abs then "/" ++ body else body.

(** [path.join(a, b)] *)
Definition join (a b : string) : string :=
  let joined :=
    if String.eqb a "" then (if String.eqb b "" then None else Some b)
    else if String.eqb b "" then Some a
    else Some (a ++ "/" ++ b) in
  match joined with
  | None => "."
  | Some j => normalize j
  end.

Fixpoint drop_while (f : ascii -> bool) (l : list ascii) : list ascii :=
  match l with
  | [] => []
  | c :: l' => if f c then drop_while f l' else l
  end.

Fixpoint take_while (f : ascii -> bool) (l : list ascii) : list ascii :=
  match l with
  | [] => []
  | c :: l' => if f c then c :: take_while f l' else []
  end.

Definition is_slash (c : ascii) : bool := Ascii.eqb c "/".
Definition not_slash (c : ascii) : bool := negb (Ascii.eqb c "/").

(** [path.dirname(p)].  The loop runs from the last character down to
    index 1: trailing separators are passed over, then the last piece,
    and the path is cut at the separator found there. *)
Definition dirname (p : string) : string :=
  match p with
  | EmptyString => "."
  | String c0 rest =>
      let hasRoot := Ascii.eqb c0 "/" in
      let back := rev (list_ascii_of_string rest) in
      match drop_while not_slash (drop_while is_slash back) with
      | [] => if hasRoot then "/" else "."
      | _ :: before =>
          match before with
          | [] => if hasRoot then "//"
                  else String c0 ""
          | _ => String c0 (string_of_list_ascii (rev before))
          end
      end
  end.

(** [path.basename(p)]: the last piece, trailing separators ignored. *)
Definition basename (p : string) : string :=
  let back := rev (list_ascii_of_string p) in
  string_of_list_ascii (rev (take_while not_slash (drop_while is_slash back))).

End Path.

(** ** JavaScript values shared by the modules *)

(** A thrown value: an [Error] with its [message] and, for errors of the
    platform, its [code] (["EACCES"], ["ENOENT"], ...). *)
Record JsError : Type := mkError { err_code : option string; err_message : string }.

Definition Error (message : string) : JsError := mkError None message.

(** The outcome of a call: [inl e] when it throws [e]. *)
Definition Result (A : Type) : Type := (JsError + A)%type.

Definition code_is (e : JsError) (c : string) : bool :=
  match err_code e with
  | Some c' => String.eqb c' c
  | None => false
  end.

(** [lastModifiedDays]: a number of days or [Infinity]. *)
Inductive Days : Type :=
| DaysInfinity
| DaysNumber (d : Z).

(** A JavaScript [Map] with string keys: entries in insertion order. *)
Module JsMap.
Section WithValue.
Context {V : Type}.

Definition t : Type := list (string * V).

Definition empty : t := [].

Fixpoint has (m : t) (k : string) : bool :=
  match m with
  | [] => false
  | (k', _) :: m' => if String.eqb k' k then true else has m' k
  end.

(** [m.set(k, v)]: replaces in place, or appends. *)
Fixpoint set (m : t) (k : string) (v : V) : t :=
  match m with
  | [] => [(k, v)]
  | (k', v') :: m' =>
      if String.eqb k' k then (k', v) :: m' else (k', v') :: set m' k v
  end.

(** [Array.from(m.values())] *)
Definition values (m : t) : list V := map snd m.

Definition keys (m : t) : list string := map fst m.
End WithValue.
Arguments t : clear implicits.
End JsMap.

(** ** src/cleaner/safeDelete.js *)

Module SafeDelete.

Definition MSG_INVALID : string := "Invalid path for deletion".
Definition MSG_OUTSIDE_HOME : string := "Can only delete within home directory".
Definition MSG_PROTECTED : string := "Cannot delete protected directory: ".
Definition MSG_PERMISSION : string := "Permission denied: ".

Section WithProcess.
(** [process.cwd()] and [os.homedir()]. *)
Variable cwd : string.
Variable homedir : string.

Definition getProtectedPaths : list string :=
  let home := homedir in
  map (fun p => Path.resolve cwd p)
    [ home;
      Path.join home "Desktop";
      Path.join home "Documents";
      Path.join home "Downloads";
      Path.join home ".ssh";
      Path.join home "Library" ].

Definition validatePathForDeletion (dirPath : string) : Result unit :=
  if String.eqb dirPath "" || String.eqb dirPath "/" || String.eqb dirPath "" then
    inl (Error MSG_INVALID)
  else
    let resolved := Path.resolve cwd dirPath in
    let home := Path.resolve cwd homedir in
    if negb (Js.startsWith resolved home) || String.eqb resolved home then
      inl (Error MSG_OUTSIDE_HOME)
    else
      let protectedPaths :=
        filter (fun p => negb (String.eqb p home)) getProtectedPaths in
      if existsb (fun p => String.eqb resolved p) protectedPaths then
        inl (Error (MSG_PROTECTED ++ dirPath))
      else inr tt.

End WithProcess.

End SafeDelete.

(** ** Effects of the cleanup executor

    The executor runs against a world [W] that only the trash primitive
    changes.  Every call that matters to the specification is recorded, in
    order, in a trace. *)

Inductive Event : Type :=
| CallValidate (dirPath : string)      (* validatePathForDeletion(dirPath) *)
| CallTrash (resolved : string)        (* trash([resolved], { glob: false }) *)
| LogInfo (msg : string)               (* logger.info(msg) *)
| LogWarn (msg : string).              (* logger.warn(msg) *)

Module Eff.
Section WithWorld.
Context {W : Type}.

Record State : Type := mkState { world : W; trace : list Event }.

(** A computation that may throw. *)
Definition M (A : Type) : Type := State -> State * Result A.

Definition ret {A} (a : A) : M A := fun s => (s, inr a).

Definition bind {A B} (m : M A) (f : A -> M B) : M B :=
  fun s => match m s with
           | (s', inr a) => f a s'
           | (s', inl e) => (s', inl e)
           end.

Definition throw {A} (e : JsError) : M A := fun s => (s, inl e).

(** [try { body } catch (e) { handler(e) }] *)
Definition try_catch {A} (body : M A) (handler : JsError -> M A) : M A :=
  fun s => match body s with
           | (s', inr a) => (s', inr a)
           | (s', inl e) => handler e s'
           end.

Definition emit (ev : Event) : M unit :=
  fun s => (mkState (world s) (trace s ++ [ev])%list, inr tt).

Definition lift {A} (r : Result A) : M A := fun s => (s, r).

(** [for (const x of xs) body(acc, x)], threading the loop variables. *)
Fixpoint for_of {A X} (xs : list X) (body : A -> X -> M A) (acc : A) : M A :=
  match xs with
  | [] => ret acc
  | x :: xs' => bind (body acc x) (for_of xs' body)
  end.
End WithWorld.
Arguments State : clear implicits.
Arguments M : clear implicits.
End Eff.

Declare Scope eff_scope.
Delimit Scope eff_scope with eff.
Notation "x <- m ;; k" := (Eff.bind m (fun x => k))
  (at level 61, m at next level, right associativity) : eff_scope.
Notation "m ;;; k" := (Eff.bind m (fun _ => k))
  (at level 61, right associativity) : eff_scope.

Module SafeDeleteEff.
Import SafeDelete.
Section WithProcess.
Context {W : Type}.
Variable cwd : string.
Variable homedir : string.
(** The trash primitive: [None] when its promise resolves, [Some err]
    when it rejects with [err]. *)
Variable trash : W -> string -> W * option JsError.

Definition call_trash (resolved : string) : Eff.M W unit :=
  fun s =>
    let '(w', r) := trash (Eff.world s) resolved in
    (Eff.mkState w' (Eff.trace s ++ [CallTrash resolved])%list,
     match r with None => inr tt | Some err => inl err end).

Definition safeDelete (dirPath : string) (dryRun : bool) : Eff.M W unit :=
  (Eff.emit (CallValidate dirPath) ;;;
   Eff.lift (validatePathForDeletion cwd homedir dirPath) ;;;
   let resolved := Path.resolve cwd dirPath in
   if dryRun then Eff.ret tt
   else
     Eff.try_catch (call_trash resolved)
       (fun err =>
          if code_is err "EACCES" then Eff.throw (Error (MSG_PERMISSION ++ dirPath))
          else if code_is err "ENOENT" then Eff.ret tt
          else Eff.throw err))%eff.
End WithProcess.
End SafeDeleteEff.

(** ** src/cleaner/index.js *)

Module Cleaner.

(** An item of a selection, as the scanners and prompts build it. *)
Record Item : Type := mkItem {
  path : string;
  size : option Z;                    (* [undefined] or a number *)
  lastModifiedDays : option Days      (* [undefined], a number or [Infinity] *)
}.

Record Selection : Type := mkSelection {
  type : string;
  items : option (list Item)          (* [items] may be missing *)
}.

(** An entry of the deduplicated list. *)
Record Target : Type := mkTarget {
  t_path : string;
  t_size : Z;
  t_lastModifiedDays : option Days
}.

(** [item.size || 0] *)
Definition size_or_zero (s : option Z) : Z :=
  match s with
  | Some n => if Z.eqb n 0 then 0%Z else n
  | None => 0%Z
  end.

Definition dedupe_item (byPath : JsMap.t Target) (item : Item) : JsMap.t Target :=
  let p := path item in
  if negb (JsMap.has byPath p) then
    JsMap.set byPath p (mkTarget p (size_or_zero (size item)) (lastModifiedDays item))
  else byPath.

Definition dedupe_selection (byPath : JsMap.t Target) (sel : Selection) : JsMap.t Target :=
  match items sel with
  | None => byPath
  | Some its => fold_left dedupe_item its byPath
  end.

Definition flattenAndDedupe (selections : list Selection) : list Target :=
  let byPath := fold_left dedupe_selection selections JsMap.empty in
  JsMap.values byPath.

(** An entry of [results]. *)
Record Outcome : Type := mkOutcome {
  o_path : string;
  o_size : option Z;
  o_success : bool;
  o_error : option string
}.

Record CleanupResult : Type := mkCleanupResult {
  totalFreed : Z;
  results : list Outcome;
  successCount : nat;
  failCount : nat
}.

Section WithProcess.
Context {W : Type}.
Variable cwd : string.
Variable homedir : string.
Variable trash : W -> string -> W * option JsError.

(** The body of the [for] loop of [performCleanup]; the loop variables
    are [totalFreed] and [results]. *)
Definition cleanup_item (dryRun : bool) (acc : Z * list Outcome) (item : Target)
  : Eff.M W (Z * list Outcome) :=
  let '(totalFreed, results) := acc in
  Eff.try_catch
    (if dryRun then
       (Eff.emit (LogInfo ("[DRY RUN] Would delete: " ++ t_path item)) ;;;
        Eff.ret ((totalFreed + t_size item)%Z,
                 (results ++ [mkOutcome (t_path item) (Some (t_size item)) true None])%list))%eff
     else
       (SafeDeleteEff.safeDelete cwd homedir trash (t_path item) false ;;;
        Eff.ret ((totalFreed + t_size item)%Z,
                 (results ++ [mkOutcome (t_path item) (Some (t_size item)) true None])%list))%eff)
    (fun error =>
       (Eff.emit (LogWarn ("Failed to delete " ++ t_path item ++ ": " ++ err_message error)) ;;;
        Eff.ret (totalFreed,
                 (results ++ [mkOutcome (t_path item) None false
                                (Some (err_message error))])%list))%eff).

Definition performCleanup (selections : list Selection) (dryRun : bool)
  : Eff.M W CleanupResult :=
  let items := flattenAndDedupe selections in
  (acc <- Eff.for_of items (cleanup_item dryRun) (0%Z, []) ;;
   let '(totalFreed, results) := acc in
   Eff.ret (mkCleanupResult totalFreed results
              (length (filter (fun r => o_success r) results))
              (length (filter (fun r => negb (o_success r)) results))))%eff.

(** [performCleanup] started in a world, with an empty trace. *)
Definition run_performCleanup (w : W) (selections : list Selection) (dryRun : bool)
  : Eff.State W * Result CleanupResult :=
  performCleanup selections dryRun (Eff.mkState w []).
End WithProcess.

End Cleaner.

(** ** src/utils/constants.js *)

Module Constants.
Definition IGNORE_DIRS : list string :=
  [".Trash"; "Library"; "System"; ".git"; ".cache"; "node_modules/node_modules"].
Definition MAX_SCAN_DEPTH : nat := 5.
Definition NODE_MODULES : string := "node_modules".
End Constants.

(** ** src/utils/fileSystem.js *)

Module FileSystem.

(** What the walker meets at a path: the answer of [fs.lstat] and, for a
    directory, of [fs.readdir]. *)
Inductive Node : Type :=
| File (size : Z)
| Symlink
| Special                                  (* socket, fifo, device *)
| LstatFails (e : JsError)
| Dir (entries : list (string * Node))
| DirUnreadable (e : JsError).             (* [readdir] throws [e] *)

(** The [stats] handed to the callback: only [isDirectory()] is read. *)
Record Stats : Type := mkStats { isDirectory : bool }.

Definition skipped_code (e : JsError) : bool :=
  code_is e "EACCES" || code_is e "ENOENT".

Section Walk.
Context {A : Type}.
Variable maxDepth : nat.
Variable ignoreDirs : list string.
Variable skipDescendingInto : list string.
(** [onEnterDir]: the calls made to it are collected. *)
Variable onEnterDir : bool.
Variable callback : A -> string -> Stats -> A.

Definition ignored (currentPath : string) : bool :=
  let basename := Path.basename currentPath in
  existsb (fun ignore => String.eqb basename ignore || Js.endsWith currentPath ignore)
          ignoreDirs.

(** The state threaded through the walk: what the callback has built
    and the directories reported to [onEnterDir]. *)
Definition WalkState : Type := (A * list string)%type.

Definition enter_dir (st : WalkState) (currentPath : string) (depth : nat) : WalkState :=
  if onEnterDir && Nat.eqb depth 1
  then (fst st, (snd st ++ [currentPath])%list) else st.

Definition visit (st : WalkState) (currentPath : string) (isDir : bool) : WalkState :=
  (callback (fst st) currentPath (mkStats isDir), snd st).

Fixpoint walk (node : Node) (currentPath : string) (depth : nat) (st : WalkState)
  {struct node} : Result WalkState :=
  if Nat.ltb maxDepth depth then inr st
  else
    match node with
    | LstatFails e => if skipped_code e then inr st else inl e
    | Symlink => inr st
    | File _ => inr (visit st currentPath false)
    | Special => inr st
    | DirUnreadable e =>
        if ignored currentPath then inr st
        else
          let st := visit (enter_dir st currentPath depth) currentPath true in
          if Js.includes skipDescendingInto (Path.basename currentPath) then inr st
          else if skipped_code e then inr st else inl e
    | Dir entries =>
        if ignored currentPath then inr st
        else
          let st := visit (enter_dir st currentPath depth) currentPath true in
          if Js.includes skipDescendingInto (Path.basename currentPath) then inr st
          else
            (fix walk_entries (es : list (string * Node)) (st : WalkState)
               {struct es} : Result WalkState :=
               match es with
               | [] => inr st
               | (entry, child) :: es' =>
                   match walk child (Path.join currentPath entry) (S depth) st with
                   | inl e => inl e
                   | inr st' => walk_entries es' st'
                   end
               end) entries st
    end.

(** [walkDirectory(dirPath, callback, options)] on the tree found at
    [dirPath]. *)
Definition walkDirectory (tree : Node) (dirPath : string) (init : A) : Result WalkState :=
  walk tree dirPath 0 (init, []).
End Walk.

(** [getLastModified]: [stat_mtime p] is the [mtime] of [fs.stat(p)] in
    milliseconds, [None] when [fs.stat] throws. *)
Definition getLastModified (stat_mtime : string -> option Z) (filePath : string)
  : option Z :=
  match stat_mtime filePath with
  | Some mtime => Some mtime
  | None => None
  end.

(** [isPathSafeForScan] *)
Definition isPathSafeForScan (filePath homeDir : string) : bool :=
  let normalized := Path.normalize filePath in
  if negb (Js.startsWith normalized homeDir) then false
  else if String.eqb normalized homeDir then false
  else true.

End FileSystem.

(** ** src/scanners/baseScanner.js *)

(** An item of a scan result.  [sizeFormatted] and the ISO rendering of
    [lastModified] are presentation and are left out; [lastModified] is
    the [mtime] in milliseconds or [null]. *)
Record ScanItem : Type := mkScanItem {
  si_path : string;
  si_size : Z;
  si_lastModified : option Z;
  si_lastModifiedDays : Days;
  si_parentProject : option string;
  si_packageJsonPath : option string;
  si_isDerivedData : bool
}.

Record ScanResult : Type := mkScanResult {
  sr_type : string;
  sr_items : list ScanItem;
  sr_totalSize : Z;
  sr_count : nat
}.

(** [items.reduce((sum, item) => sum + item.size, 0)] *)
Definition sum_sizes (items : list ScanItem) : Z :=
  fold_left (fun sum item => (sum + si_size item)%Z) items 0%Z.

(** What a scanner reads from the machine besides the tree it walks. *)
Record Machine : Type := mkMachine {
  getDirectorySize : string -> Result Z;     (* utils/fileSize.js *)
  stat_mtime : string -> option Z;           (* [fs.stat(p).mtime], ms *)
  date_now : Z;                              (* [Date.now()], ms *)
  pathExists : string -> bool;               (* [fs.access] succeeds *)
(** [fs.readdirSync(p, { withFileTypes: true })]: names with
    [isDirectory()], or the error thrown. *)
readdirSync : string -> Result (list (string * bool));
(** the tree a walk started at this path meets *)
tree_at : string -> FileSystem.Node
}.

Module BaseScanner.
Section WithScanner.
Variable m : Machine.
(** [this.maxDepth] and [this.ignorePatterns] *)
Variable maxDepth : nat.
Variable ignorePatterns : list string.

Definition found_callback (targetName : string)
  (found : list string) (filePath : string) (stats : FileSystem.Stats) : list string :=
  if FileSystem.isDirectory stats && String.eqb (Path.basename filePath) targetName
  then (found ++ [filePath])%list else found.

(** [findDirectories(startPath, targetName, opts)];
    [skipDescendingInto] is [opts.skipDescendingInto ?? [targetName]]. *)
Definition findDirectories (startPath targetName : string)
  (opt_skipDescendingInto : option (list string)) (onEnterDir : bool)
  : Result (list string) :=
  let skipDescendingInto :=
    match opt_skipDescendingInto with Some l => l | None => [targetName] end in
  match FileSystem.walkDirectory maxDepth ignorePatterns skipDescendingInto onEnterDir
          (found_callback targetName) (tree_at m startPath) startPath [] with
  | inl e => inl e
  | inr (found, _) => inr found
  end.

Definition calculateSize (dirPath : string) : Z :=
  match getDirectorySize m dirPath with
  | inr n => n
  | inl _ => 0%Z
  end.

Definition MS_PER_DAY : Z := (24 * 60 * 60 * 1000)%Z.

(** [getMetadata]: the pair [(lastModified, lastModifiedDays)].
    [Math.floor] of the quotient of two integers is [Z.div]. *)
Definition getMetadata (dirPath : string) : option Z * Days :=
  match FileSystem.getLastModified (stat_mtime m) dirPath with
  | None => (None, DaysInfinity)
  | Some mtime =>
      let days := ((date_now m - mtime) / MS_PER_DAY)%Z in
      (Some mtime, DaysNumber days)
  end.
End WithScanner.
End BaseScanner.

(** ** src/scanners/nodeModules.js *)

Module NodeModulesScanner.
Section WithMachine.
Variable m : Machine.

Definition maxDepth : nat := Constants.MAX_SCAN_DEPTH.
Definition ignorePatterns : list string := Constants.IGNORE_DIRS.

Definition findParentProject (nodeModulesPath : string) : string :=
  let parentDir := Path.dirname nodeModulesPath in
  let packagePath := Path.join parentDir "package.json" in
  if pathExists m packagePath then Path.basename parentDir
  else if String.eqb (Path.basename parentDir) "" then "unknown"
       else Path.basename parentDir.

Definition is_top_level (dir : string) : bool :=
  let parentDir := Path.dirname dir in
  negb (Js.includes (Js.split_slash parentDir) "node_modules").

Definition make_item (dir : string) : ScanItem :=
  let size := BaseScanner.calculateSize m dir in
  let '(lastModified, lastModifiedDays) := BaseScanner.getMetadata m dir in
  let parentProject := findParentProject dir in
  let parentDir := Path.dirname dir in
  let packageJsonPath := Path.join parentDir "package.json" in
  mkScanItem dir size lastModified lastModifiedDays
             (Some parentProject) (Some packageJsonPath) false.

Definition scan (basePath : string) (onEnterDir : bool) : Result ScanResult :=
  match BaseScanner.findDirectories m maxDepth ignorePatterns
          basePath Constants.NODE_MODULES None onEnterDir with
  | inl e => inl e
  | inr nodeModulesDirs =>
      let topLevelOnly := filter is_top_level nodeModulesDirs in
      let items := map make_item topLevelOnly in
      let totalSize := sum_sizes items in
      inr (mkScanResult "node_modules" items totalSize (length items))
  end.
End WithMachine.
End NodeModulesScanner.

(** ** Asynchronous functions

    An [async] function runs without interruption until it reaches an
    [await]; there it is suspended and the caller goes on.  It is resumed
    later, from the event loop, and again runs without interruption to its
    next [await].  [S] is the state the running pieces share (here the
    fields of a scanner instance). *)

Module Async.
Section WithState.
Context {S : Type}.

Inductive Status (A : Type) : Type :=
| Done (a : A)
| Suspended (resume : S -> S * Status A).
Arguments Done {A} a.
Arguments Suspended {A} resume.

(** A piece of code that runs up to its next [await]. *)
Definition Co (A : Type) : Type := S -> S * Status A.

Definition ret {A} (a : A) : Co A := fun s => (s, Done a).

Fixpoint bind_status {A B} (st : Status A) (f : A -> Co B) (s : S) {struct st}
  : S * Status B :=
  match st with
  | Done a => f a s
  | Suspended resume =>
      (s, Suspended (fun s' =>
                       let (s'', st') := resume s' in bind_status st' f s''))
  end.

Definition bind {A B} (c : Co A) (f : A -> Co B) : Co B :=
  fun s => let (s', st) := c s in bind_status st f s'.

(** [await p] for a promise [p] that settles with [v] and does not
    touch the shared state. *)
Definition await {A} (v : A) : Co A :=
  fun s => (s, Suspended (fun s' => (s', Done v))).

Definition get : Co S := fun s => (s, Done s).
Definition put (s' : S) : Co unit := fun _ => (s', Done tt).

(** [for (const x of xs) body(acc, x)] inside an [async] function. *)
Fixpoint for_of {A X} (xs : list X) (body : A -> X -> Co A) (acc : A) : Co A :=
  match xs with
  | [] => ret acc
  | x :: xs' => bind (body acc x) (for_of xs' body)
  end.

(** [tasks.map(t => t())]: each call runs to its first [await] before
    the next call starts. *)
Fixpoint start_all {A} (tasks : list (Co A)) (s : S) : S * list (Status A) :=
  match tasks with
  | [] => (s, [])
  | t :: ts =>
      let (s1, st) := t s in
      let (s2, sts) := start_all ts s1 in
      (s2, st :: sts)
  end.

(** The event loop resumes task number [n] (nothing when it has
    finished). *)
Fixpoint resume_nth {A} (n : nat) (sts : list (Status A)) (s : S)
  : S * list (Status A) :=
  match sts, n with
  | [], _ => (s, [])
  | Done a :: rest, O => (s, Done a :: rest)
  | Suspended resume :: rest, O => let (s', st') := resume s in (s', st' :: rest)
  | st :: rest, Datatypes.S n' =>
      let (s', rest') := resume_nth n' rest s in (s', st :: rest')
  end.

(** The event loop resumes tasks in the order [schedule] gives. *)
Fixpoint drive {A} (schedule : list nat) (sts : list (Status A)) (s : S)
  : S * list (Status A) :=
  match schedule with
  | [] => (s, sts)
  | n :: schedule' =>
      let (s', sts') := resume_nth n sts s in drive schedule' sts' s'
  end.

Fixpoint all_done {A} (sts : list (Status A)) : option (list A) :=
  match sts with
  | [] => Some []
  | Done a :: rest =>
      match all_done rest with Some l => Some (a :: l) | None => None end
  | Suspended _ :: _ => None
  end.

(** [await Promise.all(tasks.map(t => t()))] under a schedule of the
    event loop; [None] while some task has not finished. *)
Definition promise_all {A} (tasks : list (Co A)) (schedule : list nat) (s : S)
  : S * option (list A) :=
  let (s1, sts) := start_all tasks s in
  let (s2, sts') := drive schedule sts s1 in
  (s2, all_done sts').
End WithState.
Arguments Status : clear implicits.
Arguments Co : clear implicits.
Arguments Done {S A} a.
Arguments Suspended {S A} resume.
End Async.

Declare Scope async_scope.
Delimit Scope async_scope with async.
Notation "x <~ c ;; k" := (Async.bind c (fun x => k))
  (at level 61, c at next level, right associativity) : async_scope.

(** ** src/scanners/xcodeDerivedData.js *)

Module XcodeScanner.

(** The fields of a scanner instance that [scan] reads and writes. *)
Record Instance : Type := mkInstance { globalScanned : bool }.

(** [new XcodeScanner()] *)
Definition new : Instance := mkInstance false.

Section WithMachine.
Variable m : Machine.
(** [this.homeDir] *)
Variable homeDir : string.

Definition maxDepth : nat := Constants.MAX_SCAN_DEPTH.
Definition ignorePatterns : list string := Constants.IGNORE_DIRS.

Definition derivedDataPath : string :=
  Path.join homeDir "Library/Developer/Xcode/DerivedData".

(** The body of the loop over the entries of DerivedData. *)
Definition derived_entry (items : list ScanItem) (entry : string * bool)
  : Async.Co Instance (list ScanItem) :=
  (if snd entry then
     let projectDDPath := Path.join derivedDataPath (fst entry) in
     size <~ Async.await (BaseScanner.calculateSize m projectDDPath) ;;
     md <~ Async.await (BaseScanner.getMetadata m projectDDPath) ;;
     Async.ret (items ++ [mkScanItem projectDDPath size (fst md) (snd md)
                            None None true])%list
   else Async.ret items)%async.

Definition isXcodeProject (parentDir : string) : bool :=
  match readdirSync m parentDir with
  | inr parentFiles =>
      existsb (fun f => Js.endsWith (fst f) ".xcodeproj"
                        || Js.endsWith (fst f) ".xcworkspace") parentFiles
  | inl _ => false
  end.

(** The body of the loop over the [build] directories found. *)
Definition build_entry (items : list ScanItem) (dir : string)
  : Async.Co Instance (list ScanItem) :=
  (let parentDir := Path.dirname dir in
   if Js.startsWith dir derivedDataPath then Async.ret items
   else if isXcodeProject parentDir then
     size <~ Async.await (BaseScanner.calculateSize m dir) ;;
     md <~ Async.await (BaseScanner.getMetadata m dir) ;;
     Async.ret (items ++ [mkScanItem dir size (fst md) (snd md)
                            None None false])%list
   else Async.ret items)%async.

(** [scan(basePath, options)]; it settles with [inl e] when it rejects. *)
Definition scan (basePath : string) (onEnterDir : bool)
  : Async.Co Instance (Result ScanResult) :=
  (this <~ Async.get ;;
   (* [!this.globalScanned && await pathExists(derivedDataPath)] *)
   cond <~ (if negb (globalScanned this)
            then Async.await (pathExists m derivedDataPath)
            else Async.ret false) ;;
   items <~ (if cond then
               _ <~ Async.put (mkInstance true) ;;
               match readdirSync m derivedDataPath with
               | inr entries => Async.for_of entries derived_entry []
               | inl _ => Async.ret []
               end
             else Async.ret []) ;;
   buildDirs <~ Async.await
                  (BaseScanner.findDirectories m maxDepth ignorePatterns
                     basePath "build" None onEnterDir) ;;
   match buildDirs with
   | inl e => Async.ret (inl e)
   | inr buildDirs =>
       items <~ Async.for_of buildDirs build_entry items ;;
       let totalSize := sum_sizes items in
       Async.ret (inr (mkScanResult "xcode_build" items totalSize (length items)))
   end)%async.
End WithMachine.
End XcodeScanner.

(** ** src/scanners/index.js *)

Module Scanners.

Record RegistryEntry : Type := mkEntry {
  key : string;
  property : string;
  isGlobal : bool
}.

Definition SCANNER_REGISTRY : list RegistryEntry :=
  [ mkEntry "scanNodeModules" "nodeModules" false;
    mkEntry "scanPython" "pythonVenvs" false;
    mkEntry "scanNvm" "nvmVersions" true;
    mkEntry "scanPods" "pods" false;
    mkEntry "scanRust" "rustTargets" false;
    mkEntry "scanGradle" "gradleBuilds" false;
    mkEntry "scanCMake" "cmakeBuilds" false;
    mkEntry "scanFlutter" "flutterBuilds" false;
    mkEntry "scanXcode" "xcodeBuilds" false;
    mkEntry "scanAiDevTools" "aiDevTools" true ].

(** [mergeResults(results, type)]; every item carries a numeric size, so
    [i.size || 0] is the size. *)
Definition mergeResults (results : list ScanResult) (type : string) : ScanResult :=
  let items := flat_map sr_items results in
  let totalSize := sum_sizes items in
  mkScanResult type items totalSize (length items).

(** [scanner.scan(p, scanOpts).catch(() => ({ items: [], totalSize: 0, count: 0 }))] *)
Definition catch_empty {S} (c : Async.Co S (Result ScanResult))
  : Async.Co S ScanResult :=
  (r <~ c ;;
   match r with
   | inr res => Async.ret res
   | inl _ => Async.ret (mkScanResult "" [] 0%Z 0)
   end)%async.

Section WithMachine.
Variable m : Machine.
Variable homeDir : string.

(** The branch of [runAllScans] taken for the registry entry
    [scanXcode] when its flag is set: one scanner instance, one [scan]
    per path, all started before any is awaited, and the results
    merged.  [schedule] is the order in which the event loop resumes
    the suspended scans. *)
Definition runXcodeScans (paths : list string) (onEnterDir : bool)
  (schedule : list nat) : option ScanResult :=
  let scanner := XcodeScanner.new in
  let tasks :=
    map (fun p => catch_empty (XcodeScanner.scan m homeDir p onEnterDir)) paths in
  match Async.promise_all tasks schedule scanner with
  | (_, Some pathResults) => Some (mergeResults pathResults "xcode_build")
  | (_, None) => None
  end.

(** The same branch for [scanNodeModules]; [scan] of that scanner does
    not touch its instance, so the order of the scans does not matter
    and they are run one after the other. *)
Definition runNodeModulesScans (paths : list string) (onEnterDir : bool)
  : ScanResult :=
  let pathResults :=
    map (fun p => match NodeModulesScanner.scan m p onEnterDir with
                  | inr res => res
                  | inl _ => mkScanResult "" [] 0%Z 0
                  end) paths in
  mergeResults pathResults "node_modules".
End WithMachine.
End Scanners.

(** ** src/utils/fileSystem.js, with a callback that may fail

    [walkDirectory] awaits [callback(currentPath, stats)] outside any
    [try]: an error the callback throws, or rejects with, rejects the
    walk.  [FileSystem.walk] is the walker for callbacks that return; here
    the callback gives the value it builds or the error it fails with. *)

Module CallbackWalk.

Section Walk.
Context {A : Type}.
Variable maxDepth : nat.
Variable ignoreDirs : list string.
Variable skipDescendingInto : list string.
Variable onEnterDir : bool.
Variable callback : A -> string -> FileSystem.Stats -> Result A.

(** [await Promise.resolve(callback(currentPath, stats))] *)
Definition visit (st : FileSystem.WalkState) (currentPath : string) (isDir : bool)
  : Result FileSystem.WalkState :=
  match callback (fst st) currentPath (FileSystem.mkStats isDir) with
  | inl err => inl err
  | inr a => inr (a, snd st)
  end.

Fixpoint walk (node : FileSystem.Node) (currentPath : string) (depth : nat)
  (st : FileSystem.WalkState) {struct node} : Result FileSystem.WalkState :=
  if Nat.ltb maxDepth depth then inr st
  else
    match node with
    | FileSystem.LstatFails e => if FileSystem.skipped_code e then inr st else inl e
    | FileSystem.Symlink => inr st
    | FileSystem.File _ => visit st currentPath false
    | FileSystem.Special => inr st
    | FileSystem.DirUnreadable e =>
        if FileSystem.ignored ignoreDirs currentPath then inr st
        else
          match visit (FileSystem.enter_dir onEnterDir st currentPath depth)
                  currentPath true with
          | inl err => inl err
          | inr st =>
              if Js.includes skipDescendingInto (Path.basename currentPath) then inr st
              else if FileSystem.skipped_code e then inr st else inl e
          end
    | FileSystem.Dir entries =>
        if FileSystem.ignored ignoreDirs currentPath then inr st
        else
          match visit (FileSystem.enter_dir onEnterDir st currentPath depth)
                  currentPath true with
          | inl err => inl err
          | inr st =>
              if Js.includes skipDescendingInto (Path.basename currentPath) then inr st
              else
                (fix walk_entries (es : list (string * FileSystem.Node))
                   (st : FileSystem.WalkState) {struct es}
                   : Result FileSystem.WalkState :=
                   match es with
                   | [] => inr st
                   | (entry, child) :: es' =>
                       match walk child (Path.join currentPath entry) (S depth) st with
                       | inl e => inl e
                       | inr st' => walk_entries es' st'
                       end
                   end) entries st
          end
    end.

(** [walkDirectory(dirPath, callback, options)] on the tree found at
    [dirPath]. *)
Definition walkDirectory (tree : FileSystem.Node) (dirPath : string) (init : A)
  : Result FileSystem.WalkState :=
  walk tree dirPath 0 (init, []).
End Walk.

End CallbackWalk.

(** [m.get(k)] on a [Map] with string keys: [None] is [undefined]. *)
Fixpoint JsMap_get {V : Type} (m : JsMap.t V) (k : string) : option V :=
  match m with
  | [] => None
  | (k', v) :: m' => if String.eqb k' k then Some v else JsMap_get m' k
  end.

(** ** src/utils/fileSize.js *)

Module FileSize.

(** The inner [walk] of [getDirectorySize], on the node found at
    [currentPath]; [totalSize] is the variable it adds to.  It has no
    depth bound and no ignore list. *)
Fixpoint walk (node : FileSystem.Node) (currentPath : string) (totalSize : Z)
  {struct node} : Result Z :=
  match node with
  | FileSystem.LstatFails e => if FileSystem.skipped_code e then inr totalSize else inl e
  | FileSystem.Symlink => inr totalSize
  | FileSystem.File size => inr (totalSize + size)%Z
  | FileSystem.Special => inr totalSize
  | FileSystem.DirUnreadable e =>
      if FileSystem.skipped_code e then inr totalSize else inl e
  | FileSystem.Dir entries =>
      (fix walk_entries (es : list (string * FileSystem.Node)) (totalSize : Z)
         {struct es} : Result Z :=
         match es with
         | [] => inr totalSize
         | (entry, child) :: es' =>
             match walk child (Path.join currentPath entry) totalSize with
             | inl e => inl e
             | inr totalSize' => walk_entries es' totalSize'
             end
         end) entries totalSize
  end.

Section WithProcess.
Variable cwd : string.
(** the tree [lstat] and [readdir] show at a path *)
Variable tree_at : string -> FileSystem.Node.

(** [getDirectorySize(dirPath, { useCache })], threading the module's
    [sizeCache], for a call during which nothing else touches the cache;
    calls that overlap are below.  [sizeCache.has(resolved)] followed by
    [sizeCache.get(resolved)] is one lookup. *)
Definition getDirectorySize (dirPath : string) (useCache : bool)
  (sizeCache : JsMap.t Z) : JsMap.t Z * Result Z :=
  let resolved := Path.resolve cwd dirPath in
  match (if useCache then JsMap_get sizeCache resolved else None) with
  | Some cached => (sizeCache, inr cached)
  | None =>
      match walk (tree_at resolved) resolved 0%Z with
      | inl e => (sizeCache, inl e)
      | inr totalSize =>
          (if useCache then JsMap.set sizeCache resolved totalSize else sizeCache,
           inr totalSize)
      end
  end.
End WithProcess.

(** [clearSizeCache()] *)
Definition clearSizeCache (sizeCache : JsMap.t Z) : JsMap.t Z := JsMap.empty.

(** *** Calls that overlap

    [getDirectorySize] touches [sizeCache] in two places, each within one
    turn of the event loop: the test on entry, and the [set] once the walk
    has ended.  The walk between them awaits [lstat] and [readdir], and in
    the meantime other calls may start and end, and the cache may be
    cleared. *)

Section Overlap.
Variable cwd : string.

(** From the entry to the first [await]: the cached size, if the call
    returns it. *)
Definition cached (dirPath : string) (useCache : bool) (sizeCache : JsMap.t Z)
  : option Z :=
  let resolved := Path.resolve cwd dirPath in
  if useCache then JsMap_get sizeCache resolved else None.

(** From the end of the walk, which threw or gave [totalSize], to the
    end of the call. *)
Definition settle (dirPath : string) (useCache : bool) (walked : Result Z)
  (sizeCache : JsMap.t Z) : JsMap.t Z * Result Z :=
  let resolved := Path.resolve cwd dirPath in
  match walked with
  | inl e => (sizeCache, inl e)
  | inr totalSize =>
      (if useCache then JsMap.set sizeCache resolved totalSize else sizeCache,
       inr totalSize)
  end.

(** What happens to the module: a call starts; the walk of the [i]-th
    call in flight ends, having met [tree]; [clearSizeCache] is called. *)
Inductive Event : Type :=
| Call (dirPath : string) (useCache : bool)
| WalkEnds (i : nat) (tree : FileSystem.Node)
| Clear.

(** The module's [sizeCache], the calls in flight with their arguments,
    and the calls that have settled with what they settled with, in the
    order in which they settled. *)
Record Session : Type := mkSession {
  sizeCache : JsMap.t Z;
  in_flight : list (string * bool);
  settled : list (string * bool * Result Z)
}.

Definition step (s : Session) (ev : Event) : Session :=
  match ev with
  | Call dirPath useCache =>
      match cached dirPath useCache (sizeCache s) with
      | Some size =>
          mkSession (sizeCache s) (in_flight s)
            (settled s ++ [(dirPath, useCache, inr size)])
      | None =>
          mkSession (sizeCache s) (in_flight s ++ [(dirPath, useCache)]) (settled s)
      end
  | WalkEnds i tree =>
      match nth_error (in_flight s) i with
      | Some (dirPath, useCache) =>
          let resolved := Path.resolve cwd dirPath in
          let '(sizeCache', r) :=
            settle dirPath useCache (walk tree resolved 0%Z) (sizeCache s) in
          mkSession sizeCache' (firstn i (in_flight s) ++ skipn (S i) (in_flight s))
            (settled s ++ [(dirPath, useCache, r)])
      | None => s
      end
  | Clear => mkSession (clearSizeCache (sizeCache s)) (in_flight s) (settled s)
  end.

Definition run (events : list Event) (s : Session) : Session :=
  fold_left step events s.

End Overlap.

End FileSize.

(** ** More string primitives of JavaScript

    A [string] stands for a JavaScript string whose code units are all
    below 256; on such strings [length] is [String.length]. *)

Module JsString.

(** The code units below 256 that [trim] removes: tab, line feed,
    vertical tab, form feed, carriage return, space and no-break space. *)
Definition is_white_space (c : ascii) : bool :=
  let n := nat_of_ascii c in
  (Nat.leb 9 n && Nat.leb n 13) || Nat.eqb n 32 || Nat.eqb n 160.

Fixpoint trimStart (s : string) : string :=
  match s with
  | String c s' => if is_white_space c then trimStart s' else s
  | EmptyString => EmptyString
  end.

Definition trimEnd (s : string) : string :=
  string_of_list_ascii (rev (Path.drop_while is_white_space (Js.rev_chars s))).

(** [s.trim()] *)
Definition trim (s : string) : string := trimEnd (trimStart s).

(** [s.slice(start)] for [0 <= start] *)
Fixpoint slice (start : nat) (s : string) : string :=
  match start, s with
  | O, _ => s
  | S n, String _ s' => slice n s'
  | S _, EmptyString => EmptyString
  end.

(** [s.slice(-n)] for [0 < n]: the last [n] code units, or all of [s] *)
Definition slice_last (n : nat) (s : string) : string :=
  slice (String.length s - n) s.

(** [s.slice(0, end)] for [0 <= end] *)
Fixpoint slice_to (e : nat) (s : string) : string :=
  match e, s with
  | S n, String c s' => String c (slice_to n s')
  | _, _ => EmptyString
  end.

(** [s.includes(sub)] on strings *)
Fixpoint includes (s sub : string) : bool :=
  String.prefix sub s
  || match s with
     | String _ s' => includes s' sub
     | EmptyString => false
     end.

(** [String(n)] for an integer [n] in the range where JavaScript prints
    all the digits. *)
Definition number_to_string (n : Z) : string :=
  DecimalString.NilZero.string_of_int (Z.to_int n).

End JsString.

(** ** src/ui/display.js *)

Module Display.

(** [formatDaysAgo(days)], for a number of days that is an integer or
    [Infinity]. *)
Definition formatDaysAgo (days : Days) : string :=
  match days with
  | DaysInfinity => "unknown"
  | DaysNumber days =>
      if (days <? 0)%Z then "unknown"
      else if (days =? 0)%Z then "today"
      else if (days =? 1)%Z then "1 day"
      else if (days <? 30)%Z then JsString.number_to_string days ++ " days"
      else if (days <? 60)%Z then "2 months"
      else if (days <? 90)%Z then "3 months"
      else if (days <? 180)%Z then "6 months"
      else if (days <? 365)%Z then "1 year"
      else
        let years := (days / 365)%Z in
        if (years =? 1)%Z then "1 year"
        else JsString.number_to_string years ++ " years"
  end.

Section WithProcess.
(** [os.homedir()] *)
Variable homedir : string.

Definition toShortLabel (fullPath : string) : string :=
  let home := homedir in
  if String.eqb home "" || String.eqb fullPath "" then fullPath
  else
    let normalized := Path.normalize fullPath in
    let homeNorm := Path.normalize home in
    if String.eqb normalized homeNorm then "~"
    else if Js.startsWith normalized (homeNorm ++ Path.sep)
    then "~" ++ JsString.slice (String.length homeNorm) normalized
    else if Nat.ltb 38 (String.length fullPath)
    then "..." ++ JsString.slice_last 35 fullPath
    else fullPath.

(** [pathUnderRoot(fullPath, scanRoots)]: the loop over the roots
    returns at the first root that holds the path. *)
Definition pathUnderRoot (fullPath : string) (scanRoots : list string) : string :=
  let normalized := Path.normalize fullPath in
  (fix loop (roots : list string) : string :=
     match roots with
     | [] => toShortLabel fullPath
     | root :: roots' =>
         let rootNorm := Path.normalize root in
         if String.eqb normalized rootNorm then
           (if String.eqb (Path.basename normalized) "" then "."
            else Path.basename normalized)
         else if Js.startsWith normalized (rootNorm ++ Path.sep) then
           let rel := JsString.slice (String.length rootNorm + String.length Path.sep)
                        normalized in
           if String.eqb rel "" then Path.basename normalized else rel
         else loop roots'
     end) scanRoots.
End WithProcess.

End Display.

(** ** bin/cli.js *)

Module Cli.
Section WithProcess.
Variable cwd : string.
(** [process.env.HOME || process.env.USERPROFILE || os.homedir() || ''] *)
Variable home : string.

Definition toLabel (p : string) : string :=
  if String.eqb p "" || String.eqb home "" then p
  else if String.eqb p home then "~"
  else if Js.startsWith p (home ++ Path.sep)
  then "~" ++ JsString.slice (String.length home) p
  else p.

(** [resolvePath(input)] on a string; [None] is [null]. *)
Definition resolvePath (input : string) : option string :=
  if String.eqb input "" then None
  else
    let trimmed := JsString.trim input in
    if String.eqb trimmed "" then None
    else
      let expanded :=
        if Js.startsWith trimmed "~" then Path.join home (JsString.slice 1 trimmed)
        else trimmed in
      Some (Path.resolve cwd expanded).

(** [fs.statSync(dirPath).isDirectory()], or the error thrown. *)
Variable statSync_isDirectory : string -> Result bool.

Definition isReadableDir (dirPath : string) : bool :=
  match statSync_isDirectory dirPath with
  | inr isDir => isDir
  | inl _ => false
  end.

Record ValidatedPaths : Type := mkValidated {
  paths : list string;
  missing : list string;
  invalid : list string
}.

(** The body of the loop of [resolveAndValidateScanPaths]; [seen] is
    the [Set] of the resolved paths met so far. *)
Definition validate_raw (st : list string * ValidatedPaths) (raw : string)
  : list string * ValidatedPaths :=
  let '(seen, acc) := st in
  match resolvePath raw with
  | None => (seen, mkValidated (paths acc) (missing acc) (invalid acc ++ [raw]))
  | Some resolved =>
      if Js.includes seen resolved then (seen, acc)
      else
        let seen := (seen ++ [resolved])%list in
        if isReadableDir resolved
        then (seen, mkValidated (paths acc ++ [resolved]) (missing acc) (invalid acc))
        else (seen, mkValidated (paths acc) (missing acc ++ [resolved]) (invalid acc))
  end.

Definition resolveAndValidateScanPaths (rawPaths : list string) : ValidatedPaths :=
  snd (fold_left validate_raw rawPaths ([], mkValidated [] [] [])).

End WithProcess.
End Cli.

(** ** JSON documents and the files that hold them *)

Inductive Json : Type :=
| JNull
| JBool (b : bool)
| JNumber (n : Z)
| JString (s : string)
| JArray (items : list Json)
| JObject (fields : list (string * Json)).

Module Disk.

(** The text of a file: a JSON document, which [JSON.stringify] writes
    and [JSON.parse] reads back, or text that [JSON.parse] rejects. *)
Inductive Content : Type :=
| Document (data : Json)
| OtherText.

(** The files by path, and the paths the system refuses to read or to
    write. *)
Record t : Type := mk {
  files : JsMap.t Content;
  refuses_read : string -> bool;
  refuses_write : string -> bool
}.

Definition EACCES : JsError := mkError (Some "EACCES") "permission denied".
Definition ENOENT : JsError := mkError (Some "ENOENT") "no such file or directory".

Definition existsSync (d : t) (p : string) : bool := JsMap.has (files d) p.

Definition readFileSync (d : t) (p : string) : Result Content :=
  match JsMap_get (files d) p with
  | None => inl ENOENT
  | Some c => if refuses_read d p then inl EACCES else inr c
  end.

Definition writeFileSync (d : t) (p : string) (c : Content) : t * Result unit :=
  if refuses_write d p then (d, inl EACCES)
  else (mk (JsMap.set (files d) p c) (refuses_read d) (refuses_write d), inr tt).

(** [fs.mkdirSync(dir, { recursive: true })]; directories are not kept. *)
Definition mkdirSync (d : t) (dir : string) : Result unit :=
  if refuses_write d dir then inl EACCES else inr tt.

Definition renameSync (d : t) (oldPath newPath : string) : t * Result unit :=
  match JsMap_get (files d) oldPath with
  | None => (d, inl ENOENT)
  | Some c =>
      if refuses_write d oldPath || refuses_write d newPath then (d, inl EACCES)
      else
        (mk (JsMap.set (filter (fun e => negb (String.eqb (fst e) oldPath)) (files d))
                       newPath c)
            (refuses_read d) (refuses_write d), inr tt)
  end.

(** [JSON.parse(raw)] *)
Definition parse (raw : Content) : Result Json :=
  match raw with
  | Document data => inr data
  | OtherText => inl (Error "Unexpected token in JSON")
  end.

End Disk.

(** ** src/utils/config.js *)

Module Config.

Definition LEGACY_CONFIG_FILENAME : string := ".devclean.json".
Definition CONFIG_DIR_NAME : string := ".dclean".
Definition CONFIG_FILENAME : string := "config.json".

Section WithProcess.
Variable cwd : string.
(** [os.homedir()] *)
Variable homedir : string.

Definition getConfigPath : string :=
  let home := homedir in
  let dir := Path.join home CONFIG_DIR_NAME in
  Path.join dir CONFIG_FILENAME.

Definition migrateLegacyConfig : Eff.M Disk.t unit :=
  fun s =>
    let home := homedir in
    let legacyPath := Path.join home LEGACY_CONFIG_FILENAME in
    let newPath := getConfigPath in
    let newDir := Path.dirname newPath in
    let d := Eff.world s in
    if Disk.existsSync d legacyPath && negb (Disk.existsSync d newPath) then
      match Disk.mkdirSync d newDir with
      | inl _ => (s, inr tt)
      | inr _ =>
          let '(d', _) := Disk.renameSync d legacyPath newPath in
          (Eff.mkState d' (Eff.trace s), inr tt)
      end
    else (s, inr tt).

(** [typeof p === 'string' ? p.trim() : ''] *)
Definition trimmed_entry (p : Json) : string :=
  match p with
  | JString s => JsString.trim s
  | _ => ""
  end.

(** [p.startsWith('~') ? path.join(os.homedir(), p.slice(1)) : path.resolve(p)] *)
Definition expand_entry (p : string) : string :=
  if Js.startsWith p "~" then Path.join homedir (JsString.slice 1 p)
  else Path.resolve cwd p.

(** The second [try] block of [loadConfig], on the parsed [data];
    reading [scanPaths] of [null] throws. *)
Definition scanPaths_of (data : Json) : Result (list string) :=
  match data with
  | JNull => inl (Error "Cannot read properties of null (reading 'scanPaths')")
  | JObject fields =>
      let list :=
        match JsMap_get fields "scanPaths" with
        | Some (JArray items) => items
        | _ => []
        end in
      inr (map expand_entry
             (filter (fun p => negb (String.eqb p "")) (map trimmed_entry list)))
  | _ => inr []
  end.

(** [loadConfig()]: the [scanPaths] of the object it returns. *)
Definition loadConfig : Eff.M Disk.t (list string) :=
  (migrateLegacyConfig ;;;
   fun s =>
     let configPath := getConfigPath in
     match Disk.readFileSync (Eff.world s) configPath with
     | inl _ => (s, inr [])
     | inr raw =>
         match
           match Disk.parse raw with
           | inl e => inl e
           | inr data => scanPaths_of data
           end
         with
         | inr scanPaths => (s, inr scanPaths)
         | inl _ =>
             (Eff.emit (LogWarn ("Invalid config at " ++ configPath
                                 ++ ", using no paths. Fix or delete the file.")) ;;;
              Eff.ret [])%eff s
         end
     end)%eff.

Definition toStoredPath (absolutePath homeDir : string) : string :=
  let normalized := Path.normalize absolutePath in
  if negb (String.eqb homeDir "")
     && Js.startsWith normalized (Path.normalize (homeDir ++ Path.sep))
  then "~" ++ JsString.slice (String.length (Path.normalize homeDir)) normalized
  else normalized.

(** [saveConfig(absolutePaths, homeDir)]; the outcome of [mkdirSync] is
    caught and left aside. *)
Definition saveConfig (absolutePaths : list string) (homeDir : string)
  : Eff.M Disk.t bool :=
  fun s =>
    let configPath := getConfigPath in
    let stored :=
      filter (fun p => negb (String.eqb p ""))
             (map (fun p => toStoredPath p homeDir) absolutePaths) in
    let data := JObject [("scanPaths", JArray (map JString stored))] in
    match Disk.writeFileSync (Eff.world s) configPath (Disk.Document data) with
    | (d', inr _) => (Eff.mkState d' (Eff.trace s), inr true)
    | (d', inl _) => (Eff.mkState d' (Eff.trace s), inr false)
    end.

End WithProcess.
End Config.

(** ** src/utils/history.js *)

Module History.

Definition MAX_ENTRIES : nat := 50.

(** The argument of [logCleanup]; a field may be missing. *)
Record Stats : Type := mkStats {
  freedBytes : option Z;
  itemsDeleted : option Z;
  scanTypes : option (list string)
}.

Section WithProcess.
Variable homedir : string.
(** [new Date().toISOString()] *)
Variable now : string.

Definition getHistoryPath : string :=
  let configDir := Path.dirname (Config.getConfigPath homedir) in
  Path.join configDir "history.json".

(** [getHistory()]: what [JSON.parse] gives, or [[]]. *)
Definition getHistory (d : Disk.t) : Json :=
  match Disk.readFileSync d getHistoryPath with
  | inl _ => JArray []
  | inr raw =>
      match Disk.parse raw with
      | inl _ => JArray []
      | inr data => data
      end
  end.

Definition entry_of (stats : Stats) : Json :=
  JObject [ ("date", JString now);
            ("freedBytes", JNumber (Cleaner.size_or_zero (freedBytes stats)));
            ("itemsDeleted", JNumber (Cleaner.size_or_zero (itemsDeleted stats)));
            ("scanTypes", JArray (map JString
                                    (match scanTypes stats with
                                     | Some l => l
                                     | None => []
                                     end))) ].

(** [logCleanup(stats)]: [history.push] throws when the file holds a
    document that is not an array; what the writing throws is caught. *)
Definition logCleanup (stats : Stats) : Eff.M Disk.t unit :=
  fun s =>
    let entry := entry_of stats in
    match getHistory (Eff.world s) with
    | JArray history =>
        let history := (history ++ [entry])%list in
        let history :=
          if Nat.ltb MAX_ENTRIES (length history) then tl history else history in
        let p := getHistoryPath in
        match Disk.mkdirSync (Eff.world s) (Path.dirname p) with
        | inl _ => (s, inr tt)
        | inr _ =>
            let '(d', _) :=
              Disk.writeFileSync (Eff.world s) p (Disk.Document (JArray history)) in
            (Eff.mkState d' (Eff.trace s), inr tt)
        end
    | JNull => (s, inl (Error "Cannot read properties of null (reading 'push')"))
    | _ => (s, inl (Error "history.push is not a function"))
    end.

End WithProcess.
End History.

(** ** src/scanners/pods.js *)

Module PodsScanner.

(** [constants.PODS] *)
Definition PODS : string := "Pods".

Record Item : Type := mkItem {
  path : string;
  size : Z;
  lastModified : option Z;
  lastModifiedDays : Days;
  parentDir : string
}.

Record Output : Type := mkOutput {
  type : string;
  items : list Item;
  totalSize : Z;
  count : nat
}.

Section WithMachine.
Variable m : Machine.

Definition maxDepth : nat := Constants.MAX_SCAN_DEPTH.
Definition ignorePatterns : list string := Constants.IGNORE_DIRS.

(** The filter of [scan] on the directories found. *)
Definition is_top_level (dir : string) : bool :=
  let suffix := Path.sep ++ PODS in
  if negb (Js.endsWith dir suffix) then true
  else
    let withoutName :=
      JsString.slice_to (String.length dir - String.length suffix) dir in
    negb (JsString.includes withoutName PODS).

Definition make_item (dir : string) : Item :=
  let size := BaseScanner.calculateSize m dir in
  let '(lastModified, lastModifiedDays) := BaseScanner.getMetadata m dir in
  let parentDir := Path.dirname dir in
  mkItem dir size lastModified lastModifiedDays parentDir.

Definition scan (basePath : string) (onEnterDir : bool) : Result Output :=
  match BaseScanner.findDirectories m maxDepth ignorePatterns
          basePath PODS None onEnterDir with
  | inl e => inl e
  | inr podsDirs =>
      let topLevelOnly := filter is_top_level podsDirs in
      let items := map make_item topLevelOnly in
      let totalSize := fold_left (fun sum item => (sum + size item)%Z) items 0%Z in
      inr (mkOutput "pods" items totalSize (length items))
  end.
End WithMachine.
End PodsScanner.

(** ** src/scanners/rustTarget.js *)

Module RustTargetScanner.
Section WithMachine.
Variable m : Machine.

Definition maxDepth : nat := Constants.MAX_SCAN_DEPTH.
Definition ignorePatterns : list string := Constants.IGNORE_DIRS.

(** The body of the loop over the [target] directories found. *)
Definition target_entry (items : list ScanItem) (dir : string) : list ScanItem :=
  let parentDir := Path.dirname dir in
  let cargoTomlPath := Path.join parentDir "Cargo.toml" in
  if pathExists m cargoTomlPath then
    let size := BaseScanner.calculateSize m dir in
    let '(lastModified, lastModifiedDays) := BaseScanner.getMetadata m dir in
    (items ++ [mkScanItem dir size lastModified lastModifiedDays None None false])%list
  else items.

Definition scan (basePath : string) (onEnterDir : bool) : Result ScanResult :=
  match BaseScanner.findDirectories m maxDepth ignorePatterns
          basePath "target" None onEnterDir with
  | inl e => inl e
  | inr targetDirs =>
      let items := fold_left target_entry targetDirs [] in
      let totalSize := sum_sizes items in
      inr (mkScanResult "rust_target" items totalSize (length items))
  end.
End WithMachine.
End RustTargetScanner.

(** ** src/ui/prompts.js

    A choice of a prompt is kept with its [value]; its [name], the line
    shown, is presentation and is left out. *)

Module Prompts.

(** [constants.AGE_*_DAYS] and [constants.SIZE_*] *)
Definition AGE_BUCKETS : list (Z * string) :=
  [(90%Z, "3 months"); (180%Z, "6 months"); (365%Z, "1 year")].
Definition SIZE_BUCKETS : list (Z * string) :=
  [((500 * 1024 * 1024)%Z, "500 MB"); ((1024 * 1024 * 1024)%Z, "1 GB")].

(** The [value] of a choice. *)
Inductive ChoiceValue : Type :=
| Skip                                                (* ['__skip__'] *)
| Group (type : string) (items : list Cleaner.Item)   (* [{ type, items }] *)
| CustomSelect (categoryType : string) (allItems : list Cleaner.Item)
    (label : string).                                 (* [{ type: 'custom_select', ... }] *)

Inductive Choice : Type :=
| Option (value : ChoiceValue)
| Separator.

Definition isSkip (val : ChoiceValue) : bool :=
  match val with
  | Skip => true
  | _ => false
  end.

(** [(i.lastModifiedDays ?? 0) > days] *)
Definition older_than (days : Z) (i : Cleaner.Item) : bool :=
  match Cleaner.lastModifiedDays i with
  | None => (0 >? days)%Z
  | Some DaysInfinity => true
  | Some (DaysNumber d) => (d >? days)%Z
  end.

(** [(i.size ?? 0) >= bytes] *)
Definition at_least (bytes : Z) (i : Cleaner.Item) : bool :=
  match Cleaner.size i with
  | None => (0 >=? bytes)%Z
  | Some n => (n >=? bytes)%Z
  end.

(** One of the two loops of [buildCategoryChoices] over buckets: a
    bucket whose subset is empty gives no choice. *)
Definition bucket_choices (test : Z -> Cleaner.Item -> bool) (buckets : list (Z * string))
  (items : list Cleaner.Item) (type : string) : list Choice :=
  flat_map (fun bucket =>
              let subset := filter (test (fst bucket)) items in
              match subset with
              | [] => []
              | _ => [Option (Group type subset)]
              end) buckets.

Definition buildCategoryChoices (items : list Cleaner.Item) (type categoryLabel : string)
  : list Choice :=
  (bucket_choices older_than AGE_BUCKETS items type
   ++ bucket_choices at_least SIZE_BUCKETS items type
   ++ [Option (Group type items);
       Option (CustomSelect type items categoryLabel)])%list.

(** A category of the scan results, as the prompt reads it. *)
Record Category (I : Type) : Type := mkCategory {
  count : Z;
  items : list I
}.
Arguments mkCategory {I} count items.
Arguments count {I} c.
Arguments items {I} c.

(** The scan results; a category may be missing.  An item of
    [nvmVersions] comes with its [isCurrent]. *)
Record ScanResults : Type := mkScanResults {
  nodeModules : option (Category Cleaner.Item);
  pythonVenvs : option (Category Cleaner.Item);
  pods : option (Category Cleaner.Item);
  rustTargets : option (Category Cleaner.Item);
  gradleBuilds : option (Category Cleaner.Item);
  cmakeBuilds : option (Category Cleaner.Item);
  flutterBuilds : option (Category Cleaner.Item);
  xcodeBuilds : option (Category Cleaner.Item);
  nvmVersions : option (Category (Cleaner.Item * bool))
}.

(** [if (scanResults.x && scanResults.x.count > 0) choices.push(...buildCategoryChoices(...))] *)
Definition category_choices {I : Type} (c : option (Category I))
  (select : list I -> list Cleaner.Item) (type categoryLabel : string) : list Choice :=
  match c with
  | Some cat =>
      if (count cat >? 0)%Z then buildCategoryChoices (select (items cat)) type categoryLabel
      else []
  | None => []
  end.

(** The choices [promptForCleanup] puts to the user. *)
Definition cleanup_choices (scanResults : ScanResults) : list Choice :=
  ([Option Skip; Separator]
   ++ category_choices (nodeModules scanResults) (fun l => l) "node_modules" "node_modules"
   ++ category_choices (pythonVenvs scanResults) (fun l => l) "python_venv" "Python venvs"
   ++ category_choices (pods scanResults) (fun l => l) "pods" "Pods"
   ++ category_choices (rustTargets scanResults) (fun l => l) "rust_target" "Rust target"
   ++ category_choices (gradleBuilds scanResults) (fun l => l) "gradle_build" "Gradle build"
   ++ category_choices (cmakeBuilds scanResults) (fun l => l) "cmake_build" "CMake build"
   ++ category_choices (flutterBuilds scanResults) (fun l => l) "flutter_build" "Flutter build"
   ++ category_choices (xcodeBuilds scanResults) (fun l => l) "xcode_build" "Xcode build"
   ++ category_choices (nvmVersions scanResults)
        (fun l => map fst (filter (fun i => negb (snd i)) l)) "nvm" "NVM versions")%list.

Section WithUser.
(** What the user checks in [promptForSpecificItems(label, allItems)]. *)
Variable promptForSpecificItems : string -> list Cleaner.Item -> list Cleaner.Item.

(** The body of the loop over the checked values. *)
Definition final_selection (finalSelections : list Cleaner.Selection) (sel : ChoiceValue)
  : list Cleaner.Selection :=
  match sel with
  | CustomSelect categoryType allItems label =>
      let specificItems := promptForSpecificItems label allItems in
      match specificItems with
      | [] => finalSelections
      | _ => (finalSelections ++ [Cleaner.mkSelection categoryType (Some specificItems)])%list
      end
  | Group type items =>
      (finalSelections ++ [Cleaner.mkSelection type (Some items)])%list
  | Skip => (finalSelections ++ [Cleaner.mkSelection "" None])%list
  end.

(** [promptForCleanup(scanResults)], given the values [raw] that the
    user checked among the choices. *)
Definition promptForCleanup (scanResults : ScanResults) (raw : list ChoiceValue)
  : list Cleaner.Selection :=
  if existsb isSkip raw then []
  else fold_left final_selection raw [].
End WithUser.

End Prompts.

(* ===================================================================== *)
(** * Part II.  Vocabulary of the specification                           *)
(* ===================================================================== *)

(** ** Paths *)

(** [s] holds no separator. *)
Fixpoint no_slash (s : string) : bool :=
  match s with
  | EmptyString => true
  | String c s' => negb (Ascii.eqb c "/") && no_slash s'
  end.

(** A piece that [normalizeString] keeps as it is. *)
Definition clean (x : string) : bool :=
  negb (String.eqb x "") && negb (String.eqb x ".") && negb (String.eqb x "..")
  && no_slash x.

(** What [normalizeString] keeps of a relative path: every piece is free
    of separators, not empty and not ["."]. *)
Definition rel_piece (y : string) : bool :=
  negb (String.eqb y "") && negb (String.eqb y ".") && no_slash y.

(** The absolute path with the given pieces. *)
Definition abs_path (pieces : list string) : string :=
  String "/" (Js.join_slash pieces).

(** The pieces of a path: what lies between its separators. *)
Definition path_segments (s : string) : list string :=
  filter (fun x => negb (String.eqb x "")) (Js.split_slash s).

(** The kept pieces of [path.resolve(p)], last first. *)
Definition resolve_pieces (cwd p : string) : list string :=
  fold_left (Path.normalize_step false)
    (if Path.isAbsolute p then Js.split_slash p
     else (Js.split_slash cwd ++ Js.split_slash p)%list) [].

Fixpoint is_strict_prefix (a d : list string) : bool :=
  match a, d with
  | [], _ :: _ => true
  | x :: a', y :: d' => String.eqb x y && is_strict_prefix a' d'
  | _, _ => false
  end.

(** [d] is a strict descendant of the directory [anc]: both are absolute
    and the pieces of [anc] are the first pieces of [d], which has more. *)
Definition strictly_under (anc d : string) : bool :=
  Path.isAbsolute anc && Path.isAbsolute d
  && is_strict_prefix (path_segments anc) (path_segments d).

(** ** The safety gate *)

(** The names of the protected directories directly under home. *)
Definition protected_names : list string :=
  ["Desktop"; "Documents"; "Downloads"; ".ssh"; "Library"].

(** The protected directories directly under home, resolved. *)
Definition protected_directories (cwd homedir : string) : list string :=
  map (fun name => Path.resolve cwd (Path.join homedir name)) protected_names.

(** ** The cleanup executor *)

(** All the items of the selections, in selection order. *)
Definition all_items (selections : list Cleaner.Selection) : list Cleaner.Item :=
  flat_map (fun sel => match Cleaner.items sel with Some its => its | None => [] end)
           selections.

(** The first item of [l] with path [p]. *)
Definition first_with_path (p : string) (l : list Cleaner.Item) : option Cleaner.Item :=
  find (fun it => String.eqb (Cleaner.path it) p) l.

(** The entry [flattenAndDedupe] builds from an item. *)
Definition target_of (it : Cleaner.Item) : Cleaner.Target :=
  Cleaner.mkTarget (Cleaner.path it) (Cleaner.size_or_zero (Cleaner.size it))
                   (Cleaner.lastModifiedDays it).

(** What holds of the map of [flattenAndDedupe] after the items [l] have
    been seen. *)
Record dedupe_inv (l : list Cleaner.Item) (m : JsMap.t Cleaner.Target) : Prop := {
  inv_nodup : NoDup (JsMap.keys m);
  inv_first : forall k v, In (k, v) m ->
                exists it, first_with_path k l = Some it /\ v = target_of it
                           /\ Cleaner.path it = k;
  inv_seen : forall it, In it l -> JsMap.has m (Cleaner.path it) = true
}.

Definition success_of (item : Cleaner.Target) : Cleaner.Outcome :=
  Cleaner.mkOutcome (Cleaner.t_path item) (Some (Cleaner.t_size item)) true None.

Definition failure_of (item : Cleaner.Target) (message : string) : Cleaner.Outcome :=
  Cleaner.mkOutcome (Cleaner.t_path item) None false (Some message).

(** The sum of the sizes of the targets. *)
Definition total_size (items : list Cleaner.Target) : Z :=
  fold_right Z.add 0%Z (map Cleaner.t_size items).

(** The line a dry run logs for an item. *)
Definition dry_run_message (item : Cleaner.Target) : Event :=
  LogInfo ("[DRY RUN] Would delete: " ++ Cleaner.t_path item).

Section BatchOutcomes.
Context {W : Type}.
Variable cwd : string.
Variable homedir : string.
Variable trash : W -> string -> W * option JsError.

(** The outcome of one item of a batch that is not a dry run, in the
    words of the specification: [item_outcome w item w' o] when, in the
    world [w], the item ends with outcome [o] and leaves the world [w']. *)
Inductive item_outcome (w : W) (item : Cleaner.Target) : W -> Cleaner.Outcome -> Prop :=
| gate_refuses e :
    SafeDelete.validatePathForDeletion cwd homedir (Cleaner.t_path item) = inl e ->
    item_outcome w item w (failure_of item (err_message e))
| moved_to_trash w' :
    SafeDelete.validatePathForDeletion cwd homedir (Cleaner.t_path item) = inr tt ->
    trash w (Path.resolve cwd (Cleaner.t_path item)) = (w', None) ->
    item_outcome w item w' (success_of item)
| permission_denied w' err :
    SafeDelete.validatePathForDeletion cwd homedir (Cleaner.t_path item) = inr tt ->
    trash w (Path.resolve cwd (Cleaner.t_path item)) = (w', Some err) ->
    err_code err = Some "EACCES" ->
    item_outcome w item w'
      (failure_of item (SafeDelete.MSG_PERMISSION ++ Cleaner.t_path item))
| already_gone w' err :
    SafeDelete.validatePathForDeletion cwd homedir (Cleaner.t_path item) = inr tt ->
    trash w (Path.resolve cwd (Cleaner.t_path item)) = (w', Some err) ->
    err_code err = Some "ENOENT" ->
    item_outcome w item w' (success_of item)
| other_failure w' err :
    SafeDelete.validatePathForDeletion cwd homedir (Cleaner.t_path item) = inr tt ->
    trash w (Path.resolve cwd (Cleaner.t_path item)) = (w', Some err) ->
    err_code err <> Some "EACCES" -> err_code err <> Some "ENOENT" ->
    item_outcome w item w' (failure_of item (err_message err)).

(** Every item of the batch gets its outcome, one after the other. *)
Inductive batch_outcomes : W -> list Cleaner.Target -> W -> list Cleaner.Outcome -> Prop :=
| batch_nil w : batch_outcomes w [] w []
| batch_cons w item w1 o items w2 os :
    item_outcome w item w1 o ->
    batch_outcomes w1 items w2 os ->
    batch_outcomes w (item :: items) w2 (o :: os).

End BatchOutcomes.

(** A trash primitive that always succeeds, on a world that counts the
    paths moved. *)
Definition counting_trash (w : nat) (resolved : string) : nat * option JsError :=
  (S w, None).

(** ** Scanners *)

(** A machine on which every [mtime] is one second ahead of the clock. *)
Definition machine_ahead : Machine :=
  mkMachine (fun _ => inr 0%Z) (fun _ => Some 1700000001000%Z) 1700000000000%Z
            (fun _ => false) (fun _ => inr []) (fun _ => FileSystem.Dir []).

(** The node found by following [names] down from [t]. *)
Fixpoint subtree (t : FileSystem.Node) (names : list string) : option FileSystem.Node :=
  match names with
  | [] => Some t
  | name :: rest =>
      match t with
      | FileSystem.Dir entries =>
          match find (fun e => String.eqb (fst e) name) entries with
          | Some (_, child) => subtree child rest
          | None => None
          end
      | _ => None
      end
  end.

Definition is_directory (o : option FileSystem.Node) : bool :=
  match o with
  | Some (FileSystem.Dir _) => true
  | _ => false
  end.

(** The path of the entry reached from [root] through [names]. *)
Definition descend (root : string) (names : list string) : string :=
  fold_left Path.join names root.

(** A machine whose walks all meet the tree [t]. *)
Definition machine_with_tree (t : FileSystem.Node) : Machine :=
  mkMachine (fun _ => inr 0%Z) (fun _ => Some 0%Z) 0%Z
            (fun _ => false) (fun _ => inr []) (fun _ => t).

(** [home/a/b/c/d/e/node_modules/pkg/node_modules] *)
Definition deep_tree : FileSystem.Node :=
  FileSystem.Dir [("a", FileSystem.Dir [("b", FileSystem.Dir [("c",
    FileSystem.Dir [("d", FileSystem.Dir [("e",
      FileSystem.Dir [("node_modules",
        FileSystem.Dir [("pkg",
          FileSystem.Dir [("node_modules", FileSystem.Dir [])])])])])])])])].

(** [home/proj] with a [package.json] and a [node_modules] that holds
    [inside]. *)
Definition project_tree (size : Z) (inside : list (string * FileSystem.Node))
  : FileSystem.Node :=
  FileSystem.Dir
    [("proj", FileSystem.Dir [("package.json", FileSystem.File size);
                              ("node_modules", FileSystem.Dir inside)])].

Definition derived_data : string := "/home/testuser/Library/Developer/Xcode/DerivedData".

(** A machine whose DerivedData directory exists and holds one project
    directory and one file; the scanned roots are empty directories. *)
Definition xcode_machine : Machine :=
  mkMachine (fun _ => inr 10%Z) (fun _ => Some 0%Z) 0%Z
            (fun p => String.eqb p derived_data)
            (fun p => if String.eqb p derived_data
                      then inr [("App-abc", true); ("info.plist", false)]
                      else inl (mkError (Some "ENOENT") "no such file or directory"))
            (fun _ => FileSystem.Dir []).

Definition two_roots : list string := ["/home/testuser/a"; "/home/testuser/b"].

(** ** Asynchronous functions that do not depend on the shared state *)

(** [settles st a]: however the event loop resumes it, and whatever the
    shared state is when it does, the suspended function returns [a]. *)
Inductive settles {S A : Type} : Async.Status S A -> A -> Prop :=
| settles_done a : settles (Async.Done a) a
| settles_step resume a :
    (forall s, settles (snd (resume s)) a) -> settles (Async.Suspended resume) a.

(** [returns c a]: started in any state, [c] returns [a]. *)
Definition returns {S A : Type} (c : Async.Co S A) (a : A) : Prop :=
  forall s, settles (snd (c s)) a.

Section FirstScan.
Variable m : Machine.
Variable homeDir : string.
Variable onEnterDir : bool.

(** What one turn of the loop over DerivedData adds. *)
Definition derived_step (items : list ScanItem) (entry : string * bool) : list ScanItem :=
  if snd entry then
    let projectDDPath := Path.join (XcodeScanner.derivedDataPath homeDir) (fst entry) in
    (items ++ [mkScanItem projectDDPath (BaseScanner.calculateSize m projectDDPath)
                 (fst (BaseScanner.getMetadata m projectDDPath))
                 (snd (BaseScanner.getMetadata m projectDDPath)) None None true])%list
  else items.

(** What one turn of the loop over the [build] directories adds. *)
Definition build_step (items : list ScanItem) (dir : string) : list ScanItem :=
  if Js.startsWith dir (XcodeScanner.derivedDataPath homeDir) then items
  else if XcodeScanner.isXcodeProject m (Path.dirname dir) then
    (items ++ [mkScanItem dir (BaseScanner.calculateSize m dir)
                 (fst (BaseScanner.getMetadata m dir))
                 (snd (BaseScanner.getMetadata m dir)) None None false])%list
  else items.

(** The items of the global cache, as a scan that finds [globalScanned]
    unset collects them. *)
Definition derived_items : list ScanItem :=
  if pathExists m (XcodeScanner.derivedDataPath homeDir) then
    match readdirSync m (XcodeScanner.derivedDataPath homeDir) with
    | inr entries => fold_left derived_step entries []
    | inl _ => []
    end
  else [].

(** What [scan(basePath)] returns when it finds [globalScanned] unset. *)
Definition first_scan_value (basePath : string) : Result ScanResult :=
  match BaseScanner.findDirectories m XcodeScanner.maxDepth XcodeScanner.ignorePatterns
          basePath "build" None onEnterDir with
  | inl e => inl e
  | inr buildDirs =>
      let items := fold_left build_step buildDirs derived_items in
      inr (mkScanResult "xcode_build" items (sum_sizes items) (length items))
  end.

(** The same after [.catch]. *)
Definition first_scan_result (basePath : string) : ScanResult :=
  match first_scan_value basePath with
  | inr res => res
  | inl _ => mkScanResult "" [] 0%Z 0
  end.

End FirstScan.

(** ** The walk for directories of a given name *)

(** The names [readdir] gives are clean and distinct, at every level. *)
Fixpoint well_formed (node : FileSystem.Node) : Prop :=
  match node with
  | FileSystem.Dir entries =>
      Forall (fun e => clean (fst e) = true) entries
      /\ NoDup (map fst entries)
      /\ (fix all (es : list (string * FileSystem.Node)) : Prop :=
            match es with
            | [] => True
            | (_, child) :: es' => well_formed child /\ all es'
            end) entries
  | _ => True
  end.

(** [lstat] says directory. *)
Definition is_dir_node (node : FileSystem.Node) : bool :=
  match node with
  | FileSystem.Dir _ | FileSystem.DirUnreadable _ => true
  | _ => false
  end.

Section WalkEntries.
Context {A : Type}.
Variable maxDepth : nat.
Variable ignoreDirs : list string.
Variable skipDescendingInto : list string.
Variable onEnterDir : bool.
Variable callback : A -> string -> FileSystem.Stats -> A.

(** The loop of [walk] over the entries of the directory [currentPath]. *)
Fixpoint walk_entries (currentPath : string) (depth : nat)
  (es : list (string * FileSystem.Node)) (st : FileSystem.WalkState)
  : Result FileSystem.WalkState :=
  match es with
  | [] => inr st
  | (entry, child) :: es' =>
      match FileSystem.walk maxDepth ignoreDirs skipDescendingInto onEnterDir callback
              child (Path.join currentPath entry) (S depth) st with
      | inl e => inl e
      | inr st' => walk_entries currentPath depth es' st'
      end
  end.

End WalkEntries.

(** An absolute path with a last piece [x]: what precedes the last
    separator, then the separator, then [x]. *)
Definition parent_text (pieces : list string) : string :=
  match pieces with
  | [] => ""
  | _ => abs_path pieces
  end.

(** The walk stops at [P ++ ns]: its last piece is [target], and no
    directory passed on the way down from [P] is named [target]. *)
Definition stops_at (target : string) (P ns : list string) : Prop :=
  last (P ++ ns) "" = target
  /\ forall ns1 ns2, ns = (ns1 ++ ns2)%list -> ns2 <> [] -> last (P ++ ns1) "" <> target.

(** [f] is the path of a directory named [target] at or below [P] that
    the walk reaches. *)
Definition found_below (target : string) (P : list string) (f : string) : Prop :=
  exists ns, f = abs_path (P ++ ns)
             /\ Forall (fun x => clean x = true) ns
             /\ stops_at target P ns.

(** The directory named [target] under the directories [names], below
    [node] at [P], is within the reach of a walk that is at [node] with
    depth [d]: every directory on the way is a readable directory, within
    the depth bound, not ignored and not itself named [target]. *)
Fixpoint within_reach (maxDepth : nat) (ignoreDirs : list string) (target : string)
  (node : FileSystem.Node) (P : list string) (d : nat) (names : list string) : bool :=
  Nat.leb d maxDepth
  && negb (FileSystem.ignored ignoreDirs (abs_path P))
  && negb (String.eqb (last P "") target)
  && match node with
     | FileSystem.Dir entries =>
         match names with
         | [] =>
             match find (fun e => String.eqb (fst e) target) entries with
             | Some (_, child) =>
                 is_dir_node child && Nat.leb (S d) maxDepth
                 && negb (FileSystem.ignored ignoreDirs (abs_path (P ++ [target])))
             | None => false
             end
         | name :: rest =>
             match find (fun e => String.eqb (fst e) name) entries with
             | Some (_, child) =>
                 within_reach maxDepth ignoreDirs target child (P ++ [name]) (S d) rest
             | None => false
             end
         end
     | _ => false
     end.

(** [f] is the directory [X] or lies below it. *)
Definition at_or_below (X f : string) : bool :=
  String.eqb f X || strictly_under X f.

(** ** Vocabulary of the further properties *)

(** The bytes a list of outcomes reports as freed: the sizes of its
    successes. *)
Definition freed_by (os : list Cleaner.Outcome) : Z :=
  fold_right Z.add 0%Z
    (map (fun o => if Cleaner.o_success o
                   then match Cleaner.o_size o with Some n => n | None => 0%Z end
                   else 0%Z) os).

(** [Number.MAX_SAFE_INTEGER] *)
Definition MAX_SAFE_INTEGER : Z := (2 ^ 53 - 1)%Z.

(** Byte counts that the additions of JavaScript add without rounding,
    in any order: whole numbers from 0 whose sum is a safe integer. *)
Definition exact_bytes (sizes : list Z) : Prop :=
  Forall (fun n => (0 <= n)%Z) sizes
  /\ (fold_right Z.add 0%Z sizes <= MAX_SAFE_INTEGER)%Z.

(** The errors [lstat] and [readdir] throw somewhere in a tree. *)
Fixpoint errors_of (node : FileSystem.Node) : list JsError :=
  match node with
  | FileSystem.LstatFails e | FileSystem.DirUnreadable e => [e]
  | FileSystem.Dir entries =>
      (fix all (es : list (string * FileSystem.Node)) : list JsError :=
         match es with
         | [] => []
         | (_, child) :: es' => (errors_of child ++ all es')%list
         end) entries
  | _ => []
  end.

(** The loop of [CallbackWalk.walk] over the entries of a directory. *)
Fixpoint callback_walk_entries {A : Type} (maxDepth : nat)
  (ignoreDirs skipDescendingInto : list string) (onEnterDir : bool)
  (callback : A -> string -> FileSystem.Stats -> Result A)
  (currentPath : string) (depth : nat)
  (es : list (string * FileSystem.Node)) (st : FileSystem.WalkState)
  : Result FileSystem.WalkState :=
  match es with
  | [] => inr st
  | (entry, child) :: es' =>
      match CallbackWalk.walk maxDepth ignoreDirs skipDescendingInto onEnterDir callback
              child (Path.join currentPath entry) (S depth) st with
      | inl e => inl e
      | inr st' =>
          callback_walk_entries maxDepth ignoreDirs skipDescendingInto onEnterDir callback
            currentPath depth es' st'
      end
  end.

(** The callback fails with [e] on some call. *)
Definition thrown_by {A : Type} (callback : A -> string -> FileSystem.Stats -> Result A)
  (e : JsError) : Prop :=
  exists a currentPath stats, callback a currentPath stats = inl e.


(** [f] lies at most [maxDepth] levels below the directory with pieces
    [P], and neither [f] nor a directory between [P] and [f] is ignored. *)
Definition reached_from (maxDepth : nat) (ignoreDirs : list string)
  (P : list string) (f : string) : Prop :=
  exists ns, f = abs_path (P ++ ns)
             /\ Forall (fun x => clean x = true) ns
             /\ length ns <= maxDepth
             /\ forall ns1 ns2, ns = (ns1 ++ ns2)%list ->
                  FileSystem.ignored ignoreDirs (abs_path (P ++ ns1)) = false.

(** The sum of the [totalSize] of scan results. *)
Definition sum_totals (results : list ScanResult) : Z :=
  fold_right Z.add 0%Z (map sr_totalSize results).

(** A scan result whose [totalSize] and [count] are those of its items. *)
Definition consistent (r : ScanResult) : Prop :=
  sr_totalSize r = sum_sizes (sr_items r) /\ sr_count r = length (sr_items r).

(** The bytes of the regular files of a tree, as [lstat] gives them;
    symbolic links, special files and what cannot be read count for
    nothing. *)
Fixpoint file_bytes (node : FileSystem.Node) : Z :=
  match node with
  | FileSystem.File size => size
  | FileSystem.Dir entries =>
      (fix all (es : list (string * FileSystem.Node)) : Z :=
         match es with
         | [] => 0%Z
         | (_, child) :: es' => (file_bytes child + all es')%Z
         end) entries
  | _ => 0%Z
  end.

(** The loop of [FileSize.walk] over the entries of a directory. *)
Fixpoint size_entries (currentPath : string) (es : list (string * FileSystem.Node))
  (totalSize : Z) : Result Z :=
  match es with
  | [] => inr totalSize
  | (entry, child) :: es' =>
      match FileSize.walk child (Path.join currentPath entry) totalSize with
      | inl e => inl e
      | inr totalSize' => size_entries currentPath es' totalSize'
      end
  end.

(** The sizes of the regular files of a tree, in the order of the walk. *)
Fixpoint file_sizes (node : FileSystem.Node) : list Z :=
  match node with
  | FileSystem.File size => [size]
  | FileSystem.Dir entries =>
      (fix all (es : list (string * FileSystem.Node)) : list Z :=
         match es with
         | [] => []
         | (_, child) :: es' => (file_sizes child ++ all es')%list
         end) entries
  | _ => []
  end.

(** No call with the cache on is in flight for the directory
    [resolved]. *)
Definition quiet (cwd resolved : string) (s : FileSize.Session) : Prop :=
  Forall (fun call => snd call = true -> Path.resolve cwd (fst call) <> resolved)
         (FileSize.in_flight s).

(** A call with the cache on for the directory [resolved] settled with
    [size]; other calls are not looked at. *)
Definition settled_with (cwd resolved : string) (size : Z)
  (call : string * bool * Result Z) : Prop :=
  snd (fst call) = true -> Path.resolve cwd (fst (fst call)) = resolved ->
  snd call = inr size.

(** The last code unit of [s] is white space. *)
Definition ends_with_white_space (s : string) : bool :=
  match Js.rev_chars s with
  | c :: _ => JsString.is_white_space c
  | [] => false
  end.

Section ValidatedPaths.
Variable cwd : string.
Variable home : string.
Variable statSync_isDirectory : string -> Result bool.

(** What holds of the loop variables once the raw paths [done] have been
    seen. *)
Record validated_inv (done : list string) (st : list string * Cli.ValidatedPaths)
  : Prop := {
  inv_seen_paths : forall p,
    In p (fst st) <-> In p (Cli.paths (snd st)) \/ In p (Cli.missing (snd st));
  inv_paths_nodup : NoDup (Cli.paths (snd st));
  inv_missing_nodup : NoDup (Cli.missing (snd st));
  inv_paths : forall p,
    In p (Cli.paths (snd st))
    <-> (exists raw, In raw done /\ Cli.resolvePath cwd home raw = Some p) /\ Cli.isReadableDir statSync_isDirectory p = true;
  inv_missing : forall p,
    In p (Cli.missing (snd st))
    <-> (exists raw, In raw done /\ Cli.resolvePath cwd home raw = Some p) /\ Cli.isReadableDir statSync_isDirectory p = false;
  inv_invalid :
    Cli.invalid (snd st)
    = filter (fun raw => match Cli.resolvePath cwd home raw with None => true | Some _ => false end)
             done
}.

End ValidatedPaths.

(** A machine with one crate: [crate/Cargo.toml] beside [crate/target],
    and a directory [other/target] with no manifest. *)
Definition rust_machine : Machine :=
  mkMachine (fun _ => inr 0%Z) (fun _ => Some 0%Z) 0%Z
            (fun p => String.eqb p "/home/user/crate/Cargo.toml")
            (fun _ => inr [])
            (fun _ => FileSystem.Dir
                        [("crate", FileSystem.Dir [("Cargo.toml", FileSystem.File 1);
                                                   ("target", FileSystem.Dir [])]);
                         ("other", FileSystem.Dir [("target", FileSystem.Dir [])])]).

Definition category_items (c : option (Prompts.Category Cleaner.Item))
  : list Cleaner.Item :=
  match c with
  | Some cat => Prompts.items cat
  | None => []
  end.

(** The versions of Node that are not the current one. *)
Definition other_versions (c : option (Prompts.Category (Cleaner.Item * bool)))
  : list Cleaner.Item :=
  match c with
  | Some cat => map fst (filter (fun i => negb (snd i)) (Prompts.items cat))
  | None => []
  end.

(** What the scan reported that may be deleted: the items of every
    category, the current version of Node left out. *)
Definition offered (sr : Prompts.ScanResults) : list Cleaner.Item :=
  (category_items (Prompts.nodeModules sr)
   ++ category_items (Prompts.pythonVenvs sr)
   ++ category_items (Prompts.pods sr)
   ++ category_items (Prompts.rustTargets sr)
   ++ category_items (Prompts.gradleBuilds sr)
   ++ category_items (Prompts.cmakeBuilds sr)
   ++ category_items (Prompts.flutterBuilds sr)
   ++ category_items (Prompts.xcodeBuilds sr)
   ++ other_versions (Prompts.nvmVersions sr))%list.

(** The items a choice value would have deleted. *)
Definition value_items (v : Prompts.ChoiceValue) : list Cleaner.Item :=
  match v with
  | Prompts.Skip => []
  | Prompts.Group _ items => items
  | Prompts.CustomSelect _ allItems _ => allItems
  end.

(* ===================================================================== *)
(** * Part III.  Properties                                               *)
(* ===================================================================== *)

(** ** The path functions on examples *)

Example split_ex1 : Js.split_slash "/home/u//x/" = [""; "home"; "u"; ""; "x"; ""].
Proof. reflexivity. Qed.
Example resolve_ex1 : Path.resolve "/w" "/home/u/../v/./x/" = "/home/v/x".
Proof. reflexivity. Qed.
Example resolve_ex2 : Path.resolve "/w/d" "../x" = "/w/x".
Proof. reflexivity. Qed.
Example resolve_ex3 : Path.resolve "/w/d" "" = "/w/d".
Proof. reflexivity. Qed.
Example resolve_ex4 : Path.resolve "/w/d" "/.." = "/".
Proof. reflexivity. Qed.
Example join_ex1 : Path.join "/home/u" "Library/Developer/Xcode/DerivedData"
                   = "/home/u/Library/Developer/Xcode/DerivedData".
Proof. reflexivity. Qed.
Example join_ex2 : Path.join "/home/u/" "x" = "/home/u/x".
Proof. reflexivity. Qed.
Example join_ex3 : Path.join "/" "x" = "/x".
Proof. reflexivity. Qed.
Example dirname_ex1 : Path.dirname "/home/u/node_modules" = "/home/u".
Proof. reflexivity. Qed.
Example dirname_ex2 : Path.dirname "/home" = "/".
Proof. reflexivity. Qed.
Example dirname_ex3 : Path.dirname "a/b/" = "a".
Proof. reflexivity. Qed.
Example dirname_ex4 : Path.dirname "//a" = "//".
Proof. reflexivity. Qed.
Example basename_ex1 : Path.basename "/home/u/node_modules/" = "node_modules".
Proof. reflexivity. Qed.
Example endsWith_ex1 : Js.endsWith "/home/u/MusicLibrary" "Library" = true.
Proof. reflexivity. Qed.

(** ** Facts on strings *)

Section StringFacts.

Lemma append_nil_r (s : string) : s ++ "" = s.
Proof. induction s; simpl; congruence. Qed.

Lemma append_assoc (a b c : string) : (a ++ b) ++ c = a ++ (b ++ c).
Proof. induction a; simpl; congruence. Qed.

Lemma prefix_append (a b : string) : String.prefix a (a ++ b) = true.
Proof.
  induction a as [|c a IH]; simpl.
  - destruct b; reflexivity.
  - destruct (ascii_dec c c); [assumption | contradiction].
Qed.

Lemma prefix_inv (a s : string) :
  String.prefix a s = true -> exists b, s = a ++ b.
Proof.
  revert s; induction a as [|c a IH]; intros s H.
  - exists s; reflexivity.
  - destruct s as [|d s]; simpl in H; [discriminate|].
    destruct (ascii_dec c d); [|discriminate].
    subst d. destruct (IH _ H) as [b ->]. exists b; reflexivity.
Qed.

Lemma append_inv_head (a b c : string) : a ++ b = a ++ c -> b = c.
Proof. induction a; simpl; intros H; [assumption | injection H; auto]. Qed.

Lemma length_append (a b : string) :
  String.length (a ++ b) = String.length a + String.length b.
Proof. induction a; simpl; auto. Qed.

End StringFacts.

(** ** Facts on [split_slash] and [join_slash] *)

Section SplitFacts.
Import Js.

Lemma split_not_nil (s : string) : split_slash s <> [].
Proof.
  induction s as [|c s IH]; simpl; [discriminate|].
  destruct (Ascii.eqb c "/"); [discriminate|].
  destruct (split_slash s); discriminate.
Qed.

Lemma split_app_slash (a b : string) :
  split_slash (a ++ String "/" b) = (split_slash a ++ split_slash b)%list.
Proof.
  induction a as [|c a IH]; simpl; [reflexivity|].
  destruct (Ascii.eqb c "/") eqn:E.
  - rewrite IH; reflexivity.
  - rewrite IH. destruct (split_slash a) eqn:Ea.
    + exfalso; eapply split_not_nil; eassumption.
    + reflexivity.
Qed.

Lemma split_no_slash (s : string) : no_slash s = true -> split_slash s = [s].
Proof.
  induction s as [|c s IH]; simpl; [reflexivity|].
  intros H; apply andb_true_iff in H as [Hc Hs].
  destruct (Ascii.eqb c "/"); [discriminate|].
  rewrite (IH Hs); reflexivity.
Qed.

Lemma split_pieces_no_slash (s : string) :
  Forall (fun x => no_slash x = true) (split_slash s).
Proof.
  induction s as [|c s IH]; simpl.
  - constructor; [reflexivity | constructor].
  - destruct (Ascii.eqb c "/") eqn:E.
    + constructor; [reflexivity | assumption].
    + destruct (split_slash s) as [|seg rest].
      * constructor; [simpl; rewrite E; reflexivity | constructor].
      * inversion IH; subst.
        constructor; [|assumption]. simpl. rewrite E. simpl. assumption.
Qed.

Lemma join_cons (x : string) (l : list string) :
  l <> [] -> join_slash (x :: l) = x ++ String "/" (join_slash l).
Proof. destruct l; [contradiction | reflexivity]. Qed.

Lemma join_app (a b : list string) :
  a <> [] -> b <> [] ->
  join_slash (a ++ b) = join_slash a ++ String "/" (join_slash b).
Proof.
  induction a as [|x a IH]; intros Ha Hb; [contradiction|].
  destruct a as [|y a].
  - simpl app. rewrite join_cons by assumption. reflexivity.
  - change ((x :: y :: a) ++ b)%list with (x :: ((y :: a) ++ b))%list.
    rewrite join_cons by discriminate.
    rewrite IH by (discriminate || assumption).
    rewrite (join_cons x (y :: a)) by discriminate.
    simpl. rewrite append_assoc. reflexivity.
Qed.

Lemma split_join (l : list string) :
  l <> [] -> Forall (fun x => no_slash x = true) l ->
  split_slash (join_slash l) = l.
Proof.
  induction l as [|x l IH]; intros Hn Hl; [contradiction|].
  inversion Hl; subst.
  destruct l as [|y l].
  - simpl. apply split_no_slash; assumption.
  - rewrite join_cons by discriminate.
    rewrite split_app_slash, split_no_slash by assumption.
    rewrite IH by (discriminate || assumption). reflexivity.
Qed.

End SplitFacts.

Section NormalizeFacts.
Import Js Path.

Lemma clean_no_slash x : clean x = true -> no_slash x = true.
Proof. unfold clean; intros H; repeat (apply andb_true_iff in H as [H ?]); assumption. Qed.

Lemma clean_nonempty x : clean x = true -> String.eqb x "" = false.
Proof.
  unfold clean; intros H; repeat (apply andb_true_iff in H as [H ?]).
  apply negb_true_iff in H; assumption.
Qed.

Lemma step_clean b kept x :
  clean x = true -> normalize_step b kept x = x :: kept.
Proof.
  unfold clean, normalize_step; intros H.
  repeat (apply andb_true_iff in H as [H ?]).
  apply negb_true_iff in H. rewrite H.
  destruct (String.eqb x "."); [discriminate|].
  destruct (String.eqb x ".."); [discriminate|]. reflexivity.
Qed.

Lemma step_false_keeps_clean kept x :
  Forall (fun y => clean y = true) kept -> no_slash x = true ->
  Forall (fun y => clean y = true) (normalize_step false kept x).
Proof.
  intros Hk Hx. unfold normalize_step.
  destruct (String.eqb x "") eqn:E1; [assumption|].
  destruct (String.eqb x ".") eqn:E2; [assumption|].
  destruct (String.eqb x "..") eqn:E3.
  - destruct kept; simpl; [constructor | inversion Hk; assumption].
  - constructor; [|assumption]. unfold clean. rewrite E1, E2, E3, Hx. reflexivity.
Qed.

Lemma fold_false_keeps_clean pieces kept :
  Forall (fun y => clean y = true) kept ->
  Forall (fun x => no_slash x = true) pieces ->
  Forall (fun y => clean y = true) (fold_left (normalize_step false) pieces kept).
Proof.
  revert kept; induction pieces as [|x pieces IH]; intros kept Hk Hp; simpl.
  - assumption.
  - inversion Hp; subst. apply IH; [|assumption].
    apply step_false_keeps_clean; assumption.
Qed.

Lemma fold_clean_pieces b pieces kept :
  Forall (fun y => clean y = true) pieces ->
  fold_left (normalize_step b) pieces kept = (rev pieces ++ kept)%list.
Proof.
  revert kept; induction pieces as [|x pieces IH]; intros kept Hp; simpl.
  - reflexivity.
  - inversion Hp; subst. rewrite step_clean by assumption.
    rewrite IH by assumption. rewrite <- app_assoc. reflexivity.
Qed.

Lemma fold_skip_empty b pieces kept :
  fold_left (normalize_step b) (pieces ++ [""]) kept
  = fold_left (normalize_step b) pieces kept.
Proof. rewrite fold_left_app. reflexivity. Qed.

Lemma resolve_pieces_clean cwd p :
  Forall (fun y => clean y = true) (resolve_pieces cwd p).
Proof.
  unfold resolve_pieces. apply fold_false_keeps_clean; [constructor|].
  destruct (isAbsolute p).
  - apply split_pieces_no_slash.
  - apply Forall_app; split; apply split_pieces_no_slash.
Qed.

Lemma isAbsolute_nonempty p : isAbsolute p = true -> String.eqb p "" = false.
Proof. destruct p; [discriminate | reflexivity]. Qed.

Lemma resolve_abs_form cwd p :
  isAbsolute cwd = true ->
  resolve cwd p = abs_path (rev (resolve_pieces cwd p)).
Proof.
  intros Hcwd. unfold resolve, resolve_pieces, abs_path, normalizeString, normalize_pieces.
  rewrite (isAbsolute_nonempty _ Hcwd).
  destruct (String.eqb p "") eqn:Ep.
  - apply String.eqb_eq in Ep; subst p. simpl isAbsolute. cbv iota beta.
    rewrite Hcwd. simpl negb.
    change (cwd ++ "/" ++ "") with (cwd ++ String "/" "").
    rewrite split_app_slash. simpl split_slash. reflexivity.
  - destruct (isAbsolute p) eqn:Ha.
    + simpl negb.
      change (p ++ "/" ++ "") with (p ++ String "/" "").
      rewrite split_app_slash. simpl split_slash.
      rewrite fold_skip_empty. reflexivity.
    + rewrite Hcwd. simpl negb.
      change (cwd ++ "/" ++ p ++ "/" ++ "") with (cwd ++ String "/" (p ++ String "/" "")).
      rewrite !split_app_slash. simpl split_slash.
      rewrite app_assoc, fold_skip_empty. reflexivity.
Qed.

Lemma resolve_not_empty cwd p : resolve cwd p <> "".
Proof.
  unfold resolve.
  match goal with
  | |- (let '(_, _) := ?E in _) <> _ => destruct E as [rp ra]
  end.
  destruct ra; [discriminate|]. simpl negb.
  destruct (String.eqb _ "") eqn:E; [discriminate|].
  intros H; rewrite H in E; discriminate.
Qed.

Lemma split_abs_path pieces :
  pieces <> [] -> Forall (fun y => clean y = true) pieces ->
  split_slash (abs_path pieces) = "" :: pieces.
Proof.
  intros Hn Hc. unfold abs_path. simpl. f_equal.
  apply split_join; [assumption|].
  eapply Forall_impl; [|exact Hc]. apply clean_no_slash.
Qed.

Lemma filter_clean pieces :
  Forall (fun y => clean y = true) pieces ->
  filter (fun x => negb (String.eqb x "")) pieces = pieces.
Proof.
  induction 1 as [|x l Hx Hl IH]; simpl; [reflexivity|].
  rewrite (clean_nonempty _ Hx). simpl. congruence.
Qed.

Lemma path_segments_abs_path pieces :
  Forall (fun y => clean y = true) pieces ->
  path_segments (abs_path pieces) = pieces.
Proof.
  intros Hc. unfold path_segments. destruct pieces as [|x l].
  - reflexivity.
  - rewrite split_abs_path by (discriminate || assumption).
    change (filter (fun x0 => negb (String.eqb x0 "")) ("" :: x :: l))
      with (filter (fun x0 => negb (String.eqb x0 "")) (x :: l)).
    apply filter_clean; assumption.
Qed.

Lemma abs_path_inj a b :
  Forall (fun y => clean y = true) a -> Forall (fun y => clean y = true) b ->
  abs_path a = abs_path b -> a = b.
Proof.
  intros Ha Hb H.
  rewrite <- (path_segments_abs_path a Ha), <- (path_segments_abs_path b Hb), H.
  reflexivity.
Qed.

Lemma resolve_pieces_abs_path cwd pieces :
  Forall (fun y => clean y = true) pieces ->
  resolve_pieces cwd (abs_path pieces) = rev pieces.
Proof.
  intros Hc. unfold resolve_pieces. simpl isAbsolute. cbv iota.
  destruct pieces as [|x l].
  - reflexivity.
  - rewrite split_abs_path by (discriminate || assumption).
    change (fold_left (normalize_step false) ("" :: x :: l) [])
      with (fold_left (normalize_step false) (x :: l) []).
    rewrite fold_clean_pieces by assumption.
    rewrite app_nil_r. reflexivity.
Qed.

Lemma resolve_abs_path cwd pieces :
  isAbsolute cwd = true ->
  Forall (fun y => clean y = true) pieces ->
  resolve cwd (abs_path pieces) = abs_path pieces.
Proof.
  intros Hcwd Hc. rewrite resolve_abs_form by assumption.
  rewrite resolve_pieces_abs_path by assumption.
  rewrite rev_involutive. reflexivity.
Qed.

End NormalizeFacts.

Section JoinFacts.
Import Js Path.

Lemma chars_append (a b : string) :
  list_ascii_of_string (a ++ b)
  = (list_ascii_of_string a ++ list_ascii_of_string b)%list.
Proof. induction a; simpl; congruence. Qed.

Lemma no_slash_chars x :
  no_slash x = true -> Forall (fun c => Ascii.eqb c "/" = false) (list_ascii_of_string x).
Proof.
  induction x as [|c x IH]; simpl; intros H; [constructor|].
  apply andb_true_iff in H as [Hc Hx]. apply negb_true_iff in Hc.
  constructor; auto.
Qed.

Lemma last_char_no_slash a x :
  no_slash x = true -> String.eqb x "" = false ->
  last_char_is_slash (a ++ x) = false.
Proof.
  intros Hx Hne. unfold last_char_is_slash, rev_chars.
  rewrite chars_append, rev_app_distr.
  pose proof (no_slash_chars _ Hx) as Hall.
  destruct x as [|c x]; [discriminate|].
  apply Forall_rev in Hall.
  destruct (rev (list_ascii_of_string (String c x))) as [|d l] eqn:E.
  - apply (f_equal (@List.length ascii)) in E. rewrite length_rev in E. discriminate.
  - simpl. inversion Hall; assumption.
Qed.

Lemma no_slash_not_absolute x :
  no_slash x = true -> isAbsolute x = false.
Proof.
  destruct x as [|c x]; simpl; [reflexivity|].
  intros H; apply andb_true_iff in H as [Hc _]. apply negb_true_iff in Hc. assumption.
Qed.

Lemma join_slash_snoc_not_empty l x :
  String.eqb x "" = false -> String.eqb (join_slash (l ++ [x])) "" = false.
Proof.
  intros Hx. destruct l as [|y l].
  - simpl. assumption.
  - change ((y :: l) ++ [x])%list with (y :: (l ++ [x]))%list.
    rewrite join_cons by (destruct l; discriminate).
    destruct y; reflexivity.
Qed.

Lemma step_true_keeps_rel kept x :
  Forall (fun y => rel_piece y = true) kept -> no_slash x = true ->
  Forall (fun y => rel_piece y = true) (normalize_step true kept x).
Proof.
  intros Hk Hx. unfold normalize_step.
  destruct (String.eqb x "") eqn:E1; [assumption|].
  destruct (String.eqb x ".") eqn:E2; [assumption|].
  destruct (String.eqb x "..") eqn:E3.
  - apply String.eqb_eq in E3; subst x.
    destruct kept as [|top below]; simpl.
    + constructor; [reflexivity | constructor].
    + destruct (String.eqb top "..").
      * constructor; [reflexivity | assumption].
      * inversion Hk; assumption.
  - constructor; [|assumption]. unfold rel_piece. rewrite E1, E2, Hx. reflexivity.
Qed.

Lemma fold_true_keeps_rel pieces kept :
  Forall (fun y => rel_piece y = true) kept ->
  Forall (fun x => no_slash x = true) pieces ->
  Forall (fun y => rel_piece y = true) (fold_left (normalize_step true) pieces kept).
Proof.
  revert kept; induction pieces as [|x pieces IH]; intros kept Hk Hp; simpl.
  - assumption.
  - inversion Hp; subst. apply IH; [|assumption].
    apply step_true_keeps_rel; assumption.
Qed.

(** Normalising a relative path does not change where it leads from any
    directory. *)
Lemma relative_normal_form_action pieces stack :
  Forall (fun x => no_slash x = true) pieces ->
  fold_left (normalize_step false)
    (rev (fold_left (normalize_step true) pieces [])) stack
  = fold_left (normalize_step false) pieces stack.
Proof.
  induction pieces as [|x pieces IH] using rev_ind; intros Hp; [reflexivity|].
  apply Forall_app in Hp as [Hp Hx]. inversion Hx as [|? ? Hx' _]; subst.
  specialize (IH Hp).
  pose proof (fold_true_keeps_rel pieces [] (Forall_nil _) Hp) as Hrel.
  rewrite !fold_left_app. simpl fold_left.
  set (K := fold_left (normalize_step true) pieces []) in *.
  rewrite <- IH.
  unfold normalize_step at 2.
  destruct (String.eqb x "") eqn:E1.
  { unfold normalize_step. rewrite E1. reflexivity. }
  destruct (String.eqb x ".") eqn:E2.
  { unfold normalize_step. rewrite E1, E2. reflexivity. }
  destruct (String.eqb x "..") eqn:E3.
  - apply String.eqb_eq in E3; subst x.
    destruct K as [|top below] eqn:EK.
    + reflexivity.
    + simpl andb. destruct (String.eqb top "..") eqn:Et.
      * simpl rev. rewrite fold_left_app. reflexivity.
      * simpl rev. rewrite fold_left_app. simpl fold_left.
        inversion Hrel as [|? ? Htop _]; subst.
        unfold rel_piece in Htop.
        apply andb_true_iff in Htop as [Htop Hns].
        apply andb_true_iff in Htop as [Hne Hnd].
        apply negb_true_iff in Hne, Hnd.
        set (S0 := fold_left (normalize_step false) (rev below) stack).
        unfold normalize_step. rewrite Hne, Hnd, Et. reflexivity.
  - simpl rev. rewrite fold_left_app. simpl fold_left.
    unfold normalize_step at 1 3. rewrite E1, E2, E3. reflexivity.
Qed.

Lemma rel_piece_no_slash y : rel_piece y = true -> no_slash y = true.
Proof. unfold rel_piece; intros H; apply andb_true_iff in H as [_ H]; assumption. Qed.

Lemma join_slash_rel_not_absolute l :
  Forall (fun y => rel_piece y = true) l -> isAbsolute (join_slash l) = false.
Proof.
  destruct l as [|y l]; intros H; [reflexivity|].
  inversion H as [|? ? Hy Hl]; subst.
  pose proof (rel_piece_no_slash _ Hy) as Hns.
  unfold rel_piece in Hy. apply andb_true_iff in Hy as [Hy _].
  apply andb_true_iff in Hy as [Hy _]. apply negb_true_iff in Hy.
  destruct l as [|z l].
  - simpl. apply no_slash_not_absolute; assumption.
  - rewrite join_cons by discriminate.
    destruct y as [|c y]; [discriminate|]. simpl.
    simpl in Hns. apply andb_true_iff in Hns as [Hc _].
    apply negb_true_iff in Hc; assumption.
Qed.

Lemma clean_rel_piece x : clean x = true -> rel_piece x = true.
Proof.
  unfold clean, rel_piece. intros H.
  repeat (apply andb_true_iff in H as [H ?]).
  rewrite H, H2, H0. reflexivity.
Qed.

(** [path.resolve(path.join(home, name))] is the child [name] of
    [path.resolve(home)]. *)
Lemma resolve_join_child cwd home name :
  isAbsolute cwd = true -> clean name = true ->
  resolve cwd (join home name)
  = abs_path (rev (resolve_pieces cwd home) ++ [name]).
Proof.
  intros Hcwd Hname.
  pose proof (clean_no_slash _ Hname) as Hns.
  pose proof (clean_nonempty _ Hname) as Hne.
  unfold join. rewrite Hne.
  destruct (String.eqb home "") eqn:Eh.
  - (* [home] is empty: [join] returns [normalize(name)] *)
    apply String.eqb_eq in Eh; subst home.
    assert (Hnorm : normalize name = name).
    { unfold normalize. rewrite Hne.
      rewrite (no_slash_not_absolute _ Hns). simpl negb.
      unfold normalizeString, normalize_pieces.
      rewrite (split_no_slash _ Hns). simpl fold_left.
      rewrite step_clean by assumption. simpl rev.
      change (join_slash [name]) with name.
      rewrite Hne.
      pose proof (last_char_no_slash "" name Hns Hne) as Hl.
      simpl append in Hl. rewrite Hl. reflexivity. }
    rewrite Hnorm, resolve_abs_form by assumption.
    unfold resolve_pieces. rewrite (no_slash_not_absolute _ Hns).
    simpl isAbsolute. cbv iota.
    rewrite (split_no_slash _ Hns), !fold_left_app. simpl fold_left.
    rewrite step_clean by assumption. reflexivity.
  - set (j := home ++ "/" ++ name).
    assert (Habs : isAbsolute j = isAbsolute home).
    { unfold j. destruct home; [discriminate | reflexivity]. }
    assert (Hsplit : split_slash j = (split_slash home ++ [name])%list).
    { unfold j. change (home ++ "/" ++ name) with (home ++ String "/" name).
      rewrite split_app_slash, (split_no_slash _ Hns). reflexivity. }
    assert (Hj : String.eqb j "" = false).
    { unfold j. destruct home; [discriminate | reflexivity]. }
    assert (Htrail : last_char_is_slash j = false).
    { unfold j. change (home ++ "/" ++ name) with (home ++ (String "/" "" ++ name)).
      rewrite <- append_assoc. apply last_char_no_slash; assumption. }
    unfold normalize. rewrite Hj, Htrail, Habs.
    unfold normalizeString, normalize_pieces. rewrite Hsplit, fold_left_app.
    simpl fold_left. rewrite step_clean by assumption.
    simpl rev. rewrite join_slash_snoc_not_empty by assumption.
    destruct (isAbsolute home) eqn:Eabs; simpl negb.
    + (* absolute home *)
      set (K := fold_left (normalize_step false) (split_slash home) []).
      assert (HK : Forall (fun y => clean y = true) K).
      { apply fold_false_keeps_clean; [constructor | apply split_pieces_no_slash]. }
      change ("/" ++ join_slash (rev K ++ [name])) with (abs_path (rev K ++ [name])).
      rewrite resolve_abs_path; [| assumption |].
      * unfold resolve_pieces. rewrite Eabs. reflexivity.
      * apply Forall_app; split; [apply Forall_rev; assumption|].
        constructor; [assumption | constructor].
    + (* relative home *)
      set (K := fold_left (normalize_step true) (split_slash home) []).
      assert (HK : Forall (fun y => rel_piece y = true) K).
      { apply fold_true_keeps_rel; [constructor | apply split_pieces_no_slash]. }
      assert (HKn : Forall (fun y => rel_piece y = true) (rev K ++ [name])).
      { apply Forall_app; split; [apply Forall_rev; assumption|].
        constructor; [apply clean_rel_piece; assumption | constructor]. }
      rewrite resolve_abs_form by assumption.
      unfold resolve_pieces at 1.
      rewrite (join_slash_rel_not_absolute _ HKn).
      rewrite split_join;
        [| destruct (rev K); discriminate
         | eapply Forall_impl; [|exact HKn]; apply rel_piece_no_slash ].
      rewrite !fold_left_app. simpl fold_left.
      rewrite step_clean by assumption.
      unfold K. rewrite relative_normal_form_action by apply split_pieces_no_slash.
      unfold resolve_pieces. rewrite Eabs, fold_left_app. reflexivity.
Qed.

End JoinFacts.

(** ** Path ancestry and the protected directories *)

Lemma is_strict_prefix_inv a d :
  is_strict_prefix a d = true -> exists y rest, d = (a ++ y :: rest)%list.
Proof.
  revert d; induction a as [|x a IH]; intros [|y d] H; simpl in H; try discriminate.
  - exists y, d; reflexivity.
  - apply andb_true_iff in H as [Hxy H]. apply String.eqb_eq in Hxy; subst y.
    destruct (IH _ H) as (z & rest & ->). exists z, rest; reflexivity.
Qed.

Lemma is_strict_prefix_nil_r a : is_strict_prefix a [] = false.
Proof. destruct a; reflexivity. Qed.

Lemma abs_path_descendant a y rest :
  Forall (fun x => clean x = true) (a ++ y :: rest) ->
  Js.startsWith (abs_path (a ++ y :: rest)) (abs_path a) = true
  /\ abs_path (a ++ y :: rest) <> abs_path a.
Proof.
  intros Hc. split.
  - unfold Js.startsWith, abs_path. destruct a as [|x a].
    + simpl. destruct (Js.join_slash (y :: rest)); reflexivity.
    + rewrite join_app by discriminate.
      apply (prefix_append (String "/" (Js.join_slash (x :: a)))).
  - intros E. apply abs_path_inj in E; [| assumption |].
    + apply (f_equal (@List.length string)) in E.
      rewrite length_app in E. simpl in E. lia.
    + apply Forall_app in Hc as [Ha _]; assumption.
Qed.

Section Gate.
Import SafeDelete.
Variable cwd : string.
Variable homedir : string.
Hypothesis cwd_absolute : Path.isAbsolute cwd = true.

Abbreviation home_r := (Path.resolve cwd homedir).
Abbreviation home_pieces := (rev (resolve_pieces cwd homedir)).

Lemma home_pieces_clean : Forall (fun x => clean x = true) home_pieces.
Proof. apply Forall_rev, resolve_pieces_clean. Qed.

Lemma home_r_form : home_r = abs_path home_pieces.
Proof. apply resolve_abs_form; assumption. Qed.

Lemma resolve_form p :
  exists pieces, Forall (fun x => clean x = true) pieces
                 /\ Path.resolve cwd p = abs_path pieces.
Proof.
  exists (rev (resolve_pieces cwd p)). split.
  - apply Forall_rev, resolve_pieces_clean.
  - apply resolve_abs_form; assumption.
Qed.

Lemma protected_names_clean : Forall (fun x => clean x = true) protected_names.
Proof. repeat constructor. Qed.

Lemma protected_directories_form :
  protected_directories cwd homedir
  = map (fun name => abs_path (home_pieces ++ [name])) protected_names.
Proof.
  unfold protected_directories. apply map_ext_in. intros name Hin.
  apply resolve_join_child; [assumption|].
  eapply Forall_forall in Hin; [exact Hin | apply protected_names_clean].
Qed.

Lemma protected_directory_not_home prot :
  In prot (protected_directories cwd homedir) -> String.eqb prot home_r = false.
Proof.
  rewrite protected_directories_form. intros Hin.
  apply in_map_iff in Hin as (name & <- & Hname).
  apply String.eqb_neq. rewrite home_r_form.
  apply abs_path_descendant.
  apply Forall_app; split; [apply home_pieces_clean|].
  constructor; [|constructor].
  eapply Forall_forall in Hname; [exact Hname | apply protected_names_clean].
Qed.

Lemma protected_directory_below_home prot :
  In prot (protected_directories cwd homedir) ->
  Js.startsWith prot home_r = true /\ prot <> "/".
Proof.
  rewrite protected_directories_form. intros Hin.
  apply in_map_iff in Hin as (name & <- & Hname).
  assert (Hc : Forall (fun x => clean x = true) (home_pieces ++ [name])).
  { apply Forall_app; split; [apply home_pieces_clean|].
    constructor; [|constructor].
    eapply Forall_forall in Hname; [exact Hname | apply protected_names_clean]. }
  split.
  - rewrite home_r_form. apply abs_path_descendant; assumption.
  - change "/" with (abs_path []). intros E.
    apply abs_path_inj in E; [| assumption | constructor].
    destruct home_pieces; discriminate.
Qed.

Lemma filter_all {A} (f : A -> bool) l :
  (forall x, In x l -> f x = true) -> filter f l = l.
Proof.
  induction l as [|x l IH]; intros H; simpl; [reflexivity|].
  rewrite (H x (or_introl eq_refl)). f_equal. apply IH. intros; apply H; right; assumption.
Qed.

(** After the home directory is filtered out, the protected paths are
    the five directories under home. *)
Lemma protected_paths_filtered :
  filter (fun p => negb (String.eqb p home_r)) (getProtectedPaths cwd homedir)
  = protected_directories cwd homedir.
Proof.
  unfold getProtectedPaths. cbv zeta.
  change (map (fun p => Path.resolve cwd p) _)
    with (home_r :: protected_directories cwd homedir).
  pose proof protected_directory_not_home as Hne.
  generalize dependent (protected_directories cwd homedir). intros P Hne.
  simpl filter. rewrite String.eqb_refl. simpl negb. cbv iota.
  apply filter_all. intros x Hx.
  rewrite (Hne x Hx). reflexivity.
Qed.

(** The gate, with the list of protected paths worked out. *)
Lemma validate_unfold dirPath :
  validatePathForDeletion cwd homedir dirPath
  = if String.eqb dirPath "" || String.eqb dirPath "/" then inl (Error MSG_INVALID)
    else if negb (Js.startsWith (Path.resolve cwd dirPath) home_r)
            || String.eqb (Path.resolve cwd dirPath) home_r
         then inl (Error MSG_OUTSIDE_HOME)
         else if existsb (fun p => String.eqb (Path.resolve cwd dirPath) p)
                   (protected_directories cwd homedir)
              then inl (Error (MSG_PROTECTED ++ dirPath))
              else inr tt.
Proof.
  unfold validatePathForDeletion. cbv zeta. fold home_r.
  rewrite protected_paths_filtered.
  destruct (String.eqb dirPath ""), (String.eqb dirPath "/"); reflexivity.
Qed.

Lemma under_home_passes_prefix p :
  strictly_under home_r (Path.resolve cwd p) = true ->
  Js.startsWith (Path.resolve cwd p) home_r = true /\ Path.resolve cwd p <> home_r.
Proof.
  unfold strictly_under. intros H.
  apply andb_true_iff in H as [_ H].
  destruct (resolve_form p) as (pieces & Hc & Hp).
  rewrite Hp in *. rewrite home_r_form in *.
  rewrite !path_segments_abs_path in H by (assumption || apply home_pieces_clean).
  apply is_strict_prefix_inv in H as (y & rest & ->).
  apply abs_path_descendant; assumption.
Qed.

Lemma under_protected_not_protected p prot :
  In prot (protected_directories cwd homedir) ->
  strictly_under prot (Path.resolve cwd p) = true ->
  strictly_under home_r (Path.resolve cwd p) = true
  /\ ~ In (Path.resolve cwd p) (protected_directories cwd homedir).
Proof.
  rewrite protected_directories_form. intros Hin H.
  apply in_map_iff in Hin as (name & <- & Hname).
  assert (Hcn : clean name = true).
  { eapply Forall_forall in Hname; [exact Hname | apply protected_names_clean]. }
  assert (Hcp : Forall (fun x => clean x = true) (home_pieces ++ [name])).
  { apply Forall_app; split; [apply home_pieces_clean | repeat constructor; assumption]. }
  unfold strictly_under in H.
  apply andb_true_iff in H as [_ H].
  destruct (resolve_form p) as (pieces & Hc & Hp).
  rewrite Hp in *.
  rewrite !path_segments_abs_path in H by assumption.
  apply is_strict_prefix_inv in H as (y & rest & ->).
  split.
  - unfold strictly_under. rewrite home_r_form.
    rewrite !path_segments_abs_path by (assumption || apply home_pieces_clean).
    simpl. rewrite <- app_assoc. simpl.
    clear. induction home_pieces as [|x l IH]; simpl; [reflexivity|].
    rewrite String.eqb_refl; assumption.
  - intros Hin. apply in_map_iff in Hin as (name' & E & Hname').
    apply abs_path_inj in E; [| | assumption].
    + apply (f_equal (@List.length string)) in E.
      rewrite !length_app in E. simpl in E. lia.
    + apply Forall_app; split; [apply home_pieces_clean|].
      constructor; [|constructor].
      eapply Forall_forall in Hname'; [exact Hname' | apply protected_names_clean].
Qed.

End Gate.

(** ** The deletion safety gate *)

Import SafeDelete.

Lemma thrown_message_inj {A} (a b : string) :
  @inl JsError A (Error a) = inl (Error b) -> a = b.
Proof. intros H; inversion H; reflexivity. Qed.

Lemma protected_message_distinct p :
  MSG_OUTSIDE_HOME <> MSG_PROTECTED ++ p /\ MSG_INVALID <> MSG_PROTECTED ++ p.
Proof. split; unfold MSG_OUTSIDE_HOME, MSG_INVALID, MSG_PROTECTED; simpl; discriminate. Qed.

(** The string-prefix test of the gate also lets through a sibling of the
    home directory whose name extends the name of home. *)
Example gate_accepts_sibling_of_home :
  validatePathForDeletion "/home/testuser" "/home/testuser" "/home/testuser2/x" = inr tt
  /\ strictly_under (Path.resolve "/home/testuser" "/home/testuser")
                    (Path.resolve "/home/testuser" "/home/testuser2/x") = false.
Proof. split; reflexivity. Qed.

(** C1, as stated, fails: the path ["/"] is not a strict descendant of the
    home directory, and the gate fails on it with the invalid-path kind,
    not the outside-home kind. *)
Lemma outside_home_claim_fails_on_root :
  ~ (forall p : string,
        strictly_under (Path.resolve "/home/testuser" "/home/testuser")
                       (Path.resolve "/home/testuser" p) = false ->
        validatePathForDeletion "/home/testuser" "/home/testuser" p
        = inl (Error MSG_OUTSIDE_HOME)).
Proof. intros H. specialize (H "/" eq_refl). discriminate H. Qed.

(** C1 (amended).  For every path [p]: when [p] is neither empty nor the
    literal ["/"], the gate fails with the outside-home kind whenever the
    resolved form of [p] is the home directory itself or does not begin
    with the path of the home directory; the gate never fails with that
    kind when the resolved form of [p] is a strict descendant of home; and
    the empty path and ["/"] fail with the invalid-path kind instead. *)
Theorem outside_home_gate (cwd homedir p : string) :
  Path.isAbsolute cwd = true ->
  (p <> "" -> p <> "/" ->
   Path.resolve cwd p = Path.resolve cwd homedir
   \/ Js.startsWith (Path.resolve cwd p) (Path.resolve cwd homedir) = false ->
   validatePathForDeletion cwd homedir p = inl (Error MSG_OUTSIDE_HOME))
  /\ (strictly_under (Path.resolve cwd homedir) (Path.resolve cwd p) = true ->
      validatePathForDeletion cwd homedir p <> inl (Error MSG_OUTSIDE_HOME))
  /\ (p = "" \/ p = "/" ->
      validatePathForDeletion cwd homedir p = inl (Error MSG_INVALID)).
Proof.
  intros Hcwd. rewrite (validate_unfold cwd homedir Hcwd). repeat split.
  - intros H1 H2 H.
    apply String.eqb_neq in H1, H2. rewrite H1, H2. simpl orb.
    destruct H as [H | H].
    + rewrite H, String.eqb_refl, orb_true_r. reflexivity.
    + rewrite H. reflexivity.
  - intros H. apply (under_home_passes_prefix cwd homedir Hcwd) in H as [Hpre Hne].
    apply String.eqb_neq in Hne. rewrite Hpre, Hne.
    destruct (String.eqb p "" || String.eqb p "/"); [discriminate|].
    simpl negb. simpl orb. cbv iota.
    destruct (existsb _ (protected_directories cwd homedir)); discriminate.
  - intros [-> | ->]; reflexivity.
Qed.

Lemma outside_home_gate_witness :
  validatePathForDeletion "/home/testuser/work" "/home/testuser" "/etc/foo"
    = inl (Error MSG_OUTSIDE_HOME)
  /\ validatePathForDeletion "/home/testuser/work" "/home/testuser" "/home/testuser"
    = inl (Error MSG_OUTSIDE_HOME)
  /\ validatePathForDeletion "/home/testuser/work" "/home/testuser"
       "/home/testuser/projects/app/node_modules" <> inl (Error MSG_OUTSIDE_HOME).
Proof.
  split; [|split].
  - apply (proj1 (outside_home_gate "/home/testuser/work" "/home/testuser" "/etc/foo"
                    eq_refl)); [discriminate | discriminate | right; reflexivity].
  - apply (proj1 (outside_home_gate "/home/testuser/work" "/home/testuser"
                    "/home/testuser" eq_refl));
      [discriminate | discriminate | left; reflexivity].
  - apply (proj1 (proj2 (outside_home_gate "/home/testuser/work" "/home/testuser"
                           "/home/testuser/projects/app/node_modules" eq_refl))).
    reflexivity.
Defined.

(** C3, as stated, fails: run from [~/Desktop], the empty path resolves to
    the protected directory [~/Desktop], and the gate fails on it with the
    invalid-path kind, not the protected-directory kind. *)
Lemma protected_claim_fails_on_empty_path :
  ~ (forall p : string,
        validatePathForDeletion "/home/testuser/Desktop" "/home/testuser" p
        = inl (Error (MSG_PROTECTED ++ p))
        <-> In (Path.resolve "/home/testuser/Desktop" p)
               (protected_directories "/home/testuser/Desktop" "/home/testuser")).
Proof.
  intros H. destruct (H "") as [_ H2].
  assert (Hin : In (Path.resolve "/home/testuser/Desktop" "")
                   (protected_directories "/home/testuser/Desktop" "/home/testuser")).
  { left. reflexivity. }
  specialize (H2 Hin). discriminate H2.
Qed.

(** C3 (amended).  For every non-empty path [p], the gate fails with the
    protected-directory kind exactly when the resolved form of [p] is one
    of the five protected directories directly under home (Desktop,
    Documents, Downloads, .ssh, Library); and when the resolved form of
    [p] is a strict descendant of one of them, the gate passes. *)
Theorem protected_directory_gate (cwd homedir p : string) :
  Path.isAbsolute cwd = true ->
  p <> "" ->
  (validatePathForDeletion cwd homedir p = inl (Error (MSG_PROTECTED ++ p))
   <-> In (Path.resolve cwd p) (protected_directories cwd homedir))
  /\ (forall prot,
         In prot (protected_directories cwd homedir) ->
         strictly_under prot (Path.resolve cwd p) = true ->
         validatePathForDeletion cwd homedir p = inr tt).
Proof.
  intros Hcwd Hp. rewrite (validate_unfold cwd homedir Hcwd).
  apply String.eqb_neq in Hp. rewrite Hp. simpl orb.
  split.
  - split.
    + destruct (String.eqb p "/"); [discriminate|].
      destruct (_ || _);
        [intros H; apply thrown_message_inj in H; exfalso; revert H;
         apply protected_message_distinct|].
      destruct (existsb _ _) eqn:Ex; [|discriminate].
      intros _. apply existsb_exists in Ex as (x & Hin & E).
      apply String.eqb_eq in E. rewrite E. assumption.
    + intros Hin.
      destruct (protected_directory_below_home cwd homedir Hcwd _ Hin) as [Hpre Hnr].
      destruct (String.eqb p "/") eqn:Er.
      { apply String.eqb_eq in Er; subst p. exfalso; apply Hnr; reflexivity. }
      rewrite (protected_directory_not_home cwd homedir Hcwd _ Hin), Hpre.
      simpl negb. simpl orb. cbv iota.
      assert (Ex : existsb (fun q => String.eqb (Path.resolve cwd p) q)
                     (protected_directories cwd homedir) = true).
      { apply existsb_exists. eexists; split; [exact Hin | apply String.eqb_refl]. }
      rewrite Ex. reflexivity.
  - intros prot Hin Hunder.
    destruct (String.eqb p "/") eqn:Er.
    { apply String.eqb_eq in Er; subst p. exfalso.
      unfold strictly_under in Hunder.
      change (path_segments (Path.resolve cwd "/")) with (@nil string) in Hunder.
      rewrite is_strict_prefix_nil_r, andb_false_r in Hunder. discriminate. }
    destruct (under_protected_not_protected cwd homedir Hcwd p prot Hin Hunder)
      as [Hhome Hnot].
    apply (under_home_passes_prefix cwd homedir Hcwd) in Hhome as [Hpre Hne].
    apply String.eqb_neq in Hne. rewrite Hpre, Hne.
    simpl negb. simpl orb. cbv iota.
    destruct (existsb _ _) eqn:Ex; [|reflexivity].
    exfalso. apply Hnot. apply existsb_exists in Ex as (x & Hx & E).
    apply String.eqb_eq in E. rewrite E. assumption.
Qed.

Lemma protected_directory_gate_witness :
  (validatePathForDeletion "/home/testuser/work" "/home/testuser" "/home/testuser/Desktop/"
   = inl (Error (MSG_PROTECTED ++ "/home/testuser/Desktop/")))
  /\ validatePathForDeletion "/home/testuser/work" "/home/testuser"
       "/home/testuser/Desktop/work/proj/node_modules" = inr tt.
Proof.
  split.
  - apply (proj1 (protected_directory_gate "/home/testuser/work" "/home/testuser"
                    "/home/testuser/Desktop/" eq_refl ltac:(discriminate))).
    left. reflexivity.
  - apply (proj2 (protected_directory_gate "/home/testuser/work" "/home/testuser"
                    "/home/testuser/Desktop/work/proj/node_modules"
                    eq_refl ltac:(discriminate))
             "/home/testuser/Desktop").
    + left. reflexivity.
    + reflexivity.
Defined.

(** C4, as stated, fails: the path ["//"] resolves to the filesystem root
    and the gate fails on it with the outside-home kind, not the
    invalid-path kind. *)
Lemma invalid_path_claim_fails_on_double_slash :
  ~ (forall p : string,
        p = "" \/ Path.resolve "/home/testuser" p = "/" ->
        validatePathForDeletion "/home/testuser" "/home/testuser" p
        = inl (Error MSG_INVALID)).
Proof. intros H. specialize (H "//" (or_intror eq_refl)). discriminate H. Qed.

(** C4 (amended).  The gate fails with the invalid-path kind exactly on
    the empty path and on the literal path ["/"]; every other path whose
    resolved form is the filesystem root (["//"], ["/.."], ...) fails with
    the outside-home kind. *)
Theorem invalid_path_gate (cwd homedir p : string) :
  (validatePathForDeletion cwd homedir p = inl (Error MSG_INVALID)
   <-> p = "" \/ p = "/")
  /\ (p <> "" -> p <> "/" -> Path.resolve cwd p = "/" ->
      validatePathForDeletion cwd homedir p = inl (Error MSG_OUTSIDE_HOME)).
Proof.
  unfold validatePathForDeletion. split; [split|].
  - destruct (String.eqb p "") eqn:E1; [apply String.eqb_eq in E1; auto|].
    destruct (String.eqb p "/") eqn:E2; [apply String.eqb_eq in E2; auto|].
    simpl orb. cbv zeta.
    destruct (_ || _); [discriminate|].
    destruct (existsb _ _); [|discriminate].
    intros H. apply thrown_message_inj in H. symmetry in H. exfalso; revert H.
    apply protected_message_distinct.
  - intros [-> | ->]; reflexivity.
  - intros H1 H2 Hr. apply String.eqb_neq in H1, H2. rewrite H1, H2. simpl orb.
    cbv zeta. rewrite Hr.
    destruct (Js.startsWith "/" (Path.resolve cwd homedir)) eqn:Hpre; [|reflexivity].
    unfold Js.startsWith in Hpre. apply prefix_inv in Hpre as [b Hb].
    pose proof (resolve_not_empty cwd homedir) as Hne.
    destruct (Path.resolve cwd homedir) as [|c [|d r]]; [contradiction | | discriminate].
    simpl in Hb. injection Hb as <- _. reflexivity.
Qed.

Lemma invalid_path_gate_witness :
  validatePathForDeletion "/home/testuser/work" "/home/testuser" "/"
    = inl (Error MSG_INVALID)
  /\ validatePathForDeletion "/home/testuser/work" "/home/testuser" "/.."
    = inl (Error MSG_OUTSIDE_HOME).
Proof.
  split.
  - apply (proj1 (invalid_path_gate "/home/testuser/work" "/home/testuser" "/")).
    right; reflexivity.
  - apply (proj2 (invalid_path_gate "/home/testuser/work" "/home/testuser" "/.."));
      [discriminate | discriminate | reflexivity].
Defined.

(** ** The deduplicated list *)

Section MapFacts.
Context {V : Type}.
Import JsMap.

Lemma has_In (m : JsMap.t V) k : has m k = true <-> In k (keys m).
Proof.
  induction m as [|[k' v'] m IH]; simpl.
  - split; [discriminate | contradiction].
  - destruct (String.eqb k' k) eqn:E.
    + apply String.eqb_eq in E. split; auto.
    + apply String.eqb_neq in E. rewrite IH. split; [auto | intros [H|H]; [contradiction | assumption]].
Qed.

Lemma set_absent (m : JsMap.t V) k v :
  has m k = false -> set m k v = (m ++ [(k, v)])%list.
Proof.
  induction m as [|[k' v'] m IH]; simpl; [reflexivity|].
  destruct (String.eqb k' k); [discriminate|].
  intros H. rewrite (IH H). reflexivity.
Qed.
End MapFacts.

Import Cleaner.

Lemma fold_selections selections m :
  fold_left dedupe_selection selections m
  = fold_left dedupe_item (all_items selections) m.
Proof.
  revert m; induction selections as [|sel sels IH]; intros m; simpl; [reflexivity|].
  rewrite fold_left_app, IH. unfold dedupe_selection.
  destruct (items sel); reflexivity.
Qed.

Lemma first_with_path_app_some p l l' it :
  first_with_path p l = Some it -> first_with_path p (l ++ l') = Some it.
Proof.
  unfold first_with_path. induction l as [|x l IH]; simpl; [discriminate|].
  destruct (String.eqb (path x) p); auto.
Qed.

Lemma first_with_path_app_none p l l' :
  first_with_path p l = None -> first_with_path p (l ++ l') = first_with_path p l'.
Proof.
  unfold first_with_path. induction l as [|x l IH]; simpl; [reflexivity|].
  destruct (String.eqb (path x) p); [discriminate | auto].
Qed.

Lemma dedupe_inv_fold l : dedupe_inv l (fold_left dedupe_item l JsMap.empty).
Proof.
  induction l as [|x l IH] using rev_ind.
  - split; simpl; [constructor | contradiction | contradiction].
  - rewrite fold_left_app. simpl fold_left.
    set (m := fold_left dedupe_item l JsMap.empty) in *.
    destruct IH as [Hnd Hfirst Hseen].
    unfold dedupe_item. destruct (JsMap.has m (path x)) eqn:Eh; simpl negb; cbv iota.
    + split.
      * assumption.
      * intros k v Hin. destruct (Hfirst k v Hin) as (it & Hf & Hv & Hp).
        exists it. split; [apply first_with_path_app_some; assumption | auto].
      * intros it Hin. apply in_app_or in Hin as [Hin | [<- | []]]; auto.
    + rewrite set_absent by assumption. split.
      * unfold JsMap.keys. rewrite map_app. simpl.
        rewrite <- (rev_involutive (map fst m ++ [path x])).
        apply NoDup_rev. rewrite rev_app_distr. simpl. constructor.
        -- intros Hin. apply in_rev in Hin.
           apply has_In in Hin. congruence.
        -- apply NoDup_rev. assumption.
      * intros k v Hin. apply in_app_or in Hin as [Hin | [E | []]].
        -- destruct (Hfirst k v Hin) as (it & Hf & Hv & Hp).
           exists it. split; [apply first_with_path_app_some; assumption | auto].
        -- injection E as <- <-. exists x. split; [|split; reflexivity].
           rewrite first_with_path_app_none.
           ++ unfold first_with_path. simpl. rewrite String.eqb_refl. reflexivity.
           ++ destruct (first_with_path (path x) l) as [it|] eqn:Ef; [|reflexivity].
              unfold first_with_path in Ef. apply find_some in Ef as [Hin E].
              apply String.eqb_eq in E. apply Hseen in Hin. congruence.
      * intros it Hin. apply has_In. unfold JsMap.keys. rewrite map_app.
        apply in_or_app. apply in_app_or in Hin as [Hin | [<- | []]].
        -- left. apply has_In. auto.
        -- right. left. reflexivity.
Qed.

Lemma flattenAndDedupe_inv selections :
  exists m, flattenAndDedupe selections = JsMap.values m
            /\ dedupe_inv (all_items selections) m.
Proof.
  exists (fold_left dedupe_item (all_items selections) JsMap.empty). split.
  - unfold flattenAndDedupe. rewrite fold_selections. reflexivity.
  - apply dedupe_inv_fold.
Qed.

Lemma keys_are_paths l m :
  dedupe_inv l m -> map t_path (JsMap.values m) = JsMap.keys m.
Proof.
  intros [_ Hfirst _]. unfold JsMap.values, JsMap.keys.
  rewrite map_map. apply map_ext_in. intros [k v] Hin.
  destruct (Hfirst k v Hin) as (it & _ & -> & <-). reflexivity.
Qed.

Lemma flattenAndDedupe_NoDup selections :
  NoDup (map t_path (flattenAndDedupe selections)).
Proof.
  destruct (flattenAndDedupe_inv selections) as (m & -> & Hinv).
  rewrite (keys_are_paths _ _ Hinv). apply (inv_nodup _ _ Hinv).
Qed.

(** C6.  For every list of selections, no two entries of
    [flattenAndDedupe(selections)] have the same path; each entry carries
    the size (0 when it is missing) and the [lastModifiedDays] of the first
    item with its path, in selection order; and every selected path has an
    entry. *)
Theorem flattenAndDedupe_first_occurrence (selections : list Selection) :
  NoDup (map t_path (flattenAndDedupe selections))
  /\ (forall t, In t (flattenAndDedupe selections) ->
        exists it,
          first_with_path (t_path t) (all_items selections) = Some it
          /\ (forall n, size it = Some n -> t_size t = n)
          /\ (size it = None -> t_size t = 0%Z)
          /\ t_lastModifiedDays t = lastModifiedDays it)
  /\ (forall it, In it (all_items selections) ->
        In (path it) (map t_path (flattenAndDedupe selections))).
Proof.
  split; [apply flattenAndDedupe_NoDup|].
  destruct (flattenAndDedupe_inv selections) as (m & E & Hinv).
  rewrite E. split.
  - intros t Hin. unfold JsMap.values in Hin.
    apply in_map_iff in Hin as ([k v] & <- & Hin). simpl.
    destruct (inv_first _ _ Hinv k v Hin) as (it & Hf & -> & <-).
    exists it. simpl. repeat split; [assumption | | ].
    + intros n ->. simpl. destruct (Z.eqb n 0) eqn:En; [|reflexivity].
      apply Z.eqb_eq in En. congruence.
    + intros ->. reflexivity.
  - intros it Hin. rewrite (keys_are_paths _ _ Hinv).
    apply has_In. apply (inv_seen _ _ Hinv). assumption.
Qed.

(** ** The cleanup executor *)

Lemma flattenAndDedupe_first_occurrence_witness :
  exists it,
    first_with_path "/home/testuser/a/node_modules"
      (all_items
         [mkSelection "older than 3 months"
            (Some [mkItem "/home/testuser/a/node_modules" (Some 10%Z)
                     (Some (DaysNumber 120))]);
          mkSelection "ALL"
            (Some [mkItem "/home/testuser/b/node_modules" (Some 20%Z) None;
                   mkItem "/home/testuser/a/node_modules" (Some 99%Z) None])])
    = Some it
    /\ (forall n, size it = Some n -> 10%Z = n)
    /\ (size it = None -> 10%Z = 0%Z)
    /\ Some (DaysNumber 120) = lastModifiedDays it.
Proof.
  apply (proj1 (proj2 (flattenAndDedupe_first_occurrence
                         [mkSelection "older than 3 months"
                            (Some [mkItem "/home/testuser/a/node_modules" (Some 10%Z)
                                     (Some (DaysNumber 120))]);
                          mkSelection "ALL"
                            (Some [mkItem "/home/testuser/b/node_modules" (Some 20%Z) None;
                                   mkItem "/home/testuser/a/node_modules" (Some 99%Z)
                                     None])]))
           (mkTarget "/home/testuser/a/node_modules" 10 (Some (DaysNumber 120)))).
  left. reflexivity.
Defined.

Lemma for_of_cons {W A X} (x : X) (xs : list X) (body : A -> X -> Eff.M W A) acc s :
  Eff.for_of (x :: xs) body acc s
  = match body acc x s with
    | (s', inr a) => Eff.for_of xs body a s'
    | (s', inl e) => (s', inl e)
    end.
Proof. reflexivity. Qed.

Section Executor.
Context {W : Type}.
Variable cwd : string.
Variable homedir : string.
Variable trash : W -> string -> W * option JsError.

Abbreviation validate := (SafeDelete.validatePathForDeletion cwd homedir).
Abbreviation cleanup_item := (Cleaner.cleanup_item cwd homedir trash).

Lemma code_is_true err c : code_is err c = true <-> err_code err = Some c.
Proof.
  unfold code_is. destruct (err_code err) as [c'|].
  - rewrite String.eqb_eq. split; congruence.
  - split; discriminate.
Qed.

Lemma code_is_false err c : code_is err c = false <-> err_code err <> Some c.
Proof.
  rewrite <- code_is_true. destruct (code_is err c); split; congruence.
Qed.

(** One turn of the loop when it is not a dry run. *)
Lemma cleanup_item_wet totalFreed results item s :
  exists w' o tr,
    cleanup_item false (totalFreed, results) item s
    = (Eff.mkState w' (Eff.trace s ++ tr)%list,
       inr ((if o_success o then totalFreed + t_size item else totalFreed)%Z,
            (results ++ [o])%list))
    /\ item_outcome cwd homedir trash (Eff.world s) item w' o.
Proof.
  unfold Cleaner.cleanup_item, SafeDeleteEff.safeDelete, Eff.try_catch, Eff.bind,
    Eff.emit, Eff.lift, Eff.ret, Eff.throw, SafeDeleteEff.call_trash.
  simpl Eff.world. simpl Eff.trace.
  destruct (validate (t_path item)) as [e | []] eqn:Ev.
  - exists (Eff.world s), (failure_of item (err_message e)). eexists.
    split; [|apply gate_refuses; assumption].
    simpl. rewrite <- !app_assoc. reflexivity.
  - destruct (trash (Eff.world s) (Path.resolve cwd (t_path item)))
      as [w' [err|]] eqn:Et.
    + destruct (code_is err "EACCES") eqn:Ea.
      * exists w', (failure_of item (SafeDelete.MSG_PERMISSION ++ t_path item)).
        eexists. split; [simpl; rewrite <- !app_assoc; reflexivity|].
        eapply permission_denied; eauto. apply code_is_true; assumption.
      * destruct (code_is err "ENOENT") eqn:En.
        -- exists w', (success_of item). eexists.
           split; [simpl; rewrite <- !app_assoc; reflexivity|].
           eapply already_gone; eauto. apply code_is_true; assumption.
        -- exists w', (failure_of item (err_message err)). eexists.
           split; [simpl; rewrite <- !app_assoc; reflexivity|].
           eapply other_failure; eauto; apply code_is_false; assumption.
    + exists w', (success_of item). eexists.
      split; [simpl; rewrite <- !app_assoc; reflexivity|].
      apply moved_to_trash; assumption.
Qed.

Lemma item_outcome_path w item w' o :
  item_outcome cwd homedir trash w item w' o -> o_path o = t_path item.
Proof. destruct 1; reflexivity. Qed.

(** The loop when it is not a dry run. *)
Lemma cleanup_loop_wet items : forall totalFreed results s,
  exists w' os tr freed,
    Eff.for_of items (cleanup_item false) (totalFreed, results) s
    = (Eff.mkState w' (Eff.trace s ++ tr)%list,
       inr ((totalFreed + freed)%Z, (results ++ os)%list))
    /\ batch_outcomes cwd homedir trash (Eff.world s) items w' os.
Proof.
  induction items as [|item items IH]; intros totalFreed results s.
  - exists (Eff.world s), [], [], 0%Z. simpl. unfold Eff.ret.
    rewrite !app_nil_r, Z.add_0_r. destruct s; split; [reflexivity | constructor].
  - destruct (cleanup_item_wet totalFreed results item s) as (w1 & o & tr1 & E1 & Ho).
    rewrite for_of_cons, E1.
    destruct (IH (if o_success o then totalFreed + t_size item else totalFreed)%Z
                 (results ++ [o])%list
                 (Eff.mkState w1 (Eff.trace s ++ tr1)%list))
      as (w2 & os & tr2 & freed & E2 & Hos).
    rewrite E2. simpl Eff.trace. simpl Eff.world in Hos.
    exists w2, (o :: os), (tr1 ++ tr2)%list,
      ((if o_success o then t_size item else 0) + freed)%Z.
    split.
    + rewrite <- !app_assoc. simpl.
      replace ((if o_success o then totalFreed + t_size item else totalFreed) + freed)%Z
        with (totalFreed + ((if o_success o then t_size item else 0) + freed))%Z
        by (destruct (o_success o); lia).
      reflexivity.
    + econstructor; eassumption.
Qed.

(** The loop of a dry run. *)
Lemma cleanup_loop_dry items : forall totalFreed results s,
  Eff.for_of items (cleanup_item true) (totalFreed, results) s
  = (Eff.mkState (Eff.world s) (Eff.trace s ++ map dry_run_message items)%list,
     inr ((totalFreed + total_size items)%Z,
          (results ++ map success_of items)%list)).
Proof.
  induction items as [|item items IH]; intros totalFreed results s.
  - simpl. unfold Eff.ret, total_size. simpl.
    rewrite !app_nil_r, Z.add_0_r. destruct s; reflexivity.
  - rewrite for_of_cons.
    unfold Cleaner.cleanup_item at 1.
    unfold Eff.try_catch, Eff.bind, Eff.emit, Eff.ret.
    rewrite IH. simpl Eff.world. simpl Eff.trace.
    unfold total_size. simpl map. simpl fold_right.
    rewrite <- !app_assoc. simpl.
    fold (total_size items).
    replace (totalFreed + t_size item + total_size items)%Z
      with (totalFreed + (t_size item + total_size items))%Z by lia.
    reflexivity.
Qed.

Lemma count_outcomes (os : list Outcome) :
  length (filter (fun r => o_success r) os)
  + length (filter (fun r => negb (o_success r)) os) = length os.
Proof.
  induction os as [|o os IH]; simpl; [reflexivity|].
  destruct (o_success o); simpl; lia.
Qed.

Lemma batch_outcomes_paths w items w' os :
  batch_outcomes cwd homedir trash w items w' os -> map o_path os = map t_path items.
Proof.
  induction 1; simpl; [reflexivity|].
  f_equal; [eapply item_outcome_path; eassumption | assumption].
Qed.

End Executor.

(** What a dry run of [performCleanup] does: it leaves the world as it
    is and calls neither the trash primitive nor the gate, it only logs
    one line per deduplicated item.  It returns one success per
    deduplicated item, [totalFreed] is the sum of the sizes of the
    deduplicated items, [successCount] is their number, [failCount] is 0,
    and no path occurs twice among them. *)
Lemma dry_run_cleanup {W : Type} (cwd homedir : string)
  (trash : W -> string -> W * option JsError) (w : W) (selections : list Selection) :
  exists s' res,
    run_performCleanup cwd homedir trash w selections true = (s', inr res)
    /\ Eff.world s' = w
    /\ Eff.trace s' = map dry_run_message (flattenAndDedupe selections)
    /\ (forall ev, In ev (Eff.trace s') ->
          forall p, ev <> CallTrash p /\ ev <> CallValidate p)
    /\ results res = map success_of (flattenAndDedupe selections)
    /\ totalFreed res = total_size (flattenAndDedupe selections)
    /\ successCount res = length (flattenAndDedupe selections)
    /\ failCount res = 0
    /\ NoDup (map t_path (flattenAndDedupe selections)).
Proof.
  unfold run_performCleanup, performCleanup. cbv zeta.
  unfold Eff.bind. rewrite cleanup_loop_dry. simpl.
  eexists _, _. split; [reflexivity|]. simpl.
  assert (Hs : forall l, filter (fun r => o_success r) (map success_of l) = map success_of l).
  { induction l; simpl; congruence. }
  assert (Hf : forall l, filter (fun r => negb (o_success r)) (map success_of l) = []).
  { induction l; simpl; congruence. }
  repeat split.
  - intros E. apply in_map_iff in H as (t & <- & _). discriminate E.
  - intros E. apply in_map_iff in H as (t & <- & _). discriminate E.
  - rewrite Hs, length_map. reflexivity.
  - rewrite Hf. reflexivity.
  - apply flattenAndDedupe_NoDup.
Qed.

(** C2 at a failing input.  The selection holds one item outside the home
    directory.  The gate refuses its path, and a real run fails on it; the
    dry run never calls the gate, reports the item as a success and counts
    its size as freed.  The trash primitive is not called. *)
Theorem dry_run_skips_the_gate :
  SafeDelete.validatePathForDeletion "/home/testuser" "/home/testuser"
    "/opt/projects/app/node_modules"
  = inl (Error SafeDelete.MSG_OUTSIDE_HOME)
  /\ run_performCleanup "/home/testuser" "/home/testuser" counting_trash 0
       [mkSelection "node_modules"
          (Some [mkItem "/opt/projects/app/node_modules" (Some 5%Z) None])] false
     = (Eff.mkState 0
          [CallValidate "/opt/projects/app/node_modules";
           LogWarn ("Failed to delete /opt/projects/app/node_modules: "
                    ++ SafeDelete.MSG_OUTSIDE_HOME)],
        inr (mkCleanupResult 0
               [mkOutcome "/opt/projects/app/node_modules" None false
                  (Some SafeDelete.MSG_OUTSIDE_HOME)] 0 1))
  /\ run_performCleanup "/home/testuser" "/home/testuser" counting_trash 0
       [mkSelection "node_modules"
          (Some [mkItem "/opt/projects/app/node_modules" (Some 5%Z) None])] true
     = (Eff.mkState 0 [LogInfo "[DRY RUN] Would delete: /opt/projects/app/node_modules"],
        inr (mkCleanupResult 5
               [mkOutcome "/opt/projects/app/node_modules" (Some 5%Z) true None] 1 0)).
Proof. repeat split. Qed.

(** Two overlapping filters over the same three items: a dry run counts
    each path once. *)
Example overlapping_filters_dry_run :
  option_map (fun res => (successCount res, failCount res, totalFreed res))
    (match run_performCleanup "/home/testuser" "/home/testuser" counting_trash 0
             [mkSelection "older than 3 months"
                (Some [mkItem "/home/testuser/a/node_modules" (Some 10%Z) None;
                       mkItem "/home/testuser/b/node_modules" (Some 20%Z) None;
                       mkItem "/home/testuser/c/node_modules" (Some 30%Z) None]);
              mkSelection "ALL"
                (Some [mkItem "/home/testuser/a/node_modules" (Some 10%Z) None;
                       mkItem "/home/testuser/b/node_modules" (Some 20%Z) None;
                       mkItem "/home/testuser/c/node_modules" (Some 30%Z) None])]
             true with
     | (_, inr res) => Some res
     | (_, inl _) => None
     end)
  = Some (3, 0, 60%Z).
Proof. reflexivity. Qed.

(** C5.  For every batch that is not a dry run, [performCleanup] returns,
    and its results are the outcomes of the deduplicated items taken one
    after the other: an item the gate refuses fails with the message of
    the gate; an item the trash primitive rejects with code [EACCES] fails
    with ["Permission denied: " + path]; one it rejects with code
    [ENOENT] is a success; one it rejects otherwise fails with the message
    of that error; and whatever the outcome of an item, the items after it
    are processed. *)
Theorem cleanup_batch_outcomes {W : Type} (cwd homedir : string)
  (trash : W -> string -> W * option JsError) (w : W) (selections : list Selection) :
  exists s' res,
    run_performCleanup cwd homedir trash w selections false = (s', inr res)
    /\ batch_outcomes cwd homedir trash w (flattenAndDedupe selections)
         (Eff.world s') (results res).
Proof.
  unfold run_performCleanup, performCleanup. cbv zeta. unfold Eff.bind.
  destruct (cleanup_loop_wet cwd homedir trash (flattenAndDedupe selections)
              0%Z [] (Eff.mkState w []))
    as (w' & os & tr & freed & E & Hb).
  rewrite E. eexists _, _. split; [reflexivity|]. exact Hb.
Qed.

(** C10.  For every list of selections and either value of [dryRun],
    [performCleanup] returns; its results carry, in order, the paths of
    the deduplicated items, so there are as many results as deduplicated
    items; and [successCount + failCount] is that number. *)
Theorem cleanup_one_outcome_per_item {W : Type} (cwd homedir : string)
  (trash : W -> string -> W * option JsError) (w : W) (selections : list Selection)
  (dryRun : bool) :
  exists s' res,
    run_performCleanup cwd homedir trash w selections dryRun = (s', inr res)
    /\ map o_path (results res) = map t_path (flattenAndDedupe selections)
    /\ length (results res) = length (flattenAndDedupe selections)
    /\ successCount res + failCount res = length (flattenAndDedupe selections).
Proof.
  assert (Hgen : exists s' tf os,
             Eff.for_of (flattenAndDedupe selections)
               (cleanup_item cwd homedir trash dryRun) (0%Z, []) (Eff.mkState w [])
             = (s', inr (tf, os))
             /\ map o_path os = map t_path (flattenAndDedupe selections)).
  { destruct dryRun.
    - rewrite cleanup_loop_dry. eexists _, _, _. split; [reflexivity|].
      simpl. rewrite map_map. reflexivity.
    - destruct (cleanup_loop_wet cwd homedir trash (flattenAndDedupe selections)
                  0%Z [] (Eff.mkState w []))
        as (w' & os & tr & freed & E & Hb).
      rewrite E. eexists _, _, _. split; [reflexivity|].
      simpl. eapply batch_outcomes_paths; eassumption. }
  destruct Hgen as (s' & tf & os & E & Hpaths).
  unfold run_performCleanup, performCleanup. cbv zeta. unfold Eff.bind.
  rewrite E. eexists _, _. split; [reflexivity|]. simpl.
  assert (Hlen : length os = length (flattenAndDedupe selections)).
  { rewrite <- (length_map o_path os), Hpaths, length_map. reflexivity. }
  repeat split; [assumption | assumption |].
  rewrite count_outcomes. assumption.
Qed.

(** ** Age metadata *)

(** C9, as stated, fails: a path whose [mtime] lies after [Date.now()]
    gets a negative number of days. *)
Lemma age_claim_fails_on_future_mtime :
  ~ (forall (m : Machine) (p : string) (d : Z),
        snd (BaseScanner.getMetadata m p) = DaysNumber d -> (0 <= d)%Z).
Proof.
  intros H.
  specialize (H machine_ahead "/home/testuser/proj/node_modules" (-1)%Z eq_refl).
  lia.
Qed.

(** C9 (amended).  For every path, [lastModifiedDays] is [Infinity]
    exactly when the [mtime] of the path cannot be read; otherwise it is
    [floor((now - mtime) / 1 day)], an integer that is non-negative
    exactly when [mtime] is not after [now]. *)
Theorem age_in_days (m : Machine) (p : string) :
  (snd (BaseScanner.getMetadata m p) = DaysInfinity <-> stat_mtime m p = None)
  /\ (forall mtime d,
        stat_mtime m p = Some mtime ->
        d = ((date_now m - mtime) / BaseScanner.MS_PER_DAY)%Z ->
        snd (BaseScanner.getMetadata m p) = DaysNumber d
        /\ (d * BaseScanner.MS_PER_DAY <= date_now m - mtime
            < (d + 1) * BaseScanner.MS_PER_DAY)%Z
        /\ ((0 <= d)%Z <-> (mtime <= date_now m)%Z)).
Proof.
  unfold BaseScanner.getMetadata, FileSystem.getLastModified. split.
  - destruct (stat_mtime m p); simpl; split; congruence.
  - intros mtime d -> ->. simpl. split; [reflexivity|].
    assert (Hd : (0 < BaseScanner.MS_PER_DAY)%Z) by reflexivity.
    pose proof (Z.div_mod (date_now m - mtime) BaseScanner.MS_PER_DAY) as Hdm.
    pose proof (Z.mod_pos_bound (date_now m - mtime) BaseScanner.MS_PER_DAY Hd) as Hmod.
    set (q := ((date_now m - mtime) / BaseScanner.MS_PER_DAY)%Z) in *.
    split; [|split]; intros; nia.
Qed.

Lemma age_in_days_witness :
  snd (BaseScanner.getMetadata machine_ahead "/home/testuser/x") = DaysNumber (-1)
  /\ ((0 <= -1)%Z <-> (1700000001000 <= date_now machine_ahead)%Z).
Proof.
  destruct (proj2 (age_in_days machine_ahead "/home/testuser/x")
              1700000001000%Z (-1)%Z eq_refl eq_refl) as (Hd & _ & Hn).
  split; [exact Hd | exact Hn].
Defined.

Import FileSystem.

(** ** The shape of absolute paths *)

Section PathShape.
Import Js Path.

Lemma string_of_chars_of (s : string) :
  string_of_list_ascii (list_ascii_of_string s) = s.
Proof. apply string_of_list_ascii_of_string. Qed.

Lemma take_while_app_stop (f : ascii -> bool) l c r :
  Forall (fun x => f x = true) l -> f c = false ->
  take_while f (l ++ c :: r)%list = l.
Proof.
  induction 1 as [|x l Hx Hl IH]; intros Hc; simpl.
  - rewrite Hc; reflexivity.
  - rewrite Hx, IH by assumption. reflexivity.
Qed.

Lemma take_while_all (f : ascii -> bool) l :
  Forall (fun x => f x = true) l -> take_while f l = l.
Proof. induction 1 as [|x l Hx Hl IH]; simpl; [reflexivity | rewrite Hx, IH; reflexivity]. Qed.

Lemma drop_while_app_stop (f : ascii -> bool) l c r :
  Forall (fun x => f x = true) l -> f c = false ->
  drop_while f (l ++ c :: r)%list = c :: r.
Proof.
  induction 1 as [|x l Hx Hl IH]; intros Hc; simpl.
  - rewrite Hc; reflexivity.
  - rewrite Hx. apply IH; assumption.
Qed.

Lemma drop_while_all (f : ascii -> bool) l :
  Forall (fun x => f x = true) l -> drop_while f l = [].
Proof. induction 1 as [|x l Hx Hl IH]; simpl; [reflexivity | rewrite Hx; assumption]. Qed.

Lemma drop_while_head_stop (f : ascii -> bool) c l :
  f c = false -> drop_while f (c :: l) = c :: l.
Proof. intros H; simpl; rewrite H; reflexivity. Qed.

(** The characters of a clean piece, last first: none is a separator and
    there is at least one. *)
Lemma clean_rev_chars x :
  clean x = true ->
  Forall (fun c => not_slash c = true) (rev (list_ascii_of_string x))
  /\ rev (list_ascii_of_string x) <> [].
Proof.
  intros Hx. split.
  - apply Forall_rev. pose proof (no_slash_chars _ (clean_no_slash _ Hx)) as H.
    eapply Forall_impl; [|exact H]. intros c Hc. unfold not_slash. rewrite Hc. reflexivity.
  - pose proof (clean_nonempty _ Hx) as Hne. destruct x; [discriminate|].
    intros E. apply (f_equal (@List.length ascii)) in E.
    rewrite length_rev in E. discriminate.
Qed.

Lemma abs_path_snoc pieces x :
  abs_path (pieces ++ [x]) = parent_text pieces ++ String "/" x.
Proof.
  unfold abs_path, parent_text. destruct pieces as [|y l].
  - reflexivity.
  - rewrite join_app by discriminate. reflexivity.
Qed.

Lemma basename_abs_path_snoc pieces x :
  clean x = true -> basename (abs_path (pieces ++ [x])) = x.
Proof.
  intros Hx. destruct (clean_rev_chars x Hx) as [Hall Hne].
  unfold basename. rewrite abs_path_snoc, chars_append, rev_app_distr.
  simpl list_ascii_of_string. simpl rev at 1.
  rewrite <- app_assoc. simpl app.
  destruct (rev (list_ascii_of_string x)) as [|c l] eqn:E; [contradiction|].
  inversion Hall as [|? ? Hc Hl]; subst.
  rewrite <- app_comm_cons.
  rewrite drop_while_head_stop
    by (unfold is_slash; unfold not_slash in Hc; apply negb_true_iff in Hc; exact Hc).
  rewrite app_comm_cons, take_while_app_stop by (assumption || reflexivity).
  rewrite <- E, rev_involutive. apply string_of_chars_of.
Qed.

Lemma basename_root : basename (abs_path []) = "".
Proof. reflexivity. Qed.

Lemma join_slash_clean_not_empty pieces :
  pieces <> [] -> Forall (fun x => clean x = true) pieces ->
  list_ascii_of_string (join_slash pieces) <> [].
Proof.
  intros Hn Hc. destruct pieces as [|x l]; [contradiction|].
  inversion Hc as [|? ? Hx Hl]; subst.
  pose proof (clean_nonempty _ Hx) as Hne.
  destruct l as [|y l].
  - simpl. destruct x; [discriminate | discriminate].
  - rewrite join_cons by discriminate. destruct x; [discriminate | discriminate].
Qed.

Lemma dirname_abs_path_snoc pieces x :
  Forall (fun y => clean y = true) pieces -> clean x = true ->
  dirname (abs_path (pieces ++ [x])) = abs_path pieces.
Proof.
  intros Hp Hx. destruct (clean_rev_chars x Hx) as [Hall Hne].
  unfold dirname, abs_path at 1.
  destruct pieces as [|y l].
  - simpl app. change (join_slash [x]) with x.
    destruct (rev (list_ascii_of_string x)) as [|c r] eqn:E; [contradiction|].
    inversion Hall as [|? ? Hc Hl]; subst.
    rewrite drop_while_head_stop
      by (unfold is_slash; unfold not_slash in Hc; apply negb_true_iff in Hc; exact Hc).
    rewrite drop_while_all by (constructor; assumption). reflexivity.
  - rewrite join_app by discriminate.
    rewrite chars_append, rev_app_distr. simpl list_ascii_of_string. simpl rev at 1.
    rewrite <- app_assoc. simpl app. change (join_slash [x]) with x.
    destruct (rev (list_ascii_of_string x)) as [|c r] eqn:E; [contradiction|].
    inversion Hall as [|? ? Hc Hl]; subst.
    rewrite <- app_comm_cons.
    rewrite drop_while_head_stop
      by (unfold is_slash; unfold not_slash in Hc; apply negb_true_iff in Hc; exact Hc).
    rewrite app_comm_cons, drop_while_app_stop by (assumption || reflexivity).
    pose proof (join_slash_clean_not_empty (y :: l) ltac:(discriminate) Hp) as Hj.
    destruct (rev (list_ascii_of_string (join_slash (y :: l)))) as [|d before] eqn:Eb.
    + exfalso. apply Hj. apply (f_equal (@rev ascii)) in Eb.
      rewrite rev_involutive in Eb. exact Eb.
    + rewrite <- Eb, rev_involutive, string_of_chars_of. reflexivity.
Qed.

Lemma join_abs_path pieces x :
  Forall (fun y => clean y = true) pieces -> clean x = true ->
  join (abs_path pieces) x = abs_path (pieces ++ [x]).
Proof.
  intros Hp Hx.
  pose proof (clean_no_slash _ Hx) as Hns.
  pose proof (clean_nonempty _ Hx) as Hne.
  unfold join. rewrite Hne. simpl String.eqb. cbv iota.
  set (j := abs_path pieces ++ "/" ++ x).
  assert (Hsplit : fold_left (normalize_step false) (split_slash j) [] = x :: rev pieces).
  { unfold j. change (abs_path pieces ++ "/" ++ x) with (abs_path pieces ++ String "/" x).
    rewrite split_app_slash, (split_no_slash _ Hns), fold_left_app.
    assert (Hf : fold_left (normalize_step false) (split_slash (abs_path pieces)) []
                 = rev pieces).
    { destruct pieces as [|y l]; [reflexivity|].
      rewrite split_abs_path by (discriminate || assumption).
      change (fold_left (normalize_step false) ("" :: y :: l) [])
        with (fold_left (normalize_step false) (y :: l) []).
      rewrite fold_clean_pieces by assumption. apply app_nil_r. }
    rewrite Hf. simpl fold_left. apply step_clean; assumption. }
  assert (Htrail : last_char_is_slash j = false).
  { unfold j. change (abs_path pieces ++ "/" ++ x)
      with (abs_path pieces ++ (String "/" "" ++ x)).
    rewrite <- append_assoc. apply last_char_no_slash; assumption. }
  unfold normalize.
  change (String.eqb j "") with false. cbv iota.
  change (isAbsolute j) with true. simpl negb.
  unfold normalizeString, normalize_pieces. rewrite Hsplit, Htrail.
  simpl rev. rewrite join_slash_snoc_not_empty by assumption.
  rewrite rev_involutive. reflexivity.
Qed.

End PathShape.

(** ** The walk for directories of a given name *)

Section WalkEntries.
Context {A : Type}.
Variable maxDepth : nat.
Variable ignoreDirs : list string.
Variable skipDescendingInto : list string.
Variable onEnterDir : bool.
Variable callback : A -> string -> Stats -> A.

Abbreviation walk_entries :=
  (walk_entries maxDepth ignoreDirs skipDescendingInto onEnterDir callback).

Lemma walk_dir entries currentPath depth st :
  walk maxDepth ignoreDirs skipDescendingInto onEnterDir callback
    (Dir entries) currentPath depth st
  = if Nat.ltb maxDepth depth then inr st
    else if ignored ignoreDirs currentPath then inr st
    else
      let st1 := visit callback (enter_dir onEnterDir st currentPath depth)
                   currentPath true in
      if Js.includes skipDescendingInto (Path.basename currentPath) then inr st1
      else walk_entries currentPath depth entries st1.
Proof.
  simpl. destruct (Nat.ltb maxDepth depth); [reflexivity|].
  destruct (ignored ignoreDirs currentPath); [reflexivity|].
  cbv zeta.
  destruct (Js.includes skipDescendingInto (Path.basename currentPath)); [reflexivity|].
  generalize (visit callback (enter_dir onEnterDir st currentPath depth) currentPath true).
  induction entries as [|[entry child] es IH]; intros w; [reflexivity|].
  simpl. destruct (walk _ _ _ _ _ child _ _ w); [reflexivity | apply IH].
Qed.

Lemma walk_unreadable e currentPath depth st :
  walk maxDepth ignoreDirs skipDescendingInto onEnterDir callback
    (DirUnreadable e) currentPath depth st
  = if Nat.ltb maxDepth depth then inr st
    else if ignored ignoreDirs currentPath then inr st
    else
      let st1 := visit callback (enter_dir onEnterDir st currentPath depth)
                   currentPath true in
      if Js.includes skipDescendingInto (Path.basename currentPath) then inr st1
      else if skipped_code e then inr st1 else inl e.
Proof. reflexivity. Qed.

End WalkEntries.

Lemma node_induction (P : Node -> Prop) :
  (forall size, P (File size)) -> P Symlink -> P Special ->
  (forall e, P (LstatFails e)) ->
  (forall entries, Forall (fun e => P (snd e)) entries -> P (Dir entries)) ->
  (forall e, P (DirUnreadable e)) ->
  forall node, P node.
Proof.
  intros Hfile Hlink Hspecial Hlstat Hdir Hunreadable.
  fix IH 1. intros [size | | | e | entries | e].
  - apply Hfile.
  - apply Hlink.
  - apply Hspecial.
  - apply Hlstat.
  - apply Hdir. induction entries as [|[name child] es IHes]; constructor.
    + apply IH.
    + apply IHes.
  - apply Hunreadable.
Qed.

Lemma well_formed_dir entries :
  well_formed (Dir entries) ->
  Forall (fun e => clean (fst e) = true) entries
  /\ NoDup (map fst entries)
  /\ Forall (fun e => well_formed (snd e)) entries.
Proof.
  intros (Hc & Hn & Hall). repeat split; try assumption.
  clear Hc Hn. induction entries as [|[name child] es IH]; constructor.
  - apply Hall.
  - apply IH, Hall.
Qed.

Lemma basename_abs_path P :
  Forall (fun x => clean x = true) P -> Path.basename (abs_path P) = last P "".
Proof.
  intros HP. destruct P as [|p0 P0] eqn:EP; [reflexivity|].
  destruct (@exists_last _ P ltac:(subst; discriminate)) as (P' & x & E).
  rewrite <- EP in *. clear EP. subst P.
  apply Forall_app in HP as [_ Hx]. inversion Hx; subst.
    rewrite last_last. apply basename_abs_path_snoc; assumption.
Qed.

Section FindWalk.
Variable maxDepth : nat.
Variable ignoreDirs : list string.
Variable onEnterDir : bool.
Variable target : string.

Abbreviation find_walk :=
  (walk maxDepth ignoreDirs [target] onEnterDir (BaseScanner.found_callback target)).
Abbreviation find_entries :=
  (walk_entries maxDepth ignoreDirs [target] onEnterDir (BaseScanner.found_callback target)).

Lemma includes_target name : Js.includes [target] name = String.eqb name target.
Proof. unfold Js.includes. simpl. apply orb_false_r. Qed.

Lemma visit_directory (st : WalkState (A:=list string)) cur d :
  fst (visit (BaseScanner.found_callback target) (enter_dir onEnterDir st cur d) cur true)
  = if String.eqb (Path.basename cur) target then (fst st ++ [cur])%list else fst st.
Proof.
  unfold visit, enter_dir, BaseScanner.found_callback. simpl.
  destruct (onEnterDir && Nat.eqb d 1); reflexivity.
Qed.

Lemma visit_file (st : WalkState (A:=list string)) cur :
  fst (visit (BaseScanner.found_callback target) st cur false) = fst st.
Proof. reflexivity. Qed.

(** What a directory that is visited adds to the list. *)
Lemma own_path_found P :
  Forall (fun x => clean x = true) P ->
  String.eqb (Path.basename (abs_path P)) target = true ->
  found_below target P (abs_path P).
Proof.
  intros HP Hb. apply String.eqb_eq in Hb. rewrite basename_abs_path in Hb by assumption.
  exists []. rewrite app_nil_r. repeat split.
  - constructor.
  - rewrite app_nil_r. assumption.
  - intros ns1 ns2 E Hne. destruct ns1; destruct ns2; try discriminate. contradiction.
Qed.

Lemma found_below_child P name f :
  last P "" <> target ->
  clean name = true ->
  found_below target (P ++ [name]) f -> found_below target P f.
Proof.
  intros Hlast Hname (ns & -> & Hns & Hlast' & Hpre).
  exists (name :: ns). rewrite <- app_assoc in *. simpl in *. repeat split.
  - constructor; assumption.
  - assumption.
  - intros ns1 ns2 E Hne. destruct ns1 as [|n1 ns1].
    + rewrite app_nil_r. assumption.
    + simpl in E. injection E as <- E.
      specialize (Hpre ns1 ns2 E Hne). rewrite <- app_assoc in Hpre. exact Hpre.
Qed.

Lemma found_below_starts P name f :
  found_below target (P ++ [name]) f ->
  exists ns, f = abs_path (P ++ name :: ns) /\ Forall (fun x => clean x = true) ns.
Proof.
  intros (ns & -> & Hns & _). exists ns. rewrite <- app_assoc. split; [reflexivity | assumption].
Qed.

(** The entries of a directory, given what holds of each of them. *)
Lemma find_entries_found P d entries :
  Forall (fun x => clean x = true) P ->
  Forall (fun e => clean (fst e) = true) entries ->
  NoDup (map fst entries) ->
  Forall (fun e =>
            forall P' d' st st',
              Forall (fun x => clean x = true) P' ->
              find_walk (snd e) (abs_path P') d' st = inr st' ->
              exists new, fst st' = (fst st ++ new)%list /\ NoDup new
                          /\ Forall (found_below target P') new) entries ->
  forall st st',
    find_entries (abs_path P) d entries st = inr st' ->
    exists new,
      fst st' = (fst st ++ new)%list /\ NoDup new
      /\ Forall (fun f => exists name, In name (map fst entries)
                                       /\ found_below target (P ++ [name]) f) new.
Proof.
  intros HP. induction entries as [|[name child] es IH]; intros Hclean Hnd Hall st st' E.
  - simpl in E. injection E as <-. exists []. rewrite app_nil_r.
    repeat split; constructor.
  - inversion Hclean as [|? ? Hname Hclean']; subst.
    inversion Hnd as [|? ? Hnotin Hnd']; subst.
    inversion Hall as [|? ? Hchild Hall']; subst.
    simpl in Hname, Hchild, Hnotin.
    simpl in E. rewrite join_abs_path in E by assumption.
    destruct (find_walk child (abs_path (P ++ [name])) (S d) st) as [e | st1] eqn:E1;
      [discriminate|].
    assert (HP1 : Forall (fun x => clean x = true) (P ++ [name])).
    { apply Forall_app; split; [assumption | repeat constructor; assumption]. }
    destruct (Hchild _ _ _ _ HP1 E1) as (new1 & Hst1 & Hnd1 & Hall1).
    destruct (IH Hclean' Hnd' Hall' st1 st' E) as (new2 & Hst2 & Hnd2 & Hall2).
    exists (new1 ++ new2)%list. repeat split.
    + rewrite Hst2, Hst1, app_assoc. reflexivity.
    + apply NoDup_app; [assumption | assumption |].
      intros f Hin1 Hin2.
      rewrite Forall_forall in Hall1, Hall2.
      destruct (found_below_starts _ _ _ (Hall1 f Hin1)) as (ns1 & Ef1 & Hns1).
      destruct (Hall2 f Hin2) as (name2 & Hname2 & Hf2).
      destruct (found_below_starts _ _ _ Hf2) as (ns2 & Ef2 & Hns2).
      rewrite Ef1 in Ef2. apply abs_path_inj in Ef2.
      * apply app_inv_head in Ef2. injection Ef2 as -> _. contradiction.
      * apply Forall_app; split; [assumption | constructor; assumption].
      * apply Forall_app; split; [assumption|]. constructor; [|assumption].
        rewrite Forall_forall in Hclean'.
        apply in_map_iff in Hname2 as ((n & c) & <- & Hin). apply (Hclean' _ Hin).
    + apply Forall_app; split.
      * eapply Forall_impl; [|exact Hall1]. intros f Hf. exists name. split; [left; reflexivity | exact Hf].
      * eapply Forall_impl; [|exact Hall2]. intros f (n & Hn & Hf). exists n. split; [right; exact Hn | exact Hf].
Qed.

(** Every path the walk adds is a directory named [target] at or below
    the start, not below another directory named [target], and no path is
    added twice. *)
Lemma find_walk_found node :
  well_formed node ->
  forall P d st st',
    Forall (fun x => clean x = true) P ->
    find_walk node (abs_path P) d st = inr st' ->
    exists new, fst st' = (fst st ++ new)%list /\ NoDup new
                /\ Forall (found_below target P) new.
Proof.
  induction node as [size | | | e | entries IH | e] using node_induction;
    intros Hwf P d st st' HP E.
  - simpl in E. destruct (Nat.ltb maxDepth d); injection E as <-;
      exists []; rewrite app_nil_r; repeat split; constructor.
  - simpl in E. destruct (Nat.ltb maxDepth d); injection E as <-;
      exists []; rewrite app_nil_r; repeat split; constructor.
  - simpl in E. destruct (Nat.ltb maxDepth d); injection E as <-;
      exists []; rewrite app_nil_r; repeat split; constructor.
  - simpl in E. destruct (Nat.ltb maxDepth d); [|destruct (skipped_code e); [|discriminate]];
      injection E as <-; exists []; rewrite app_nil_r; repeat split; constructor.
  - rewrite walk_dir in E.
    destruct (Nat.ltb maxDepth d);
      [injection E as <-; exists []; rewrite app_nil_r; repeat split; constructor|].
    destruct (ignored ignoreDirs (abs_path P));
      [injection E as <-; exists []; rewrite app_nil_r; repeat split; constructor|].
    cbv zeta in E. rewrite includes_target in E.
    pose proof (visit_directory st (abs_path P) d) as Hv.
    destruct (String.eqb (Path.basename (abs_path P)) target) eqn:Eb.
    + injection E as <-. exists [abs_path P]. repeat split.
      * exact Hv.
      * constructor; [intros [] | constructor].
      * constructor; [apply own_path_found; assumption | constructor].
    + destruct (well_formed_dir _ Hwf) as (Hclean & Hnd & Hall).
      assert (Hkids : Forall (fun e =>
                forall P' d' st0 st0',
                  Forall (fun x => clean x = true) P' ->
                  find_walk (snd e) (abs_path P') d' st0 = inr st0' ->
                  exists new, fst st0' = (fst st0 ++ new)%list /\ NoDup new
                              /\ Forall (found_below target P') new) entries).
      { rewrite Forall_forall in IH, Hall |- *. intros x Hx P' d' st0 st0' HP' E'.
        apply (IH x Hx (Hall x Hx) P' d' st0 st0' HP' E'). }
      destruct (find_entries_found P d entries HP Hclean Hnd Hkids _ _ E)
        as (new & Hst & Hndn & Hnew).
      exists new. rewrite Hst, Hv. repeat split; [assumption|].
      eapply Forall_impl; [|exact Hnew].
      intros f (name & Hname & Hf).
      apply found_below_child with (name := name); [| | exact Hf].
      * rewrite <- basename_abs_path by assumption. apply String.eqb_neq. exact Eb.
      * rewrite Forall_forall in Hclean.
        apply in_map_iff in Hname as ((n & c) & <- & Hin). apply (Hclean _ Hin).
  - rewrite walk_unreadable in E.
    destruct (Nat.ltb maxDepth d);
      [injection E as <-; exists []; rewrite app_nil_r; repeat split; constructor|].
    destruct (ignored ignoreDirs (abs_path P));
      [injection E as <-; exists []; rewrite app_nil_r; repeat split; constructor|].
    cbv zeta in E. rewrite includes_target in E.
    pose proof (visit_directory st (abs_path P) d) as Hv.
    destruct (String.eqb (Path.basename (abs_path P)) target) eqn:Eb.
    + injection E as <-. exists [abs_path P]. repeat split.
      * exact Hv.
      * constructor; [intros [] | constructor].
      * constructor; [apply own_path_found; assumption | constructor].
    + destruct (skipped_code e); [|discriminate].
      injection E as <-. exists []. rewrite app_nil_r. repeat split; [exact Hv | constructor | constructor].
Qed.

End FindWalk.

Section FindReach.
Variable maxDepth : nat.
Variable ignoreDirs : list string.
Variable onEnterDir : bool.
Variable target : string.
Hypothesis target_clean : clean target = true.

Abbreviation find_walk :=
  (walk maxDepth ignoreDirs [target] onEnterDir (BaseScanner.found_callback target)).
Abbreviation find_entries :=
  (walk_entries maxDepth ignoreDirs [target] onEnterDir (BaseScanner.found_callback target)).

Lemma find_entries_grows cur d entries :
  Forall (fun e => forall cur' d' st st',
            find_walk (snd e) cur' d' st = inr st' -> incl (fst st) (fst st')) entries ->
  forall st st', find_entries cur d entries st = inr st' -> incl (fst st) (fst st').
Proof.
  induction entries as [|[name child] es IH]; intros Hall st st' E.
  - injection E as <-. apply incl_refl.
  - inversion Hall as [|? ? Hchild Hall']; subst. simpl in E, Hchild.
    destruct (find_walk child (Path.join cur name) (S d) st) as [e | st1] eqn:E1;
      [discriminate|].
    eapply incl_tran; [eapply Hchild; exact E1 | eapply IH; eassumption].
Qed.

(** The walk only adds to the list. *)
Lemma find_walk_grows node :
  forall cur d st st', find_walk node cur d st = inr st' -> incl (fst st) (fst st').
Proof.
  induction node as [size | | | e | entries IH | e] using node_induction;
    intros cur d st st' E.
  - simpl in E. destruct (Nat.ltb maxDepth d); injection E as <-; apply incl_refl.
  - simpl in E. destruct (Nat.ltb maxDepth d); injection E as <-; apply incl_refl.
  - simpl in E. destruct (Nat.ltb maxDepth d); injection E as <-; apply incl_refl.
  - simpl in E. destruct (Nat.ltb maxDepth d); [|destruct (skipped_code e); [|discriminate]];
      injection E as <-; apply incl_refl.
  - rewrite walk_dir in E.
    destruct (Nat.ltb maxDepth d); [injection E as <-; apply incl_refl|].
    destruct (ignored ignoreDirs cur); [injection E as <-; apply incl_refl|].
    cbv zeta in E.
    assert (Hv : incl (fst st)
                   (fst (visit (BaseScanner.found_callback target)
                           (enter_dir onEnterDir st cur d) cur true))).
    { rewrite (visit_directory onEnterDir target).
      destruct (String.eqb _ target); [apply incl_appl|]; apply incl_refl. }
    destruct (Js.includes [target] (Path.basename cur)).
    + injection E as <-. exact Hv.
    + eapply incl_tran; [exact Hv|].
      eapply find_entries_grows; [|exact E].
      eapply Forall_impl; [|exact IH]. intros x Hx; exact Hx.
  - rewrite walk_unreadable in E.
    destruct (Nat.ltb maxDepth d); [injection E as <-; apply incl_refl|].
    destruct (ignored ignoreDirs cur); [injection E as <-; apply incl_refl|].
    cbv zeta in E.
    assert (Hv : incl (fst st)
                   (fst (visit (BaseScanner.found_callback target)
                           (enter_dir onEnterDir st cur d) cur true))).
    { rewrite (visit_directory onEnterDir target).
      destruct (String.eqb _ target); [apply incl_appl|]; apply incl_refl. }
    destruct (Js.includes [target] (Path.basename cur)); [injection E as <-; exact Hv|].
    destruct (skipped_code e); [injection E as <-; exact Hv | discriminate].
Qed.

(** When the loop over the entries of a directory returns, each entry has
    been walked, and what its walk found is kept. *)
Lemma find_entries_reaches cur d entries name child :
  In (name, child) entries ->
  forall st st',
    find_entries cur d entries st = inr st' ->
    exists sta stb,
      find_walk child (Path.join cur name) (S d) sta = inr stb
      /\ incl (fst stb) (fst st').
Proof.
  induction entries as [|[n c] es IH]; intros Hin st st' E; [contradiction|].
  simpl in E.
  destruct (find_walk c (Path.join cur n) (S d) st) as [e | st1] eqn:E1; [discriminate|].
  destruct Hin as [Heq | Hin].
  - injection Heq as -> ->. exists st, st1. split; [exact E1|].
    eapply find_entries_grows; [|exact E].
    apply Forall_forall. intros x _ cur' d' s s' Hs. eapply find_walk_grows; exact Hs.
  - apply (IH Hin st1 st' E).
Qed.

Lemma find_some_entry (name : string) entries n child :
  find (fun e : string * Node => String.eqb (fst e) name) entries = Some (n, child) ->
  In (name, child) entries.
Proof.
  intros H. apply find_some in H as [Hin E]. simpl in E.
  apply String.eqb_eq in E. subst n. exact Hin.
Qed.

(** A directory within reach is found. *)
Lemma find_walk_reaches names : forall node P d st st',
  well_formed node ->
  Forall (fun x => clean x = true) P ->
  within_reach maxDepth ignoreDirs target node P d names = true ->
  find_walk node (abs_path P) d st = inr st' ->
  In (abs_path (P ++ names ++ [target])) (fst st').
Proof.
  induction names as [|name rest IH]; intros node P d st st' Hwf HP Hr E.
  - destruct node as [ | | | | entries | ]; cbn [within_reach] in Hr;
      try (rewrite andb_false_r in Hr; discriminate).
    apply andb_true_iff in Hr as [Hr Hfind].
    apply andb_true_iff in Hr as [Hr Hlast].
    apply andb_true_iff in Hr as [Hd Hign].
    rewrite walk_dir in E.
    apply Nat.leb_le in Hd.
    destruct (Nat.ltb maxDepth d) eqn:El; [apply Nat.ltb_lt in El; lia|].
    apply negb_true_iff in Hign, Hlast. rewrite Hign in E. cbv zeta in E.
    rewrite (includes_target target), basename_abs_path, Hlast in E by assumption.
    destruct (find _ entries) as [[n child]|] eqn:Ef; [|discriminate].
    apply find_some_entry in Ef.
    apply andb_true_iff in Hfind as [Hfind Hign'].
    apply andb_true_iff in Hfind as [Hdir Hd'].
    destruct (find_entries_reaches _ _ _ _ _ Ef _ _ E) as (sta & stb & Ew & Hincl).
    apply Hincl. rewrite join_abs_path in Ew by assumption.
    apply Nat.leb_le in Hd'. apply negb_true_iff in Hign'.
    assert (Hb : String.eqb (Path.basename (abs_path (P ++ [target]))) target = true).
    { rewrite basename_abs_path_snoc by assumption. apply String.eqb_refl. }
    assert (Hl : Nat.ltb maxDepth (S d) = false) by (apply Nat.ltb_ge; lia).
    pose proof (visit_directory onEnterDir target sta (abs_path (P ++ [target])) (S d)) as Hv.
    rewrite Hb in Hv.
    simpl app.
    destruct child as [ | | | | kids | e ]; try discriminate.
    + rewrite walk_dir, Hl, Hign' in Ew. cbv zeta in Ew.
      rewrite (includes_target target), Hb in Ew. injection Ew as <-.
      rewrite Hv. apply in_or_app. right. left. reflexivity.
    + rewrite walk_unreadable, Hl, Hign' in Ew. cbv zeta in Ew.
      rewrite (includes_target target), Hb in Ew. injection Ew as <-.
      rewrite Hv. apply in_or_app. right. left. reflexivity.
  - destruct node as [ | | | | entries | ]; cbn [within_reach] in Hr;
      try (rewrite andb_false_r in Hr; discriminate).
    apply andb_true_iff in Hr as [Hr Hfind].
    apply andb_true_iff in Hr as [Hr Hlast].
    apply andb_true_iff in Hr as [Hd Hign].
    rewrite walk_dir in E.
    apply Nat.leb_le in Hd.
    destruct (Nat.ltb maxDepth d) eqn:El; [apply Nat.ltb_lt in El; lia|].
    apply negb_true_iff in Hign, Hlast. rewrite Hign in E. cbv zeta in E.
    rewrite (includes_target target), basename_abs_path, Hlast in E by assumption.
    destruct (find _ entries) as [[n child]|] eqn:Ef; [|discriminate].
    apply find_some_entry in Ef.
    destruct (well_formed_dir _ Hwf) as (Hclean & _ & Hall).
    rewrite Forall_forall in Hclean, Hall.
    pose proof (Hclean _ Ef) as Hname. pose proof (Hall _ Ef) as Hwfc.
    simpl in Hname, Hwfc.
    destruct (find_entries_reaches _ _ _ _ _ Ef _ _ E) as (sta & stb & Ew & Hincl).
    apply Hincl. rewrite join_abs_path in Ew by assumption.
    replace (P ++ (name :: rest) ++ [target])%list
      with ((P ++ [name]) ++ rest ++ [target])%list
      by (rewrite <- app_assoc; reflexivity).
    eapply IH; [exact Hwfc | | exact Hfind | exact Ew].
    apply Forall_app; split; [assumption | repeat constructor; assumption].
Qed.

End FindReach.

Lemma within_reach_clean maxDepth ignoreDirs target names : forall node P d,
  well_formed node ->
  within_reach maxDepth ignoreDirs target node P d names = true ->
  Forall (fun x => clean x = true) names /\ ~ In target names.
Proof.
  induction names as [|name rest IH]; intros node P d Hwf Hr.
  - split; [constructor | intros []].
  - destruct node as [ | | | | entries | ]; cbn [within_reach] in Hr;
      try (rewrite andb_false_r in Hr; discriminate).
    apply andb_true_iff in Hr as [_ Hfind].
    destruct (find _ entries) as [[n child]|] eqn:Ef; [|discriminate].
    apply find_some_entry in Ef.
    destruct (well_formed_dir _ Hwf) as (Hclean & _ & Hall).
    rewrite Forall_forall in Hclean, Hall.
    pose proof (Hclean _ Ef) as Hname. pose proof (Hall _ Ef) as Hwfc.
    simpl in Hname, Hwfc.
    destruct (IH _ _ _ Hwfc Hfind) as [Hrest Hnot].
    split; [constructor; assumption|].
    intros [<- | Hin]; [|contradiction].
    destruct rest as [|r rest']; destruct child; cbn [within_reach] in Hfind;
      try (rewrite andb_false_r in Hfind; discriminate);
      apply andb_true_iff in Hfind as [Hfind _];
      apply andb_true_iff in Hfind as [_ Hlast];
      rewrite last_last, String.eqb_refl in Hlast; discriminate.
Qed.

Lemma includes_absent l x : ~ In x l -> Js.includes l x = false.
Proof.
  unfold Js.includes. induction l as [|y l IH]; intros H; simpl; [reflexivity|].
  rewrite IH by (intros Hin; apply H; right; assumption).
  rewrite orb_false_r. apply String.eqb_neq. intros ->. apply H. left; reflexivity.
Qed.

Lemma filter_only {A} (p : A -> bool) (X : A) l :
  NoDup l -> In X l -> p X = true ->
  (forall f, In f l -> p f = true -> f = X) ->
  filter p l = [X].
Proof.
  induction l as [|y l IH]; intros Hnd Hin HpX Honly; [contradiction|].
  inversion Hnd as [|? ? Hnotin Hnd']; subst. simpl.
  destruct Hin as [-> | Hin].
  - rewrite HpX. f_equal.
    assert (Hnone : forall l', (forall f, In f l' -> In f l) -> filter p l' = []).
    { induction l' as [|z l' IH']; intros Hsub; simpl; [reflexivity|].
      destruct (p z) eqn:Ez.
      - exfalso. apply Hnotin.
        rewrite <- (Honly z (or_intror (Hsub z (or_introl eq_refl))) Ez).
        apply Hsub. left; reflexivity.
      - apply IH'. intros f Hf. apply Hsub. right; assumption. }
    apply Hnone. auto.
  - destruct (p y) eqn:Ey.
    + exfalso. apply Hnotin. rewrite (Honly y (or_introl eq_refl) Ey). assumption.
    + apply IH; auto. intros f Hf. apply Honly. right; assumption.
Qed.

Lemma node_modules_clean : clean Constants.NODE_MODULES = true.
Proof. reflexivity. Qed.

Lemma top_level_abs_path pieces :
  Forall (fun x => clean x = true) pieces -> ~ In "node_modules" pieces ->
  NodeModulesScanner.is_top_level (abs_path (pieces ++ ["node_modules"])) = true.
Proof.
  intros Hc Hnot. unfold NodeModulesScanner.is_top_level.
  rewrite dirname_abs_path_snoc by (assumption || reflexivity).
  apply negb_true_iff. destruct pieces as [|x l]; [reflexivity|].
  rewrite split_abs_path by (discriminate || assumption).
  apply includes_absent. intros [E | Hin]; [discriminate | contradiction].
Qed.

Section Outermost.
Variable m : Machine.
Variable onEnterDir : bool.
Variable R proj : list string.

Abbreviation root := (abs_path R).
Abbreviation outermost := (abs_path (R ++ proj ++ ["node_modules"])).

Hypothesis R_clean : Forall (fun x => clean x = true) R.
Hypothesis R_outside : ~ In "node_modules" R.
Hypothesis tree_well_formed : well_formed (tree_at m root).
Hypothesis reach :
  within_reach Constants.MAX_SCAN_DEPTH Constants.IGNORE_DIRS "node_modules"
    (tree_at m root) R 0 proj = true.

Lemma outermost_only found :
  BaseScanner.findDirectories m NodeModulesScanner.maxDepth
    NodeModulesScanner.ignorePatterns root Constants.NODE_MODULES None onEnterDir
  = inr found ->
  filter (at_or_below outermost) (filter NodeModulesScanner.is_top_level found)
  = [outermost].
Proof.
  unfold BaseScanner.findDirectories, walkDirectory.
  destruct (walk _ _ _ _ _ _ _ _ _) as [e | [fnd entered]] eqn:E; [discriminate|].
  intros H; injection H as <-.
  destruct (within_reach_clean _ _ _ _ _ _ _ tree_well_formed reach) as [Hproj Hnot].
  destruct (find_walk_found _ _ onEnterDir _ _ tree_well_formed
              _ _ _ _ R_clean E) as (new & Hnew & Hnd & Hall).
  simpl in Hnew. subst new.
  pose proof (find_walk_reaches _ _ onEnterDir _ node_modules_clean _ _ _ _ _ _
                tree_well_formed R_clean reach E) as Hin.
  simpl fst in Hin.
  assert (Hc : Forall (fun x => clean x = true) (R ++ proj)).
  { apply Forall_app; split; assumption. }
  assert (Hc' : Forall (fun x => clean x = true) (R ++ proj ++ ["node_modules"])).
  { rewrite app_assoc. apply Forall_app; split; [assumption | repeat constructor]. }
  apply filter_only.
  - apply NoDup_filter. assumption.
  - apply filter_In. split; [assumption|].
    rewrite app_assoc. apply top_level_abs_path; [assumption|].
    intros Hi. apply in_app_or in Hi as [Hi | Hi]; contradiction.
  - unfold at_or_below. rewrite String.eqb_refl. reflexivity.
  - intros f Hf Hbelow. apply filter_In in Hf as [Hf _].
    rewrite Forall_forall in Hall.
    destruct (Hall f Hf) as (ns & -> & Hns & Hlast & Hpre).
    unfold at_or_below in Hbelow. apply orb_true_iff in Hbelow as [Heq | Hunder].
    { apply String.eqb_eq in Heq. exact Heq. }
    exfalso. unfold strictly_under in Hunder.
    apply andb_true_iff in Hunder as [_ Hunder].
    rewrite !path_segments_abs_path in Hunder
      by (assumption || (apply Forall_app; split; assumption)).
    apply is_strict_prefix_inv in Hunder as (y & rest & Hex).
    rewrite <- !app_assoc in Hex. apply app_inv_head in Hex.
    apply (Hpre (proj ++ ["node_modules"])%list (y :: rest)).
    + rewrite Hex, <- app_assoc. reflexivity.
    + discriminate.
    + rewrite !app_assoc. apply last_last.
Qed.

End Outermost.

Section FindInvariant.
Variable maxDepth : nat.
Variable ignoreDirs : list string.
Variable skipDescendingInto : list string.
Variable onEnterDir : bool.
Variable target : string.

(** What holds of a path found from the directory [P] at depth [d]. *)
Variable Q : list string -> nat -> string -> Prop.
Hypothesis Q_here : forall P d,
  Forall (fun x => clean x = true) P ->
  d <= maxDepth -> ignored ignoreDirs (abs_path P) = false ->
  Path.basename (abs_path P) = target -> Q P d (abs_path P).
Hypothesis Q_below : forall P d name f,
  Forall (fun x => clean x = true) P -> clean name = true ->
  d <= maxDepth -> ignored ignoreDirs (abs_path P) = false ->
  Q (P ++ [name]) (S d) f -> Q P d f.

Abbreviation any_find_walk :=
  (walk maxDepth ignoreDirs skipDescendingInto onEnterDir
     (BaseScanner.found_callback target)).
Abbreviation any_find_entries :=
  (walk_entries maxDepth ignoreDirs skipDescendingInto onEnterDir
     (BaseScanner.found_callback target)).

Lemma find_entries_inv P d entries :
  Forall (fun x => clean x = true) P ->
  d <= maxDepth -> ignored ignoreDirs (abs_path P) = false ->
  Forall (fun e => clean (fst e) = true) entries ->
  Forall (fun e =>
            forall P' d' st st',
              Forall (fun x => clean x = true) P' ->
              any_find_walk (snd e) (abs_path P') d' st = inr st' ->
              exists new, fst st' = (fst st ++ new)%list /\ Forall (Q P' d') new) entries ->
  forall st st',
    any_find_entries (abs_path P) d entries st = inr st' ->
    exists new, fst st' = (fst st ++ new)%list /\ Forall (Q P d) new.
Proof.
  intros HP Hd Hi. induction entries as [|[name child] es IH]; intros Hclean Hall st st' E.
  - simpl in E. injection E as <-. exists []. rewrite app_nil_r. split; constructor.
  - inversion Hclean as [|? ? Hname Hclean']; subst.
    inversion Hall as [|? ? Hchild Hall']; subst.
    simpl in Hname, Hchild. simpl in E. rewrite join_abs_path in E by assumption.
    destruct (any_find_walk child (abs_path (P ++ [name])) (S d) st) as [e | st1] eqn:E1;
      [discriminate|].
    assert (HP1 : Forall (fun x => clean x = true) (P ++ [name])).
    { apply Forall_app; split; [assumption | repeat constructor; assumption]. }
    destruct (Hchild _ _ _ _ HP1 E1) as (new1 & Hst1 & Hall1).
    destruct (IH Hclean' Hall' st1 st' E) as (new2 & Hst2 & Hall2).
    exists (new1 ++ new2)%list. split.
    + rewrite Hst2, Hst1, app_assoc. reflexivity.
    + apply Forall_app; split; [|exact Hall2].
      eapply Forall_impl; [|exact Hall1]. intros f Hf.
      apply Q_below with (name := name); assumption.
Qed.

Lemma found_callback_directory (st : WalkState (A:=list string)) cur d :
  fst (visit (BaseScanner.found_callback target) (enter_dir onEnterDir st cur d) cur true)
  = if String.eqb (Path.basename cur) target then (fst st ++ [cur])%list else fst st.
Proof.
  unfold visit, enter_dir, BaseScanner.found_callback. simpl.
  destruct (onEnterDir && Nat.eqb d 1); reflexivity.
Qed.

Lemma find_walk_inv node :
  well_formed node ->
  forall P d st st',
    Forall (fun x => clean x = true) P ->
    any_find_walk node (abs_path P) d st = inr st' ->
    exists new, fst st' = (fst st ++ new)%list /\ Forall (Q P d) new.
Proof.
  induction node as [size | | | e | entries IH | e] using node_induction;
    intros Hwf P d st st' HP E.
  - simpl in E. destruct (Nat.ltb maxDepth d); injection E as <-;
      exists []; rewrite app_nil_r; split; constructor.
  - simpl in E. destruct (Nat.ltb maxDepth d); injection E as <-;
      exists []; rewrite app_nil_r; split; constructor.
  - simpl in E. destruct (Nat.ltb maxDepth d); injection E as <-;
      exists []; rewrite app_nil_r; split; constructor.
  - simpl in E. destruct (Nat.ltb maxDepth d); [|destruct (skipped_code e); [|discriminate]];
      injection E as <-; exists []; rewrite app_nil_r; split; constructor.
  - rewrite walk_dir in E.
    destruct (Nat.ltb maxDepth d) eqn:El;
      [injection E as <-; exists []; rewrite app_nil_r; split; constructor|].
    apply Nat.ltb_ge in El.
    destruct (ignored ignoreDirs (abs_path P)) eqn:Ei;
      [injection E as <-; exists []; rewrite app_nil_r; split; constructor|].
    cbv zeta in E.
    pose proof (found_callback_directory st (abs_path P) d) as Hv.
    assert (Hown : exists own,
               fst (visit (BaseScanner.found_callback target)
                      (enter_dir onEnterDir st (abs_path P) d) (abs_path P) true)
               = (fst st ++ own)%list /\ Forall (Q P d) own).
    { rewrite Hv. destruct (String.eqb (Path.basename (abs_path P)) target) eqn:Eb.
      - exists [abs_path P]. split; [reflexivity|]. constructor; [|constructor].
        apply Q_here; try assumption. apply String.eqb_eq. exact Eb.
      - exists []. rewrite app_nil_r. split; constructor. }
    destruct Hown as (own & Hown & Hq).
    destruct (Js.includes skipDescendingInto (Path.basename (abs_path P))).
    + injection E as <-. exists own. split; assumption.
    + destruct (well_formed_dir _ Hwf) as (Hclean & _ & Hall).
      assert (Hkids : Forall (fun e =>
                forall P' d' st0 st0',
                  Forall (fun x => clean x = true) P' ->
                  any_find_walk (snd e) (abs_path P') d' st0 = inr st0' ->
                  exists new, fst st0' = (fst st0 ++ new)%list
                              /\ Forall (Q P' d') new) entries).
      { rewrite Forall_forall in IH, Hall |- *. intros x Hx P' d' st0 st0' HP' E'.
        apply (IH x Hx (Hall x Hx) P' d' st0 st0' HP' E'). }
      destruct (find_entries_inv P d entries HP El Ei Hclean Hkids _ _ E)
        as (new & Hst & Hnew).
      exists (own ++ new)%list. split.
      * rewrite Hst, Hown, app_assoc. reflexivity.
      * apply Forall_app; split; assumption.
  - rewrite walk_unreadable in E.
    destruct (Nat.ltb maxDepth d) eqn:El;
      [injection E as <-; exists []; rewrite app_nil_r; split; constructor|].
    apply Nat.ltb_ge in El.
    destruct (ignored ignoreDirs (abs_path P)) eqn:Ei;
      [injection E as <-; exists []; rewrite app_nil_r; split; constructor|].
    cbv zeta in E.
    pose proof (found_callback_directory st (abs_path P) d) as Hv.
    assert (Hown : exists own,
               fst (visit (BaseScanner.found_callback target)
                      (enter_dir onEnterDir st (abs_path P) d) (abs_path P) true)
               = (fst st ++ own)%list /\ Forall (Q P d) own).
    { rewrite Hv. destruct (String.eqb (Path.basename (abs_path P)) target) eqn:Eb.
      - exists [abs_path P]. split; [reflexivity|]. constructor; [|constructor].
        apply Q_here; try assumption. apply String.eqb_eq. exact Eb.
      - exists []. rewrite app_nil_r. split; constructor. }
    destruct Hown as (own & Hown & Hq).
    destruct (Js.includes skipDescendingInto (Path.basename (abs_path P)));
      [injection E as <-; exists own; split; assumption|].
    destruct (skipped_code e); [|discriminate].
    injection E as <-. exists own. split; assumption.
Qed.

End FindInvariant.

(** A path found by the walk from [P] at depth [d] lies at most
    [maxDepth - d] levels below [P]. *)
Lemma find_walk_depth maxDepth ignoreDirs skipDescendingInto onEnterDir target node :
  well_formed node ->
  forall P d st st',
    Forall (fun x => clean x = true) P ->
    walk maxDepth ignoreDirs skipDescendingInto onEnterDir
      (BaseScanner.found_callback target) node (abs_path P) d st = inr st' ->
    exists new,
      fst st' = (fst st ++ new)%list
      /\ Forall (fun f => exists ns, f = abs_path (P ++ ns)
                                     /\ Forall (fun x => clean x = true) ns
                                     /\ d + length ns <= maxDepth) new.
Proof.
  apply (find_walk_inv maxDepth ignoreDirs skipDescendingInto onEnterDir target
           (fun P d f => exists ns, f = abs_path (P ++ ns)
                                    /\ Forall (fun x => clean x = true) ns
                                    /\ d + length ns <= maxDepth)).
  - intros P d HP Hd _ _. exists []. rewrite app_nil_r.
    repeat split; [constructor | simpl; lia].
  - intros P d name f HP Hname Hd _ (ns & -> & Hns & Hlen).
    exists (name :: ns). rewrite <- app_assoc.
    repeat split; [constructor; assumption | simpl in *; lia].
Qed.

(** ** The node_modules scanner *)

(** C8, as stated, fails: a project six levels below the scanned root is
    beyond the depth bound of the walk, and the result has no item for it. *)
Lemma nesting_claim_fails_beyond_max_depth :
  ~ (forall (m : Machine) (root : string) (project : list string),
        is_directory (subtree (tree_at m root)
                        (project ++ ["node_modules"; "pkg"; "node_modules"])%list) = true ->
        exists res,
          NodeModulesScanner.scan m root false = inr res
          /\ In (descend root (project ++ ["node_modules"])%list)
                (map si_path (sr_items res))).
Proof.
  intros H.
  destruct (H (machine_with_tree deep_tree) "/home/user" ["a"; "b"; "c"; "d"; "e"] eq_refl)
    as (res & E & Hin).
  vm_compute in E. injection E as <-. simpl in Hin. exact Hin.
Qed.

Lemma paths_of_items m dirs :
  map si_path (map (NodeModulesScanner.make_item m) dirs) = dirs.
Proof.
  induction dirs as [|d dirs IH]; simpl; [reflexivity|].
  rewrite IH. unfold NodeModulesScanner.make_item.
  destruct (BaseScanner.getMetadata m d). reflexivity.
Qed.

(** C8 (amended).  For every tree and every root, no item of the result
    of the node_modules scanner lies inside a node_modules directory: no
    piece of the parent directory of an item is [node_modules].  And
    whenever the outermost [node_modules] of a project is within the reach
    of the walk from the scanned root (at most 5 levels down, not ignored
    itself, under readable directories that are not ignored), the result
    of the scan has exactly one item at or below it: that directory
    itself.  A [node_modules] that lies more than 5 levels below the
    scanned root is no item. *)
Theorem node_modules_nesting_exclusion (m : Machine) (onEnterDir : bool) :
  (forall basePath res item,
      NodeModulesScanner.scan m basePath onEnterDir = inr res ->
      In item (sr_items res) ->
      Js.includes (Js.split_slash (Path.dirname (si_path item))) "node_modules" = false)
  /\ (forall (R proj : list string) res,
        Forall (fun x => clean x = true) R ->
        ~ In "node_modules" R ->
        well_formed (tree_at m (abs_path R)) ->
        within_reach Constants.MAX_SCAN_DEPTH Constants.IGNORE_DIRS "node_modules"
          (tree_at m (abs_path R)) R 0 proj = true ->
        NodeModulesScanner.scan m (abs_path R) onEnterDir = inr res ->
        filter (at_or_below (abs_path (R ++ proj ++ ["node_modules"])))
               (map si_path (sr_items res))
        = [abs_path (R ++ proj ++ ["node_modules"])])
  /\ (forall (R proj : list string) res,
        Forall (fun x => clean x = true) R ->
        Forall (fun x => clean x = true) proj ->
        well_formed (tree_at m (abs_path R)) ->
        Constants.MAX_SCAN_DEPTH < length (proj ++ ["node_modules"]) ->
        NodeModulesScanner.scan m (abs_path R) onEnterDir = inr res ->
        ~ In (abs_path (R ++ proj ++ ["node_modules"])) (map si_path (sr_items res))).
Proof.
  split; [|split].
  - intros basePath res item E Hin.
    unfold NodeModulesScanner.scan in E.
    destruct (BaseScanner.findDirectories _ _ _ _ _ _ _) as [e | dirs]; [discriminate|].
    injection E as <-. simpl in Hin.
    apply in_map_iff in Hin as (dir & <- & Hdir).
    apply filter_In in Hdir as [_ Htop].
    unfold NodeModulesScanner.is_top_level in Htop.
    apply negb_true_iff in Htop.
    unfold NodeModulesScanner.make_item.
    destruct (BaseScanner.getMetadata m dir). exact Htop.
  - intros R proj res HR Hout Hwf Hreach E.
    unfold NodeModulesScanner.scan in E.
    destruct (BaseScanner.findDirectories _ _ _ _ _ _ _) as [e | dirs] eqn:Ef;
      [discriminate|].
    injection E as <-. cbn [sr_items].
    rewrite paths_of_items.
    apply (outermost_only m onEnterDir R proj HR Hout Hwf Hreach dirs Ef).
  - intros R proj res HR Hproj Hwf Hdeep E Hin.
    unfold NodeModulesScanner.scan in E.
    destruct (BaseScanner.findDirectories _ _ _ _ _ _ _) as [e | dirs] eqn:Ef;
      [discriminate|].
    injection E as <-. cbn [sr_items] in Hin.
    rewrite paths_of_items in Hin. apply filter_In in Hin as [Hin _].
    unfold BaseScanner.findDirectories, walkDirectory in Ef.
    destruct (walk _ _ _ _ _ _ _ _ _) as [e | [fnd entered]] eqn:Ew; [discriminate|].
    injection Ef as <-.
    destruct (find_walk_depth _ _ _ _ _ _ Hwf R 0 _ _ HR Ew) as (new & Hnew & Hall).
    simpl in Hnew. subst new. rewrite Forall_forall in Hall.
    destruct (Hall _ Hin) as (ns & Eq & Hns & Hlen).
    apply abs_path_inj in Eq.
    + apply app_inv_head in Eq. subst ns.
      unfold NodeModulesScanner.maxDepth in Hlen. simpl in Hlen. lia.
    + apply Forall_app; split; [assumption|].
      apply Forall_app; split; [assumption | repeat constructor].
    + apply Forall_app; split; assumption.
Qed.

Lemma node_modules_nesting_exclusion_witness :
  filter (at_or_below "/home/user/proj/node_modules")
    (match NodeModulesScanner.scan
             (machine_with_tree
                (project_tree 2 [("pkg", Dir [("node_modules", Dir [])])]))
             "/home/user" false with
     | inr res => map si_path (sr_items res)
     | inl _ => []
     end)
  = ["/home/user/proj/node_modules"].
Proof.
  destruct (NodeModulesScanner.scan
              (machine_with_tree
                 (project_tree 2 [("pkg", Dir [("node_modules", Dir [])])]))
              "/home/user" false) as [e | res] eqn:E; [discriminate E|].
  apply (proj1 (proj2 (node_modules_nesting_exclusion
                         (machine_with_tree
                            (project_tree 2 [("pkg", Dir [("node_modules", Dir [])])]))
                         false)) ["home"; "user"] ["proj"] res).
  - repeat constructor.
  - simpl. intros [H | [H | []]]; discriminate H.
  - simpl. repeat split; repeat constructor; simpl; intuition discriminate.
  - reflexivity.
  - exact E.
Defined.

(** The tree of the specification, [home/proj/node_modules/pkg/node_modules]:
    one item, whatever the inner directory holds. *)
Example nested_node_modules_scan (m : Machine) (size : Z)
  (inside : list (string * Node)) (onEnterDir : bool) :
  tree_at m "/home/user" = project_tree size inside ->
  option_map (fun res => map si_path (sr_items res))
    (match NodeModulesScanner.scan m "/home/user" onEnterDir with
     | inr res => Some res
     | inl _ => None
     end)
  = Some ["/home/user/proj/node_modules"].
Proof.
  intros Htree. unfold NodeModulesScanner.scan, BaseScanner.findDirectories.
  rewrite Htree. unfold project_tree.
  assert (Hw : walkDirectory NodeModulesScanner.maxDepth
                 NodeModulesScanner.ignorePatterns [Constants.NODE_MODULES] onEnterDir
                 (BaseScanner.found_callback Constants.NODE_MODULES)
                 (Dir [("proj", Dir [("package.json", File size);
                                     ("node_modules", Dir inside)])])
                 "/home/user" []
               = inr (["/home/user/proj/node_modules"],
                      if onEnterDir then ["/home/user/proj"] else [])).
  { destruct onEnterDir; reflexivity. }
  rewrite Hw. cbn [option_map sr_items].
  change (filter NodeModulesScanner.is_top_level ["/home/user/proj/node_modules"])
    with ["/home/user/proj/node_modules"].
  rewrite paths_of_items. reflexivity.
Qed.

(** ** The Xcode scanner over several roots *)

Section Settles.
Context {S : Type}.

Lemma bind_status_settles {A B} (st : Async.Status S A) (f : A -> Async.Co S B) a b :
  settles st a -> returns (f a) b ->
  forall s, settles (snd (Async.bind_status st f s)) b.
Proof.
  intros Hst Hf. induction Hst as [a | resume a Hres IH]; intros s.
  - simpl. apply Hf.
  - simpl. apply settles_step. intros s'.
    specialize (IH s' Hf). destruct (resume s') as [s'' st']. simpl in *. apply IH.
Qed.

Lemma returns_bind {A B} (c : Async.Co S A) (f : A -> Async.Co S B) a b :
  returns c a -> returns (f a) b -> returns (Async.bind c f) b.
Proof.
  intros Hc Hf s. unfold Async.bind. specialize (Hc s).
  destruct (c s) as [s' st]. simpl in *. apply bind_status_settles with (a := a); assumption.
Qed.

Lemma returns_ret {A} (a : A) : returns (Async.ret (S:=S) a) a.
Proof. intros s. constructor. Qed.

Lemma returns_await {A} (v : A) : returns (Async.await (S:=S) v) v.
Proof. intros s. simpl. apply settles_step. intros s'. constructor. Qed.

Lemma returns_put (s0 : S) : returns (Async.put s0) tt.
Proof. intros s. constructor. Qed.

Lemma returns_for_of {A X} (body : A -> X -> Async.Co S A) (step : A -> X -> A) xs :
  (forall acc x, returns (body acc x) (step acc x)) ->
  forall acc, returns (Async.for_of xs body acc) (fold_left step xs acc).
Proof.
  intros Hbody. induction xs as [|x xs IH]; intros acc; simpl.
  - apply returns_ret.
  - eapply returns_bind; [apply Hbody | apply IH].
Qed.

Lemma resume_nth_settles {A} n (sts : list (Async.Status S A)) rs s :
  Forall2 settles sts rs -> Forall2 settles (snd (Async.resume_nth n sts s)) rs.
Proof.
  intros H. revert n s. induction H as [|st r sts rs Hst Hall IH]; intros n s.
  - destruct n; constructor.
  - destruct n as [|n].
    + destruct st as [a | resume]; simpl.
      * constructor; assumption.
      * inversion Hst as [|? ? Hres]; subst. specialize (Hres s).
        destruct (resume s) as [s' st']. simpl in *. constructor; assumption.
    + specialize (IH n s). destruct st; simpl;
        destruct (Async.resume_nth n sts s) as [s' rest']; simpl in *;
        constructor; assumption.
Qed.

Lemma drive_settles {A} schedule : forall (sts : list (Async.Status S A)) rs s,
  Forall2 settles sts rs -> Forall2 settles (snd (Async.drive schedule sts s)) rs.
Proof.
  induction schedule as [|n schedule IH]; intros sts rs s H; simpl; [assumption|].
  pose proof (resume_nth_settles n sts rs s H) as Hn.
  destruct (Async.resume_nth n sts s) as [s' sts']. simpl in Hn. apply IH; assumption.
Qed.

Lemma all_done_settles {A} (sts : list (Async.Status S A)) rs l :
  Forall2 settles sts rs -> Async.all_done sts = Some l -> l = rs.
Proof.
  intros H. revert l. induction H as [|st r sts rs Hst Hall IH]; intros l E.
  - simpl in E. injection E as <-. reflexivity.
  - simpl in E. destruct st as [a | resume]; [|discriminate].
    destruct (Async.all_done sts) as [l'|]; [|discriminate].
    injection E as <-. inversion Hst; subst. f_equal. apply IH. reflexivity.
Qed.

End Settles.

Section ScanValue.
Variable m : Machine.
Variable homeDir : string.
Variable onEnterDir : bool.

Abbreviation derived_step := (derived_step m homeDir).
Abbreviation build_step := (build_step m homeDir).
Abbreviation derived_items := (derived_items m homeDir).
Abbreviation first_scan_value := (first_scan_value m homeDir onEnterDir).
Abbreviation first_scan_result := (first_scan_result m homeDir onEnterDir).

Lemma derived_entry_returns items entry :
  returns (XcodeScanner.derived_entry m homeDir items entry) (derived_step items entry).
Proof.
  unfold XcodeScanner.derived_entry, derived_step. destruct (snd entry).
  - eapply returns_bind; [apply returns_await|].
    eapply returns_bind; [apply returns_await|]. apply returns_ret.
  - apply returns_ret.
Qed.

Lemma build_entry_returns items dir :
  returns (XcodeScanner.build_entry m homeDir items dir) (build_step items dir).
Proof.
  unfold XcodeScanner.build_entry, build_step.
  destruct (Js.startsWith dir _); [apply returns_ret|].
  destruct (XcodeScanner.isXcodeProject m _); [|apply returns_ret].
  eapply returns_bind; [apply returns_await|].
  eapply returns_bind; [apply returns_await|]. apply returns_ret.
Qed.

Lemma settles_bind_get {S B} (f : S -> Async.Co S B) b s :
  settles (snd (f s s)) b -> settles (snd (Async.bind Async.get f s)) b.
Proof. intros H. exact H. Qed.

Lemma settles_bind_from {S A B} (c : Async.Co S A) (f : A -> Async.Co S B) a b s :
  settles (snd (c s)) a -> returns (f a) b -> settles (snd (Async.bind c f s)) b.
Proof.
  intros Hc Hf. unfold Async.bind. destruct (c s) as [s' st]. simpl in *.
  apply bind_status_settles with (a := a); assumption.
Qed.

Lemma derived_items_returns :
  returns
    (if pathExists m (XcodeScanner.derivedDataPath homeDir) then
       Async.bind (Async.put (XcodeScanner.mkInstance true))
         (fun _ =>
            match readdirSync m (XcodeScanner.derivedDataPath homeDir) with
            | inr entries =>
                Async.for_of entries (XcodeScanner.derived_entry m homeDir) []
            | inl _ => Async.ret []
            end)
     else Async.ret [])
    derived_items.
Proof.
  unfold derived_items. destruct (pathExists m _); [|apply returns_ret].
  eapply returns_bind; [apply returns_put|].
  destruct (readdirSync m _) as [e | entries]; [apply returns_ret|].
  apply returns_for_of. apply derived_entry_returns.
Qed.

(** A scan started on a fresh instance leaves [globalScanned] unset when
    it is suspended, and returns the items of the global cache whatever
    the instance holds when it is resumed. *)
Lemma first_scan basePath :
  fst (Scanners.catch_empty (XcodeScanner.scan m homeDir basePath onEnterDir)
         XcodeScanner.new) = XcodeScanner.new
  /\ settles (snd (Scanners.catch_empty (XcodeScanner.scan m homeDir basePath onEnterDir)
                     XcodeScanner.new))
             (first_scan_result basePath).
Proof.
  split; [reflexivity|].
  unfold Scanners.catch_empty.
  apply settles_bind_from with (a := first_scan_value basePath).
  - unfold XcodeScanner.scan. apply settles_bind_get.
    cbn [XcodeScanner.globalScanned XcodeScanner.new negb].
    eapply settles_bind_from; [apply returns_await|].
    eapply returns_bind; [apply derived_items_returns|].
    eapply returns_bind; [apply returns_await|].
    unfold first_scan_value.
    destruct (BaseScanner.findDirectories _ _ _ _ _ _ _) as [e | dirs];
      [apply returns_ret|].
    eapply returns_bind; [apply returns_for_of; apply build_entry_returns|].
    apply returns_ret.
  - unfold first_scan_result.
    destruct (first_scan_value basePath); apply returns_ret.
Qed.

(** All the scans of a run start on the fresh instance: when [runAllScans]
    has started them, [globalScanned] is still unset and each of them is
    going to return the items of the global cache. *)
Lemma scans_started paths :
  fst (Async.start_all
         (map (fun p => Scanners.catch_empty (XcodeScanner.scan m homeDir p onEnterDir))
              paths) XcodeScanner.new) = XcodeScanner.new
  /\ Forall2 settles
       (snd (Async.start_all
               (map (fun p => Scanners.catch_empty
                                (XcodeScanner.scan m homeDir p onEnterDir)) paths)
               XcodeScanner.new))
       (map first_scan_result paths).
Proof.
  induction paths as [|p paths [IHs IHl]]; [split; [reflexivity | constructor]|].
  destruct (first_scan p) as [Hs Hl].
  cbn [map Async.start_all].
  destruct (Scanners.catch_empty (XcodeScanner.scan m homeDir p onEnterDir)
              XcodeScanner.new) as [s1 st] eqn:E1.
  simpl in Hs, Hl. subst s1.
  destruct (Async.start_all _ XcodeScanner.new) as [s2 sts] eqn:E2.
  simpl in IHs, IHl. subst s2. split; [reflexivity|].
  constructor; assumption.
Qed.

Lemma run_scans_result paths schedule res :
  Scanners.runXcodeScans m homeDir paths onEnterDir schedule = Some res ->
  res = Scanners.mergeResults (map first_scan_result paths) "xcode_build".
Proof.
  unfold Scanners.runXcodeScans, Async.promise_all.
  destruct (scans_started paths) as [Hs Hl].
  destruct (Async.start_all _ XcodeScanner.new) as [s1 sts]. simpl in Hs, Hl. subst s1.
  pose proof (drive_settles schedule sts _ XcodeScanner.new Hl) as Hd.
  destruct (Async.drive schedule sts XcodeScanner.new) as [s2 sts']. simpl in Hd.
  destruct (Async.all_done sts') as [l|] eqn:Ea; [|discriminate].
  apply (all_done_settles _ _ _ Hd) in Ea. subst l.
  intros H; injection H as <-. reflexivity.
Qed.

Lemma derived_step_appends entries : forall acc,
  exists more, fold_left derived_step entries acc = (acc ++ more)%list.
Proof.
  induction entries as [|e entries IH]; intros acc; simpl.
  - exists []. rewrite app_nil_r. reflexivity.
  - unfold derived_step at 2. destruct (snd e); [|apply IH]. cbv zeta.
    edestruct IH as [more Hm]. rewrite Hm.
    eexists. rewrite <- app_assoc. reflexivity.
Qed.

Lemma build_step_appends dirs : forall acc,
  exists more, fold_left build_step dirs acc = (acc ++ more)%list.
Proof.
  induction dirs as [|d dirs IH]; intros acc; simpl.
  - exists []. rewrite app_nil_r. reflexivity.
  - unfold build_step at 2. destruct (Js.startsWith d _); [apply IH|].
    destruct (XcodeScanner.isXcodeProject m _); [|apply IH].
    edestruct IH as [more Hm]. rewrite Hm.
    eexists. rewrite <- app_assoc. reflexivity.
Qed.

Lemma derived_child_listed entries child : forall acc,
  In (child, true) entries ->
  In (Path.join (XcodeScanner.derivedDataPath homeDir) child)
     (map si_path (fold_left derived_step entries acc)).
Proof.
  induction entries as [|e entries IH]; intros acc Hin; [contradiction|].
  simpl. destruct Hin as [-> | Hin]; [|apply IH; assumption].
  unfold derived_step at 2. simpl snd. cbv iota. simpl fst. cbv zeta.
  edestruct derived_step_appends as [more Hm]. rewrite Hm.
  rewrite !map_app. apply in_or_app. left. apply in_or_app. right. left. reflexivity.
Qed.

End ScanValue.

(** C7.  One scanner instance over several roots: when the global
    DerivedData directory exists and holds a directory [child], and the
    walk of every root succeeds, then whatever the order in which the
    event loop resumes the scans, [child] is among the merged items at
    least once per root. *)
Theorem xcode_global_cache_scanned_per_root (m : Machine) (homeDir : string)
  (onEnterDir : bool) (paths : list string) (schedule : list nat) (res : ScanResult)
  (entries : list (string * bool)) (child : string) :
  pathExists m (XcodeScanner.derivedDataPath homeDir) = true ->
  readdirSync m (XcodeScanner.derivedDataPath homeDir) = inr entries ->
  In (child, true) entries ->
  (forall p, In p paths ->
     exists dirs,
       BaseScanner.findDirectories m XcodeScanner.maxDepth XcodeScanner.ignorePatterns
         p "build" None onEnterDir = inr dirs) ->
  Scanners.runXcodeScans m homeDir paths onEnterDir schedule = Some res ->
  length paths
  <= count_occ string_dec (map si_path (sr_items res))
       (Path.join (XcodeScanner.derivedDataPath homeDir) child).
Proof.
  intros Hexists Hread Hchild Hwalks Hrun.
  apply run_scans_result in Hrun. subst res.
  unfold Scanners.mergeResults. cbn [sr_items].
  induction paths as [|p paths IH]; [simpl; lia|].
  cbn [map flat_map length]. rewrite map_app, count_occ_app.
  assert (Hone : 1 <= count_occ string_dec
                        (map si_path (sr_items (first_scan_result m homeDir onEnterDir p)))
                        (Path.join (XcodeScanner.derivedDataPath homeDir) child)).
  { apply count_occ_In.
    unfold first_scan_result, first_scan_value.
    destruct (Hwalks p (or_introl eq_refl)) as [dirs ->].
    cbn [sr_items].
    destruct (build_step_appends m homeDir dirs (derived_items m homeDir)) as [more ->].
    rewrite map_app. apply in_or_app. left.
    unfold derived_items. rewrite Hexists, Hread.
    apply derived_child_listed. assumption. }
  assert (Hrest : length paths
                  <= count_occ string_dec
                       (map si_path
                          (flat_map sr_items
                             (map (first_scan_result m homeDir onEnterDir) paths)))
                       (Path.join (XcodeScanner.derivedDataPath homeDir) child)).
  { apply IH. intros q Hq. apply Hwalks. right; assumption. }
  lia.
Qed.

Lemma xcode_global_cache_scanned_per_root_witness :
  2 <= count_occ string_dec
         (map si_path
            (match Scanners.runXcodeScans xcode_machine "/home/testuser" two_roots false
                     [0; 1; 0; 1; 0; 1; 0; 1] with
             | Some res => sr_items res
             | None => []
             end))
         (derived_data ++ "/App-abc").
Proof.
  destruct (Scanners.runXcodeScans xcode_machine "/home/testuser" two_roots false
              [0; 1; 0; 1; 0; 1; 0; 1]) as [res|] eqn:E; [|discriminate E].
  apply (xcode_global_cache_scanned_per_root xcode_machine "/home/testuser" false
           two_roots [0; 1; 0; 1; 0; 1; 0; 1] res
           [("App-abc", true); ("info.plist", false)] "App-abc").
  - reflexivity.
  - reflexivity.
  - left. reflexivity.
  - intros p [<- | [<- | []]]; eexists; reflexivity.
  - exact E.
Defined.

(** Two roots, two orders of the event loop: the project directory of the
    global cache is twice among the merged items. *)
Example xcode_two_roots :
  option_map (fun res => (map si_path (sr_items res), sr_count res))
    (Scanners.runXcodeScans xcode_machine "/home/testuser" two_roots false
       [0; 1; 0; 1; 0; 1; 0; 1])
  = Some ([derived_data ++ "/App-abc"; derived_data ++ "/App-abc"], 2)
  /\ option_map (fun res => (map si_path (sr_items res), sr_count res))
       (Scanners.runXcodeScans xcode_machine "/home/testuser" two_roots false
          [1; 1; 1; 1; 0; 0; 0; 0])
     = Some ([derived_data ++ "/App-abc"; derived_data ++ "/App-abc"], 2).
Proof. split; reflexivity. Qed.

(** A [build] directory whose path begins with the path of the global
    cache is left out of the results of a root, without a suspension. *)
Lemma build_inside_cache_skipped (m : Machine) (homeDir dir : string)
  (items : list ScanItem) (s : XcodeScanner.Instance) :
  Js.startsWith dir (XcodeScanner.derivedDataPath homeDir) = true ->
  XcodeScanner.build_entry m homeDir items dir s = (s, Async.Done items).
Proof.
  intros H. unfold XcodeScanner.build_entry. rewrite H. reflexivity.
Qed.

(** With one root the DerivedData project appears once. *)
Example xcode_one_root :
  option_map (fun res => map si_path (sr_items res))
    (Scanners.runXcodeScans xcode_machine "/home/testuser" ["/home/testuser/a"] false
       [0; 0; 0; 0])
  = Some [derived_data ++ "/App-abc"].
Proof. reflexivity. Qed.

(* ===================================================================== *)
(** * Part IV.  Further properties of the code                             *)
(* ===================================================================== *)

Section ExecutorTrace.
Import Cleaner.
Context {W : Type}.
Variable cwd : string.
Variable homedir : string.
Variable trash : W -> string -> W * option JsError.

Abbreviation validate := (SafeDelete.validatePathForDeletion cwd homedir).
Abbreviation cleanup_item := (Cleaner.cleanup_item cwd homedir trash).

(** The trash calls of one turn of the loop. *)
Lemma cleanup_item_trash_calls dryRun acc item s r :
  In (CallTrash r) (Eff.trace (fst (cleanup_item dryRun acc item s))) ->
  In (CallTrash r) (Eff.trace s)
  \/ (dryRun = false /\ r = Path.resolve cwd (t_path item)
      /\ validate (t_path item) = inr tt).
Proof.
  destruct acc as [totalFreed results].
  unfold Cleaner.cleanup_item, SafeDeleteEff.safeDelete, Eff.try_catch, Eff.bind,
    Eff.emit, Eff.lift, Eff.ret, Eff.throw, SafeDeleteEff.call_trash.
  destruct dryRun.
  - simpl. intros H. apply in_app_or in H as [H | [H | []]]; [left; exact H | discriminate H].
  - simpl Eff.world. simpl Eff.trace.
    destruct (validate (t_path item)) as [e | []] eqn:Ev.
    + simpl. intros H. apply in_app_or in H as [H | [H | []]]; [|discriminate H].
      apply in_app_or in H as [H | [H | []]]; [left; exact H | discriminate H].
    + assert (Hcall : forall tail,
                 (forall ev, In ev tail -> forall p, ev <> CallTrash p) ->
                 In (CallTrash r)
                   (((Eff.trace s ++ [CallValidate (t_path item)])
                       ++ [CallTrash (Path.resolve cwd (t_path item))]) ++ tail) ->
                 In (CallTrash r) (Eff.trace s)
                 \/ r = Path.resolve cwd (t_path item)).
      { intros tail Htail H.
        apply in_app_or in H as [H | H]; [|exfalso; exact (Htail _ H r eq_refl)].
        apply in_app_or in H as [H | [H | []]].
        - apply in_app_or in H as [H | [H | []]]; [left; exact H | discriminate H].
        - injection H as <-. right. reflexivity. }
      assert (Hdone : forall tail,
                 (forall ev, In ev tail -> forall p, ev <> CallTrash p) ->
                 In (CallTrash r)
                   (((Eff.trace s ++ [CallValidate (t_path item)])
                       ++ [CallTrash (Path.resolve cwd (t_path item))]) ++ tail) ->
                 In (CallTrash r) (Eff.trace s)
                 \/ (false = false /\ r = Path.resolve cwd (t_path item)
                     /\ @inr JsError unit tt = inr tt)).
      { intros tail Htail H. destruct (Hcall tail Htail H) as [H0 | Hr];
          [left; exact H0 | right; repeat split; exact Hr]. }
      destruct (trash (Eff.world s) (Path.resolve cwd (t_path item)))
        as [w' [err|]] eqn:Et.
      * destruct (code_is err "EACCES"); [|destruct (code_is err "ENOENT")]; simpl;
          intros H.
        -- refine (Hdone _ _ H). intros ev [<- | []] p; discriminate.
        -- apply (Hdone []); [intros ev []|]. rewrite app_nil_r. exact H.
        -- refine (Hdone _ _ H). intros ev [<- | []] p; discriminate.
      * simpl. intros H. apply (Hdone []); [intros ev []|]. rewrite app_nil_r. exact H.
Qed.

(** One turn of the loop always returns. *)
Lemma cleanup_item_returns dryRun acc item s :
  exists s' acc', cleanup_item dryRun acc item s = (s', inr acc').
Proof.
  destruct acc as [totalFreed results]. destruct dryRun.
  - unfold Cleaner.cleanup_item, Eff.try_catch, Eff.bind, Eff.emit, Eff.ret. simpl.
    eexists _, _. reflexivity.
  - destruct (cleanup_item_wet cwd homedir trash totalFreed results item s)
      as (w' & o & tr & E & _).
    rewrite E. eexists _, _. reflexivity.
Qed.

(** The trash calls of the loop. *)
Lemma cleanup_loop_trash_calls dryRun items r : forall acc s,
  In (CallTrash r) (Eff.trace (fst (Eff.for_of items (cleanup_item dryRun) acc s))) ->
  In (CallTrash r) (Eff.trace s)
  \/ (dryRun = false
      /\ exists item, In item items /\ r = Path.resolve cwd (t_path item)
                      /\ validate (t_path item) = inr tt).
Proof.
  induction items as [|item items IH]; intros acc s H.
  - left. exact H.
  - rewrite for_of_cons in H.
    destruct (cleanup_item_returns dryRun acc item s) as (s1 & acc1 & E1).
    pose proof (cleanup_item_trash_calls dryRun acc item s r) as Hitem.
    rewrite E1 in H, Hitem. simpl fst in Hitem.
    destruct (IH acc1 s1 H) as [H1 | (Hd & it & Hin & Hr & Hv)].
    + destruct (Hitem H1) as [H0 | (Hd & Hr & Hv)]; [left; exact H0|].
      right. split; [exact Hd|]. exists item. repeat split; [left; reflexivity | exact Hr | exact Hv].
    + right. split; [exact Hd|]. exists it. repeat split; [right; exact Hin | exact Hr | exact Hv].
Qed.

(** What one turn of the loop adds to the loop variables. *)
Lemma cleanup_item_freed dryRun totalFreed results item s :
  exists s' o,
    cleanup_item dryRun (totalFreed, results) item s
    = (s', inr ((totalFreed + freed_by [o])%Z, (results ++ [o])%list))
    /\ (o_success o = false -> o_size o = None /\ o_error o <> None)
    /\ (freed_by [o] = t_size item \/ freed_by [o] = 0%Z).
Proof.
  destruct dryRun.
  - unfold Cleaner.cleanup_item, Eff.try_catch, Eff.bind, Eff.emit, Eff.ret. simpl.
    eexists _, (mkOutcome (t_path item) (Some (t_size item)) true None).
    split; [unfold freed_by; simpl; rewrite Z.add_0_r; reflexivity|].
    split; [simpl; discriminate|].
    left. unfold freed_by. simpl. apply Z.add_0_r.
  - destruct (cleanup_item_wet cwd homedir trash totalFreed results item s)
      as (w' & o & tr & E & Ho).
    rewrite E. clear E.
    destruct Ho;
      match goal with
      | |- exists s' o, (_, inr (_, (_ ++ [?x])%list)) = _ /\ _ => eexists _, x
      end;
      (split; [unfold freed_by; simpl; rewrite ?Z.add_0_r; reflexivity|]);
      (split;
       [simpl; intros Hfail; try discriminate Hfail; split; (reflexivity || discriminate)
       |unfold freed_by; simpl; rewrite ?Z.add_0_r; auto]).
Qed.

Lemma freed_by_app os1 os2 : freed_by (os1 ++ os2) = (freed_by os1 + freed_by os2)%Z.
Proof.
  unfold freed_by. induction os1 as [|o os1 IH]; simpl; [reflexivity|].
  rewrite IH. lia.
Qed.

Lemma cleanup_loop_freed dryRun items : forall totalFreed results s,
  exists s' os,
    Eff.for_of items (cleanup_item dryRun) (totalFreed, results) s
    = (s', inr ((totalFreed + freed_by os)%Z, (results ++ os)%list))
    /\ Forall (fun o => o_success o = false -> o_size o = None /\ o_error o <> None) os
    /\ (Forall (fun n => (0 <= n)%Z) (map t_size items) ->
        (0 <= freed_by os <= fold_right Z.add 0 (map t_size items))%Z).
Proof.
  induction items as [|item items IH]; intros totalFreed results s.
  - exists s, []. simpl. unfold Eff.ret. rewrite app_nil_r, Z.add_0_r.
    split; [reflexivity|]. split; [constructor|]. intros _. unfold freed_by. simpl. lia.
  - destruct (cleanup_item_freed dryRun totalFreed results item s)
      as (s1 & o & E1 & Ho & Hsize).
    rewrite for_of_cons, E1.
    destruct (IH (totalFreed + freed_by [o])%Z (results ++ [o])%list s1)
      as (s2 & os & E2 & Hos & Hsum).
    rewrite E2. exists s2, (o :: os). split; [|split].
    + change (o :: os) with ([o] ++ os)%list.
      rewrite freed_by_app, app_assoc, Z.add_assoc. reflexivity.
    + constructor; assumption.
    + intros Hpos. simpl in Hpos. inversion Hpos as [|? ? Hitem Hrest]; subst.
      specialize (Hsum Hrest).
      change (o :: os) with ([o] ++ os)%list. rewrite freed_by_app.
      simpl fold_right. destruct Hsize as [-> | ->]; lia.
Qed.

End ExecutorTrace.

(** X1.  Whatever is selected, [performCleanup] hands to the trash
    primitive only paths that passed the safety gate: every call
    [trash([r])] it makes is made in a run that is not a dry run, for the
    resolved path of one of the deduplicated items, and the gate accepted
    that item; so [r] begins with the home directory, is not the home
    directory and is none of the protected directories. *)
Theorem cleanup_trashes_only_validated_paths {W : Type} (cwd homedir : string)
  (trash : W -> string -> W * option JsError) (w : W)
  (selections : list Cleaner.Selection) (dryRun : bool) (r : string) :
  In (CallTrash r)
     (Eff.trace (fst (Cleaner.run_performCleanup cwd homedir trash w selections dryRun))) ->
  dryRun = false
  /\ (exists item,
        In item (Cleaner.flattenAndDedupe selections)
        /\ r = Path.resolve cwd (Cleaner.t_path item)
        /\ SafeDelete.validatePathForDeletion cwd homedir (Cleaner.t_path item) = inr tt)
  /\ Js.startsWith r (Path.resolve cwd homedir) = true
  /\ r <> Path.resolve cwd homedir
  /\ ~ In r (SafeDelete.getProtectedPaths cwd homedir).
Proof.
  intros H.
  unfold Cleaner.run_performCleanup, Cleaner.performCleanup in H. cbv zeta in H.
  unfold Eff.bind in H.
  destruct (cleanup_loop_freed cwd homedir trash dryRun
              (Cleaner.flattenAndDedupe selections) 0%Z [] (Eff.mkState w []))
    as (s' & os & E & _ & _).
  pose proof (cleanup_loop_trash_calls cwd homedir trash dryRun
                (Cleaner.flattenAndDedupe selections) r (0%Z, []) (Eff.mkState w [])) as Hl.
  rewrite E in H, Hl. simpl in H, Hl.
  destruct (Hl H) as [[] | (Hd & item & Hin & Hr & Hv)].
  split; [exact Hd|]. split; [exists item; repeat split; assumption|].
  unfold SafeDelete.validatePathForDeletion in Hv. cbv zeta in Hv. rewrite <- Hr in Hv.
  destruct (String.eqb (Cleaner.t_path item) "" || _ || _); [discriminate Hv|].
  destruct (negb (Js.startsWith r (Path.resolve cwd homedir))
            || String.eqb r (Path.resolve cwd homedir)) eqn:E1; [discriminate Hv|].
  destruct (existsb (fun p => String.eqb r p) _) eqn:Ex; [discriminate Hv|].
  apply orb_false_iff in E1 as [Es Eh].
  apply negb_false_iff in Es. apply String.eqb_neq in Eh.
  repeat split; [exact Es | exact Eh |].
  intros Hp. apply not_true_iff_false in Ex. apply Ex.
  apply existsb_exists. exists r. split; [|apply String.eqb_refl].
  apply filter_In. split; [exact Hp|].
  apply negb_true_iff, String.eqb_neq. exact Eh.
Qed.

Lemma cleanup_trashes_only_validated_paths_witness :
  "/home/testuser/proj/node_modules"
  = Path.resolve "/home/testuser" "/home/testuser/proj/node_modules"
  /\ ~ In "/home/testuser/proj/node_modules"
          (SafeDelete.getProtectedPaths "/home/testuser" "/home/testuser").
Proof.
  pose proof (cleanup_trashes_only_validated_paths "/home/testuser" "/home/testuser"
                counting_trash 0
                [Cleaner.mkSelection "node_modules"
                   (Some [Cleaner.mkItem "/home/testuser/proj/node_modules" (Some 5%Z) None])]
                false "/home/testuser/proj/node_modules") as H.
  destruct H as (_ & _ & _ & _ & Hp).
  - simpl. right. left. reflexivity.
  - split; [reflexivity | exact Hp].
Defined.

(** X2.  When the sizes of the deduplicated items are whole numbers
    from 0 whose sum is a safe integer, so that the additions of the code
    round nothing, the [totalFreed] that [performCleanup] returns, in a
    dry run or not, is the sum of the sizes of the results it reports as
    successes, and it is a safe integer; every result it reports as a
    failure carries an error message and no size. *)
Theorem cleanup_total_is_sum_of_successes {W : Type} (cwd homedir : string)
  (trash : W -> string -> W * option JsError) (w : W)
  (selections : list Cleaner.Selection) (dryRun : bool) :
  exact_bytes (map Cleaner.t_size (Cleaner.flattenAndDedupe selections)) ->
  exists s' res,
    Cleaner.run_performCleanup cwd homedir trash w selections dryRun = (s', inr res)
    /\ Cleaner.totalFreed res = freed_by (Cleaner.results res)
    /\ (0 <= Cleaner.totalFreed res <= MAX_SAFE_INTEGER)%Z
    /\ Forall (fun o => Cleaner.o_success o = false ->
                        Cleaner.o_size o = None /\ Cleaner.o_error o <> None)
              (Cleaner.results res).
Proof.
  intros [Hpos Hmax].
  unfold Cleaner.run_performCleanup, Cleaner.performCleanup. cbv zeta. unfold Eff.bind.
  destruct (cleanup_loop_freed cwd homedir trash dryRun
              (Cleaner.flattenAndDedupe selections) 0%Z [] (Eff.mkState w []))
    as (s' & os & E & Hos & Hsum).
  rewrite E. eexists _, _. split; [reflexivity|]. simpl.
  split; [reflexivity|]. split; [|exact Hos].
  specialize (Hsum Hpos). lia.
Qed.

Lemma cleanup_total_is_sum_of_successes_witness :
  exists s' res,
    Cleaner.run_performCleanup "/home/testuser" "/home/testuser" counting_trash 0
      [Cleaner.mkSelection "node_modules"
         (Some [Cleaner.mkItem "/home/testuser/proj/node_modules" (Some 5%Z) None;
               Cleaner.mkItem "/home/testuser/.ssh" (Some 7%Z) None])]
      false = (s', inr res)
    /\ Cleaner.totalFreed res = freed_by (Cleaner.results res)
    /\ (0 <= Cleaner.totalFreed res <= MAX_SAFE_INTEGER)%Z
    /\ Forall (fun o => Cleaner.o_success o = false ->
                        Cleaner.o_size o = None /\ Cleaner.o_error o <> None)
              (Cleaner.results res).
Proof.
  apply (cleanup_total_is_sum_of_successes "/home/testuser" "/home/testuser"
           counting_trash 0
           [Cleaner.mkSelection "node_modules"
              (Some [Cleaner.mkItem "/home/testuser/proj/node_modules" (Some 5%Z) None;
                    Cleaner.mkItem "/home/testuser/.ssh" (Some 7%Z) None])]
           false).
  split; [repeat constructor; discriminate | vm_compute; discriminate].
Defined.

Lemma errors_of_dir entries :
  errors_of (Dir entries) = flat_map (fun e => errors_of (snd e)) entries.
Proof.
  simpl. induction entries as [|[name child] es IH]; [reflexivity|].
  simpl. rewrite IH. reflexivity.
Qed.

Section WalkErrors.
Context {A : Type}.
Variable maxDepth : nat.
Variable ignoreDirs : list string.
Variable skipDescendingInto : list string.
Variable onEnterDir : bool.
Variable callback : A -> string -> Stats -> A.

Abbreviation the_walk :=
  (walk maxDepth ignoreDirs skipDescendingInto onEnterDir callback).
Abbreviation the_entries :=
  (walk_entries maxDepth ignoreDirs skipDescendingInto onEnterDir callback).






End WalkErrors.


Section CallbackErrors.
Context {A : Type}.
Variable maxDepth : nat.
Variable ignoreDirs : list string.
Variable skipDescendingInto : list string.
Variable onEnterDir : bool.
Variable callback : A -> string -> Stats -> Result A.

Abbreviation cb_walk :=
  (CallbackWalk.walk maxDepth ignoreDirs skipDescendingInto onEnterDir callback).
Abbreviation cb_entries :=
  (callback_walk_entries maxDepth ignoreDirs skipDescendingInto onEnterDir callback).

Lemma callback_walk_dir entries currentPath depth st :
  cb_walk (Dir entries) currentPath depth st
  = if Nat.ltb maxDepth depth then inr st
    else if ignored ignoreDirs currentPath then inr st
    else
      match CallbackWalk.visit callback (enter_dir onEnterDir st currentPath depth)
              currentPath true with
      | inl err => inl err
      | inr st1 =>
          if Js.includes skipDescendingInto (Path.basename currentPath) then inr st1
          else cb_entries currentPath depth entries st1
      end.
Proof.
  simpl. destruct (Nat.ltb maxDepth depth); [reflexivity|].
  destruct (ignored ignoreDirs currentPath); [reflexivity|].
  destruct (CallbackWalk.visit callback _ currentPath true) as [err | st1]; [reflexivity|].
  destruct (Js.includes skipDescendingInto (Path.basename currentPath)); [reflexivity|].
  revert st1. induction entries as [|[entry child] es IH]; intros w; [reflexivity|].
  simpl. destruct (CallbackWalk.walk _ _ _ _ _ child _ _ w); [reflexivity | apply IH].
Qed.

Lemma visit_throws st cur isDir e :
  CallbackWalk.visit callback st cur isDir = inl e -> thrown_by callback e.
Proof.
  unfold CallbackWalk.visit. intros H.
  destruct (callback (fst st) cur (mkStats isDir)) as [err | a] eqn:E; [|discriminate H].
  injection H as <-. exists (fst st), cur, (mkStats isDir). exact E.
Qed.

Lemma callback_entries_throws cur d entries :
  Forall (fun x => forall cur' d' st e,
            cb_walk (snd x) cur' d' st = inl e ->
            (In e (errors_of (snd x)) /\ skipped_code e = false)
            \/ thrown_by callback e) entries ->
  forall st e,
    cb_entries cur d entries st = inl e ->
    (In e (flat_map (fun x => errors_of (snd x)) entries) /\ skipped_code e = false)
    \/ thrown_by callback e.
Proof.
  induction entries as [|[name child] es IH]; intros Hall st e E; [discriminate E|].
  inversion Hall as [|? ? Hchild Hall']; subst. simpl in Hchild.
  simpl in E. simpl flat_map.
  destruct (cb_walk child (Path.join cur name) (S d) st) as [e1 | st1] eqn:E1.
  - injection E as <-. destruct (Hchild _ _ _ _ E1) as [[Hin Hs] | Hcb]; [left | right; exact Hcb].
    split; [apply in_or_app; left; exact Hin | exact Hs].
  - destruct (IH Hall' st1 e E) as [[Hin Hs] | Hcb]; [left | right; exact Hcb].
    split; [apply in_or_app; right; exact Hin | exact Hs].
Qed.

(** An error the walk rejects with is one that [lstat] or [readdir]
    threw in the tree, with a code other than [EACCES] and [ENOENT], or
    one the callback failed with. *)
Lemma callback_walk_throws node : forall cur d st e,
  cb_walk node cur d st = inl e ->
  (In e (errors_of node) /\ skipped_code e = false) \/ thrown_by callback e.
Proof.
  induction node as [size | | | e0 | entries IH | e0] using node_induction;
    intros cur d st e E.
  - simpl in E. destruct (Nat.ltb maxDepth d); [discriminate E|].
    right. eapply visit_throws. exact E.
  - simpl in E. destruct (Nat.ltb maxDepth d); discriminate E.
  - simpl in E. destruct (Nat.ltb maxDepth d); discriminate E.
  - simpl in E. destruct (Nat.ltb maxDepth d); [discriminate E|].
    destruct (skipped_code e0) eqn:Es; [discriminate E|].
    injection E as <-. left. split; [left; reflexivity | exact Es].
  - rewrite callback_walk_dir in E. rewrite errors_of_dir.
    destruct (Nat.ltb maxDepth d); [discriminate E|].
    destruct (ignored ignoreDirs cur); [discriminate E|].
    destruct (CallbackWalk.visit callback _ cur true) as [err | st1] eqn:Ev.
    + injection E as <-. right. eapply visit_throws. exact Ev.
    + destruct (Js.includes skipDescendingInto (Path.basename cur)); [discriminate E|].
      eapply callback_entries_throws; [|exact E].
      eapply Forall_impl; [|exact IH]. intros x Hx. exact Hx.
  - simpl in E.
    destruct (Nat.ltb maxDepth d); [discriminate E|].
    destruct (ignored ignoreDirs cur); [discriminate E|].
    destruct (CallbackWalk.visit callback _ cur true) as [err | st1] eqn:Ev.
    + injection E as <-. right. eapply visit_throws. exact Ev.
    + destruct (Js.includes skipDescendingInto (Path.basename cur)); [discriminate E|].
      destruct (skipped_code e0) eqn:Es; [discriminate E|].
      injection E as <-. left. split; [left; reflexivity | exact Es].
Qed.

End CallbackErrors.

Section ReturningCallback.
Context {A : Type}.
Variable maxDepth : nat.
Variable ignoreDirs : list string.
Variable skipDescendingInto : list string.
Variable onEnterDir : bool.
Variable callback : A -> string -> Stats -> A.

Abbreviation returning := (fun a p stats => @inr JsError A (callback a p stats)).

(** For a callback that returns, the walk is [FileSystem.walk]. *)
Lemma walk_of_returning_callback node : forall cur d st,
  CallbackWalk.walk maxDepth ignoreDirs skipDescendingInto onEnterDir returning node cur d st
  = walk maxDepth ignoreDirs skipDescendingInto onEnterDir callback node cur d st.
Proof.
  induction node as [size | | | e0 | entries IH | e0] using node_induction;
    intros cur d st.
  1-4, 6: reflexivity.
  rewrite callback_walk_dir, walk_dir.
  destruct (Nat.ltb maxDepth d); [reflexivity|].
  destruct (ignored ignoreDirs cur); [reflexivity|].
  unfold CallbackWalk.visit. cbv zeta. fold (visit callback (enter_dir onEnterDir st cur d) cur true).
  destruct (Js.includes skipDescendingInto (Path.basename cur)); [reflexivity|].
  generalize (visit callback (enter_dir onEnterDir st cur d) cur true).
  induction IH as [|[name child] es Hchild _ IHes]; intros w; [reflexivity|].
  simpl. simpl in Hchild. rewrite Hchild.
  destruct (walk _ _ _ _ _ child _ _ w); [reflexivity | apply IHes].
Qed.

End ReturningCallback.

(** X3.  [walkDirectory] rejects only with an error that [lstat] or
    [readdir] threw somewhere in the tree with a code other than [EACCES]
    and [ENOENT], or with an error that the callback threw or rejected
    with; so on a tree where [lstat] and [readdir] throw nothing else, and
    with a callback that returns, it resolves, whatever the options. *)
Theorem walkDirectory_rejects_only_on_foreign_errors {A : Type}
  (maxDepth : nat) (ignoreDirs skipDescendingInto : list string) (onEnterDir : bool)
  (callback : A -> string -> Stats -> Result A) (tree : Node) (dirPath : string)
  (init : A) :
  (forall e,
      CallbackWalk.walkDirectory maxDepth ignoreDirs skipDescendingInto onEnterDir callback
        tree dirPath init = inl e ->
      (In e (errors_of tree) /\ code_is e "EACCES" = false /\ code_is e "ENOENT" = false)
      \/ thrown_by callback e)
  /\ (Forall (fun e => skipped_code e = true) (errors_of tree) ->
      (forall a currentPath stats, exists a', callback a currentPath stats = inr a') ->
      exists st,
        CallbackWalk.walkDirectory maxDepth ignoreDirs skipDescendingInto onEnterDir
          callback tree dirPath init = inr st).
Proof.
  split.
  - intros e E. unfold CallbackWalk.walkDirectory in E.
    destruct (callback_walk_throws _ _ _ _ _ _ _ _ _ _ E) as [[Hin Hs] | Hcb];
      [left | right; exact Hcb].
    unfold skipped_code in Hs. apply orb_false_iff in Hs. split; [exact Hin | exact Hs].
  - intros Hall Hret. unfold CallbackWalk.walkDirectory.
    destruct (CallbackWalk.walk _ _ _ _ _ tree dirPath 0 (init, [])) as [e | st] eqn:E.
    + destruct (callback_walk_throws _ _ _ _ _ _ _ _ _ _ E) as [[Hin Hs] | Hcb].
      * rewrite Forall_forall in Hall. rewrite (Hall e Hin) in Hs. discriminate Hs.
      * destruct Hcb as (a & p & stats & Hcb).
        destruct (Hret a p stats) as (a' & Ha). rewrite Ha in Hcb. discriminate Hcb.
    + exists st. reflexivity.
Qed.

Lemma walkDirectory_rejects_only_on_foreign_errors_witness :
  exists st,
    CallbackWalk.walkDirectory 5 Constants.IGNORE_DIRS [] false
      (fun (n : nat) _ _ => inr (S n))
      (Dir [("a", File 1); ("gone", LstatFails (mkError (Some "ENOENT") "no such file"));
            ("locked", DirUnreadable (mkError (Some "EACCES") "permission denied"))])
      "/home/user" 0
    = inr st.
Proof.
  apply (proj2 (walkDirectory_rejects_only_on_foreign_errors 5 Constants.IGNORE_DIRS []
                  false (fun (n : nat) _ _ => inr (S n))
                  (Dir [("a", File 1);
                        ("gone", LstatFails (mkError (Some "ENOENT") "no such file"));
                        ("locked", DirUnreadable (mkError (Some "EACCES") "permission denied"))])
                  "/home/user" 0)).
  - simpl. repeat constructor.
  - intros a p stats. eexists. reflexivity.
Defined.



Lemma is_strict_prefix_app a y rest : is_strict_prefix a (a ++ y :: rest) = true.
Proof.
  induction a as [|x a IH]; simpl; [reflexivity|].
  rewrite String.eqb_refl. exact IH.
Qed.

Lemma strictly_under_abs_path a y rest :
  Forall (fun x => clean x = true) (a ++ y :: rest) ->
  strictly_under (abs_path a) (abs_path (a ++ y :: rest)) = true.
Proof.
  intros Hc. unfold strictly_under.
  rewrite !path_segments_abs_path by (assumption || (apply Forall_app in Hc; apply Hc)).
  apply is_strict_prefix_app.
Qed.

Lemma strictly_under_abs_path_inv a b :
  Forall (fun x => clean x = true) a -> Forall (fun x => clean x = true) b ->
  strictly_under (abs_path a) (abs_path b) = true ->
  exists y rest, b = (a ++ y :: rest)%list.
Proof.
  intros Ha Hb H. unfold strictly_under in H. apply andb_true_iff in H as [_ H].
  rewrite !path_segments_abs_path in H by assumption.
  apply is_strict_prefix_inv. exact H.
Qed.

(** X5.  What [findDirectories] returns.  On a tree whose names are
    those [readdir] gives, every path returned for [targetName] (with the
    default [skipDescendingInto]) is named [targetName] and is the start
    directory or lies below it; no path is returned twice; and no
    returned path lies below another returned path. *)
Theorem findDirectories_returns_outermost_matches (m : Machine)
  (maxDepth : nat) (ignorePatterns : list string) (R : list string)
  (targetName : string) (onEnterDir : bool) (found : list string) :
  Forall (fun x => clean x = true) R ->
  well_formed (tree_at m (abs_path R)) ->
  BaseScanner.findDirectories m maxDepth ignorePatterns (abs_path R) targetName None
    onEnterDir = inr found ->
  NoDup found
  /\ (forall f, In f found ->
        Path.basename f = targetName /\ at_or_below (abs_path R) f = true)
  /\ (forall f g, In f found -> In g found -> strictly_under f g = false).
Proof.
  intros HR Hwf E. unfold BaseScanner.findDirectories, walkDirectory in E.
  destruct (walk _ _ _ _ _ _ _ _ _) as [e | [fnd entered]] eqn:Ew; [discriminate|].
  injection E as <-.
  destruct (find_walk_found _ _ onEnterDir _ _ Hwf _ _ _ _ HR Ew)
    as (new & Hnew & Hnd & Hall).
  simpl in Hnew. subst new. rewrite Forall_forall in Hall.
  split; [exact Hnd|]. split.
  - intros f Hf. destruct (Hall f Hf) as (ns & -> & Hns & Hlast & _).
    assert (Hc : Forall (fun x => clean x = true) (R ++ ns)).
    { apply Forall_app; split; assumption. }
    split; [rewrite basename_abs_path by assumption; exact Hlast|].
    unfold at_or_below. destruct ns as [|y rest].
    + rewrite app_nil_r, String.eqb_refl. reflexivity.
    + rewrite strictly_under_abs_path by assumption. apply orb_true_r.
  - intros f g Hf Hg.
    destruct (Hall f Hf) as (nf & -> & Hnf & Hlastf & _).
    destruct (Hall g Hg) as (ng & -> & Hng & _ & Hpre).
    destruct (strictly_under _ _) eqn:Eu; [exfalso|reflexivity].
    apply strictly_under_abs_path_inv in Eu;
      [|apply Forall_app; split; assumption|apply Forall_app; split; assumption].
    destruct Eu as (y & rest & Eg).
    rewrite <- app_assoc in Eg. apply app_inv_head in Eg.
    apply (Hpre nf (y :: rest) Eg ltac:(discriminate)). exact Hlastf.
Qed.

Lemma findDirectories_returns_outermost_matches_witness :
  BaseScanner.findDirectories
    (machine_with_tree (project_tree 2 [("pkg", Dir [("node_modules", Dir [])])]))
    5 Constants.IGNORE_DIRS (abs_path ["home"; "user"]) "node_modules" None false
  = inr ["/home/user/proj/node_modules"]
  /\ NoDup ["/home/user/proj/node_modules"].
Proof.
  split; [reflexivity|].
  apply (findDirectories_returns_outermost_matches
           (machine_with_tree (project_tree 2 [("pkg", Dir [("node_modules", Dir [])])]))
           5 Constants.IGNORE_DIRS ["home"; "user"] "node_modules" false
           ["/home/user/proj/node_modules"]).
  - repeat constructor.
  - simpl. repeat split; repeat constructor; simpl; intuition discriminate.
  - reflexivity.
Defined.

(** X6.  The bounds of [findDirectories].  Whatever
    [skipDescendingInto] is, every path returned lies at most [maxDepth]
    levels below the start directory, and neither it nor any directory
    between the start directory and it (the start directory included)
    matches an ignore pattern. *)
Theorem findDirectories_stays_within_bounds (m : Machine)
  (maxDepth : nat) (ignorePatterns : list string) (R : list string)
  (targetName : string) (skipDescendingInto : option (list string))
  (onEnterDir : bool) (found : list string) :
  Forall (fun x => clean x = true) R ->
  well_formed (tree_at m (abs_path R)) ->
  BaseScanner.findDirectories m maxDepth ignorePatterns (abs_path R) targetName
    skipDescendingInto onEnterDir = inr found ->
  forall f, In f found ->
    Path.basename f = targetName /\ reached_from maxDepth ignorePatterns R f.
Proof.
  intros HR Hwf E. unfold BaseScanner.findDirectories, walkDirectory in E.
  destruct (walk _ _ _ _ _ _ _ _ _) as [e | [fnd entered]] eqn:Ew; [discriminate|].
  injection E as <-.
  set (Q := fun (P : list string) (d : nat) (f : string) =>
              Path.basename f = targetName
              /\ exists ns, f = abs_path (P ++ ns)
                   /\ Forall (fun x => clean x = true) ns
                   /\ d + length ns <= maxDepth
                   /\ forall ns1 ns2, ns = (ns1 ++ ns2)%list ->
                        ignored ignorePatterns (abs_path (P ++ ns1)) = false).
  assert (Hhere : forall P d,
             Forall (fun x => clean x = true) P ->
             d <= maxDepth -> ignored ignorePatterns (abs_path P) = false ->
             Path.basename (abs_path P) = targetName -> Q P d (abs_path P)).
  { intros P d HP Hd Hi Hb. split; [exact Hb|]. exists []. rewrite app_nil_r.
    repeat split; [constructor | simpl; lia |].
    intros ns1 ns2 Hn. symmetry in Hn. apply app_eq_nil in Hn as [-> _].
    rewrite app_nil_r. exact Hi. }
  assert (Hbelow : forall P d name f,
             Forall (fun x => clean x = true) P -> clean name = true ->
             d <= maxDepth -> ignored ignorePatterns (abs_path P) = false ->
             Q (P ++ [name])%list (S d) f -> Q P d f).
  { intros P d name f HP Hname Hd Hi (Hb & ns & -> & Hns & Hlen & Hign).
    split; [exact Hb|]. exists (name :: ns). rewrite <- app_assoc. simpl.
    repeat split; [constructor; assumption | simpl in Hlen; lia |].
    intros ns1 ns2 Hn. destruct ns1 as [|n1 ns1].
    + rewrite app_nil_r. exact Hi.
    + simpl in Hn. injection Hn as <- Hn.
      specialize (Hign ns1 ns2 Hn). rewrite <- app_assoc in Hign. exact Hign. }
  destruct (find_walk_inv maxDepth ignorePatterns
              (match skipDescendingInto with Some l => l | None => [targetName] end)
              onEnterDir targetName Q Hhere Hbelow (tree_at m (abs_path R)) Hwf
              R 0 _ _ HR Ew) as (new & Hnew & Hall).
  simpl in Hnew. subst new. rewrite Forall_forall in Hall.
  intros f Hf. destruct (Hall f Hf) as (Hb & ns & -> & Hns & Hlen & Hign).
  split; [exact Hb|]. exists ns. repeat split; [assumption | simpl in Hlen; lia | exact Hign].
Qed.

Lemma findDirectories_stays_within_bounds_witness :
  Path.basename "/home/user/proj/node_modules" = "node_modules"
  /\ reached_from 5 Constants.IGNORE_DIRS ["home"; "user"] "/home/user/proj/node_modules".
Proof.
  apply (findDirectories_stays_within_bounds
           (machine_with_tree (project_tree 2 [("pkg", Dir [("node_modules", Dir [])])]))
           5 Constants.IGNORE_DIRS ["home"; "user"] "node_modules" None false
           ["/home/user/proj/node_modules"]).
  - repeat constructor.
  - simpl. repeat split; repeat constructor; simpl; intuition discriminate.
  - reflexivity.
  - left. reflexivity.
Defined.

(** X7.  [findDirectories] misses nothing within its reach.  With the
    default [skipDescendingInto], on a tree whose names are those
    [readdir] gives, a directory named [targetName] that is not ignored
    itself and lies at most [maxDepth] levels below the start directory,
    under readable directories (the start directory among them) none of
    which is ignored or named [targetName], is among the paths returned. *)
Theorem findDirectories_finds_what_is_within_reach (m : Machine)
  (maxDepth : nat) (ignorePatterns : list string) (R names : list string)
  (targetName : string) (onEnterDir : bool) (found : list string) :
  clean targetName = true ->
  Forall (fun x => clean x = true) R ->
  well_formed (tree_at m (abs_path R)) ->
  within_reach maxDepth ignorePatterns targetName (tree_at m (abs_path R)) R 0 names = true ->
  BaseScanner.findDirectories m maxDepth ignorePatterns (abs_path R) targetName None
    onEnterDir = inr found ->
  In (abs_path (R ++ names ++ [targetName])) found.
Proof.
  intros Ht HR Hwf Hreach E. unfold BaseScanner.findDirectories, walkDirectory in E.
  destruct (walk _ _ _ _ _ _ _ _ _) as [e | [fnd entered]] eqn:Ew; [discriminate|].
  injection E as <-.
  apply (find_walk_reaches _ _ onEnterDir _ Ht _ _ _ _ _ _ Hwf HR Hreach Ew).
Qed.

Lemma findDirectories_finds_what_is_within_reach_witness :
  In "/home/user/work/api/target" ["/home/user/work/api/target"].
Proof.
  apply (findDirectories_finds_what_is_within_reach
           (machine_with_tree (Dir [("work", Dir [("api", Dir [("target", Dir [])])])]))
           5 Constants.IGNORE_DIRS ["home"; "user"] ["work"; "api"] "target" true
           ["/home/user/work/api/target"]).
  - reflexivity.
  - repeat constructor.
  - simpl. repeat split; repeat constructor; simpl; intuition discriminate.
  - reflexivity.
  - reflexivity.
Defined.

Lemma last_in {A} (l : list A) (d : A) : l <> [] -> In (last l d) l.
Proof.
  induction l as [|x l IH]; intros H; [contradiction|].
  destruct l as [|y l]; [left; reflexivity|].
  right. apply IH. discriminate.
Qed.

(** X8.  Scanning from a directory that is not itself inside a
    [node_modules]: the walk never descends into a [node_modules], so the
    filter on nested directories removes nothing, and the items of the
    scan are the directories that [findDirectories] returned, in the same
    order. *)
Theorem node_modules_filter_keeps_every_match (m : Machine) (onEnterDir : bool)
  (R : list string) (found : list string) :
  Forall (fun x => clean x = true) R ->
  ~ In "node_modules" R ->
  well_formed (tree_at m (abs_path R)) ->
  BaseScanner.findDirectories m NodeModulesScanner.maxDepth
    NodeModulesScanner.ignorePatterns (abs_path R) Constants.NODE_MODULES None onEnterDir
  = inr found ->
  exists res,
    NodeModulesScanner.scan m (abs_path R) onEnterDir = inr res
    /\ map si_path (sr_items res) = found
    /\ sr_count res = length found.
Proof.
  intros HR Hout Hwf E. unfold NodeModulesScanner.scan. rewrite E.
  eexists. split; [reflexivity|]. cbn [sr_items sr_count].
  assert (Hkeep : filter NodeModulesScanner.is_top_level found = found).
  { unfold BaseScanner.findDirectories, walkDirectory in E.
    destruct (walk _ _ _ _ _ _ _ _ _) as [e | [fnd entered]] eqn:Ew; [discriminate|].
    injection E as <-.
    destruct (find_walk_found _ _ onEnterDir _ _ Hwf _ _ _ _ HR Ew)
      as (new & Hnew & _ & Hall).
    simpl in Hnew. subst new.
    apply filter_all. intros f Hf. rewrite Forall_forall in Hall.
    destruct (Hall f Hf) as (ns & -> & Hns & Hlast & Hpre).
    unfold Constants.NODE_MODULES in Hlast, Hpre.
    assert (Hne : ns <> []).
    { intros ->. rewrite app_nil_r in Hlast.
      destruct R as [|r0 R0]; [discriminate Hlast|].
      apply Hout. rewrite <- Hlast. apply last_in. discriminate. }
    { destruct (exists_last Hne) as (ns' & x & ->).
      rewrite app_assoc, last_last in Hlast. subst x.
      rewrite app_assoc. apply top_level_abs_path.
      + apply Forall_app in Hns as [Hns' _]. apply Forall_app; split; assumption.
      + intros Hin. apply in_app_or in Hin as [Hin | Hin]; [contradiction|].
        apply in_split in Hin as (a & b & ->).
        apply (Hpre (a ++ ["node_modules"])%list (b ++ ["node_modules"])%list).
        * rewrite <- !app_assoc. reflexivity.
        * destruct b; discriminate.
        * rewrite app_assoc. apply last_last. } }
  rewrite Hkeep, paths_of_items, length_map. split; reflexivity.
Qed.

Lemma node_modules_filter_keeps_every_match_witness :
  exists res,
    NodeModulesScanner.scan
      (machine_with_tree (project_tree 2 [("pkg", Dir [("node_modules", Dir [])])]))
      (abs_path ["home"; "user"]) false = inr res
    /\ map si_path (sr_items res) = ["/home/user/proj/node_modules"]
    /\ sr_count res = 1.
Proof.
  apply (node_modules_filter_keeps_every_match
           (machine_with_tree (project_tree 2 [("pkg", Dir [("node_modules", Dir [])])]))
           false ["home"; "user"] ["/home/user/proj/node_modules"]).
  - repeat constructor.
  - simpl. intros [H | [H | []]]; discriminate H.
  - simpl. repeat split; repeat constructor; simpl; intuition discriminate.
  - reflexivity.
Defined.

Lemma sum_sizes_from (items : list ScanItem) : forall acc,
  fold_left (fun sum item => (sum + si_size item)%Z) items acc
  = (acc + sum_sizes items)%Z.
Proof.
  unfold sum_sizes. induction items as [|i items IH]; intros acc; [simpl; lia|].
  cbn [fold_left]. rewrite (IH (acc + si_size i)%Z), (IH (0 + si_size i)%Z). lia.
Qed.

Lemma sum_sizes_app (a b : list ScanItem) :
  sum_sizes (a ++ b) = (sum_sizes a + sum_sizes b)%Z.
Proof.
  unfold sum_sizes at 1. rewrite fold_left_app. fold (sum_sizes a).
  apply sum_sizes_from.
Qed.

Lemma sum_sizes_fold (items : list ScanItem) :
  sum_sizes items = fold_right Z.add 0%Z (map si_size items).
Proof.
  induction items as [|i items IH]; [reflexivity|].
  change (i :: items) with ([i] ++ items)%list at 1.
  rewrite sum_sizes_app, IH. unfold sum_sizes. simpl. reflexivity.
Qed.

Lemma sum_from_zero (sizes : list Z) :
  Forall (fun n => (0 <= n)%Z) sizes -> (0 <= fold_right Z.add 0 sizes)%Z.
Proof. induction 1 as [|n ns Hn _ IH]; simpl; lia. Qed.

(** X9.  Merging is additive.  When the sizes of all the items are whole
    numbers from 0 whose sum is a safe integer, so that the additions of
    the code round nothing, and every result to merge carries the total
    and the count of its own items, the merged result carries the items of
    all of them in order, its [totalSize] is the sum of their [totalSize],
    a safe integer, and its [count] the sum of their [count]. *)
Theorem mergeResults_adds_up (results : list ScanResult) (type : string) :
  Forall consistent results ->
  exact_bytes (map si_size (flat_map sr_items results)) ->
  sr_items (Scanners.mergeResults results type) = flat_map sr_items results
  /\ sr_totalSize (Scanners.mergeResults results type) = sum_totals results
  /\ (0 <= sr_totalSize (Scanners.mergeResults results type) <= MAX_SAFE_INTEGER)%Z
  /\ sr_count (Scanners.mergeResults results type)
     = fold_right Nat.add 0 (map sr_count results)
  /\ consistent (Scanners.mergeResults results type).
Proof.
  intros H [Hpos Hmax]. unfold Scanners.mergeResults. cbn [sr_items sr_totalSize sr_count].
  split; [reflexivity|]. split; [|split; [|split; [|split; reflexivity]]].
  - clear Hpos Hmax. induction H as [|r rs [Hr _] _ IH]; [reflexivity|].
    simpl flat_map. rewrite sum_sizes_app, IH. unfold sum_totals. simpl. rewrite Hr. reflexivity.
  - rewrite sum_sizes_fold. split; [apply sum_from_zero; exact Hpos | exact Hmax].
  - clear Hpos Hmax. induction H as [|r rs [_ Hr] _ IH]; [reflexivity|].
    simpl flat_map. rewrite length_app, IH. simpl. rewrite Hr. reflexivity.
Qed.

Lemma mergeResults_adds_up_witness :
  sr_totalSize
    (Scanners.mergeResults
       [mkScanResult "node_modules"
          [mkScanItem "/home/user/a/node_modules" 10 None DaysInfinity None None false] 10 1;
        mkScanResult "" [] 0 0] "node_modules") = 10%Z.
Proof.
  apply (mergeResults_adds_up
           [mkScanResult "node_modules"
              [mkScanItem "/home/user/a/node_modules" 10 None DaysInfinity None None false]
              10 1;
            mkScanResult "" [] 0 0] "node_modules").
  - repeat constructor.
  - split; [repeat constructor; discriminate | vm_compute; discriminate].
Defined.

Lemma size_walk_dir entries currentPath totalSize :
  FileSize.walk (Dir entries) currentPath totalSize
  = size_entries currentPath entries totalSize.
Proof.
  simpl. revert totalSize.
  induction entries as [|[entry child] es IH]; intros totalSize; [reflexivity|].
  simpl. destruct (FileSize.walk child _ totalSize); [reflexivity | apply IH].
Qed.

Lemma file_bytes_dir entries :
  file_bytes (Dir entries)
  = fold_right Z.add 0%Z (map (fun e => file_bytes (snd e)) entries).
Proof.
  simpl. induction entries as [|[entry child] es IH]; [reflexivity|].
  simpl. rewrite IH. reflexivity.
Qed.

(** What [walk] returns, and what it throws. *)
Lemma size_walk_result node : forall cur total,
  match FileSize.walk node cur total with
  | inr t => t = (total + file_bytes node)%Z
  | inl e => In e (errors_of node) /\ skipped_code e = false
  end.
Proof.
  induction node as [size | | | e0 | entries IH | e0] using node_induction;
    intros cur total.
  - reflexivity.
  - simpl. lia.
  - simpl. lia.
  - simpl. destruct (skipped_code e0) eqn:Es; [lia | split; [left; reflexivity | exact Es]].
  - rewrite size_walk_dir, file_bytes_dir, errors_of_dir. revert total.
    induction IH as [|[entry child] es Hchild _ IHes]; intros total; simpl; [lia|].
    simpl in Hchild. specialize (Hchild (Path.join cur entry) total).
    destruct (FileSize.walk child (Path.join cur entry) total) as [e | t].
    + destruct Hchild as [Hin Hs]. split; [apply in_or_app; left; exact Hin | exact Hs].
    + subst t. specialize (IHes (total + file_bytes child)%Z).
      destruct (size_entries cur es (total + file_bytes child)) as [e | t].
      * destruct IHes as [Hin Hs]. split; [apply in_or_app; right; exact Hin | exact Hs].
      * lia.
  - simpl. destruct (skipped_code e0) eqn:Es; [lia | split; [left; reflexivity | exact Es]].
Qed.

Lemma get_set_other {V} (m : JsMap.t V) k v k' :
  k' <> k -> JsMap_get (JsMap.set m k v) k' = JsMap_get m k'.
Proof.
  intros Hne. induction m as [|[k0 v0] m IH]; simpl.
  - destruct (String.eqb k k') eqn:E; [apply String.eqb_eq in E; congruence | reflexivity].
  - destruct (String.eqb k0 k) eqn:E.
    + apply String.eqb_eq in E. subst k0. simpl.
      destruct (String.eqb k k') eqn:E'; [apply String.eqb_eq in E'; congruence | reflexivity].
    + simpl. destruct (String.eqb k0 k'); [reflexivity | exact IH].
Qed.

Lemma file_sizes_dir entries :
  file_sizes (Dir entries) = flat_map (fun e => file_sizes (snd e)) entries.
Proof.
  simpl. induction entries as [|[entry child] es IH]; [reflexivity|].
  simpl. rewrite IH. reflexivity.
Qed.

Lemma sum_app (a b : list Z) :
  fold_right Z.add 0%Z (a ++ b) = (fold_right Z.add 0 a + fold_right Z.add 0 b)%Z.
Proof. induction a as [|x a IH]; simpl; [reflexivity | rewrite IH; lia]. Qed.

Lemma file_bytes_sum node : file_bytes node = fold_right Z.add 0%Z (file_sizes node).
Proof.
  induction node as [size | | | e0 | entries IH | e0] using node_induction;
    try reflexivity.
  - simpl. lia.
  - rewrite file_bytes_dir, file_sizes_dir.
    induction IH as [|[entry child] es Hchild _ IHes]; [reflexivity|].
    simpl. simpl in Hchild. rewrite sum_app, Hchild, IHes. reflexivity.
Qed.

(** X10.  What [getDirectorySize] measures.  In a call during which
    nothing else touches the cache, when the size of the directory is not
    taken from the cache, and the sizes of the regular
    files below it are whole numbers from 0 whose sum is a safe integer, so
    that the additions of the code round nothing, the size is the sum of
    the sizes of the regular files below the directory, at any depth;
    symbolic links, special files and the entries that [lstat] or
    [readdir] refuse with [EACCES] or [ENOENT] count for nothing.  The
    call rejects only with an error that [lstat] or [readdir] threw with
    another code, and then the cache is left as it was. *)
Theorem getDirectorySize_sums_regular_files (cwd : string) (tree_at : string -> Node)
  (dirPath : string) (useCache : bool) (sizeCache : JsMap.t Z) :
  (if useCache then JsMap_get sizeCache (Path.resolve cwd dirPath) else None) = None ->
  exact_bytes (file_sizes (tree_at (Path.resolve cwd dirPath))) ->
  match FileSize.getDirectorySize cwd tree_at dirPath useCache sizeCache with
  | (sizeCache', inr n) =>
      n = file_bytes (tree_at (Path.resolve cwd dirPath))
      /\ (0 <= n <= MAX_SAFE_INTEGER)%Z
      /\ sizeCache' = (if useCache then JsMap.set sizeCache (Path.resolve cwd dirPath) n
                       else sizeCache)
  | (sizeCache', inl e) =>
      In e (errors_of (tree_at (Path.resolve cwd dirPath)))
      /\ skipped_code e = false /\ sizeCache' = sizeCache
  end.
Proof.
  intros Hmiss [Hpos Hmax]. unfold FileSize.getDirectorySize. cbv zeta. rewrite Hmiss.
  pose proof (size_walk_result (tree_at (Path.resolve cwd dirPath))
                (Path.resolve cwd dirPath) 0%Z) as H.
  destruct (FileSize.walk _ _ 0%Z) as [e | t].
  - destruct H as [Hin Hs]. repeat split; assumption.
  - subst t. rewrite Z.add_0_l. split; [reflexivity|]. split; [|reflexivity].
    rewrite file_bytes_sum. split; [apply sum_from_zero; exact Hpos | exact Hmax].
Qed.

Lemma getDirectorySize_sums_regular_files_witness :
  FileSize.getDirectorySize "/home/user" (fun _ => project_tree 7 [("pkg", Dir [("index.js", File 35)]); ("gone", LstatFails (mkError (Some "ENOENT") "no such file")); ("link", Symlink)])
    "proj" true []
  = ([("/home/user/proj", 42%Z)], inr 42%Z).
Proof.
  assert (Hx : exact_bytes [7; 35]%Z)
    by (split; [repeat constructor; discriminate | vm_compute; discriminate]).
  pose proof (getDirectorySize_sums_regular_files "/home/user"
                (fun _ => project_tree 7 [("pkg", Dir [("index.js", File 35)]);
                                          ("gone", LstatFails (mkError (Some "ENOENT") "no such file"));
                                          ("link", Symlink)])
                "proj" true [] eq_refl Hx) as H.
  destruct (FileSize.getDirectorySize _ _ _ _ _) as [c [e | n]].
  - destruct H as (Hin & Hs & _).
    simpl in Hin. destruct Hin as [<- | []]. discriminate Hs.
  - destruct H as (-> & _ & ->). reflexivity.
Defined.

Section SessionFacts.
Variable cwd : string.

(** A call during which nothing else runs is [getDirectorySize]. *)
Lemma call_alone tree_at dirPath useCache sizeCache :
  FileSize.getDirectorySize cwd tree_at dirPath useCache sizeCache
  = match FileSize.cached cwd dirPath useCache sizeCache with
    | Some size => (sizeCache, inr size)
    | None =>
        FileSize.settle cwd dirPath useCache
          (FileSize.walk (tree_at (Path.resolve cwd dirPath)) (Path.resolve cwd dirPath) 0%Z)
          sizeCache
    end.
Proof. reflexivity. Qed.

Lemma removed_incl {T} (l : list T) : forall i x,
  In x (firstn i l ++ skipn (S i) l) -> In x l.
Proof.
  induction l as [|a l IH]; intros i x H.
  - destruct i; simpl in H; contradiction.
  - destruct i as [|i]; simpl in H.
    + right. exact H.
    + destruct H as [H | H]; [left; exact H | right; apply (IH i); exact H].
Qed.

(** One event keeps the cached size of a quiet directory, and what
    settles for that directory settles with it. *)
Lemma step_keeps resolved size s ev :
  JsMap_get (FileSize.sizeCache s) resolved = Some size ->
  quiet cwd resolved s ->
  ev <> FileSize.Clear ->
  JsMap_get (FileSize.sizeCache (FileSize.step cwd s ev)) resolved = Some size
  /\ quiet cwd resolved (FileSize.step cwd s ev)
  /\ exists new,
       FileSize.settled (FileSize.step cwd s ev) = (FileSize.settled s ++ new)%list
       /\ Forall (settled_with cwd resolved size) new.
Proof.
  intros Hget Hq Hev. destruct ev as [dirPath useCache | i tree | ]; [| |contradiction].
  - simpl. unfold FileSize.cached. cbv zeta.
    destruct useCache.
    + destruct (JsMap_get (FileSize.sizeCache s) (Path.resolve cwd dirPath)) as [c|] eqn:Ec.
      * simpl. split; [exact Hget|]. split; [exact Hq|].
        eexists. split; [reflexivity|]. constructor; [|constructor].
        intros _ Hr. simpl in Hr. simpl. rewrite Hr, Hget in Ec. congruence.
      * simpl. split; [exact Hget|]. split.
        -- unfold quiet. simpl. apply Forall_app. split; [exact Hq|].
           constructor; [|constructor]. intros _ Hr. simpl in Hr.
           rewrite Hr, Hget in Ec. discriminate Ec.
        -- exists []. rewrite app_nil_r. split; [reflexivity | constructor].
    + simpl. split; [exact Hget|]. split.
      * unfold quiet. simpl. apply Forall_app. split; [exact Hq|].
        constructor; [|constructor]. simpl. discriminate.
      * exists []. rewrite app_nil_r. split; [reflexivity | constructor].
  - simpl. destruct (nth_error (FileSize.in_flight s) i) as [[dirPath useCache]|] eqn:En.
    + assert (Hcall : useCache = true -> Path.resolve cwd dirPath <> resolved).
      { unfold quiet in Hq. rewrite Forall_forall in Hq.
        apply (Hq (dirPath, useCache)). eapply nth_error_In. exact En. }
      assert (Hq' : Forall (fun call => snd call = true ->
                                        Path.resolve cwd (fst call) <> resolved)
                      (firstn i (FileSize.in_flight s)
                       ++ skipn (S i) (FileSize.in_flight s))).
      { unfold quiet in Hq. rewrite Forall_forall in Hq |- *. intros x Hx.
        apply Hq. eapply removed_incl. exact Hx. }
      unfold FileSize.settle. cbv zeta.
      destruct (FileSize.walk tree (Path.resolve cwd dirPath) 0%Z) as [e | totalSize].
      * simpl. split; [exact Hget|]. split; [exact Hq'|].
        eexists. split; [reflexivity|]. constructor; [|constructor].
        intros Hu Hr. simpl in Hu, Hr. destruct (Hcall Hu Hr).
      * simpl. split; [|split; [exact Hq'|]].
        -- destruct useCache; [|exact Hget].
           rewrite get_set_other; [exact Hget|].
           intros Heq. apply (Hcall eq_refl). symmetry. exact Heq.
        -- eexists. split; [reflexivity|]. constructor; [|constructor].
           intros Hu Hr. simpl in Hu, Hr. destruct (Hcall Hu Hr).
    + split; [exact Hget|]. split; [exact Hq|].
      exists []. rewrite app_nil_r. split; [reflexivity | constructor].
Qed.

End SessionFacts.

(** Two calls for one directory that overlap: the call whose walk ends
    last overwrites the entry of the cache, and a call that comes after it
    settles with another size than the call that came before. *)
Example overlapping_calls_overwrite :
  FileSize.settled
    (FileSize.run "/home/user"
       [FileSize.Call "proj" true; FileSize.Call "proj" true;
        FileSize.WalkEnds 0 (Dir [("a", File 42)]); FileSize.Call "proj" true;
        FileSize.WalkEnds 0 (Dir [("a", File 7)]); FileSize.Call "proj" true]
       (FileSize.mkSession [] [] []))
  = [("proj", true, inr 42%Z); ("proj", true, inr 42%Z);
     ("proj", true, inr 7%Z); ("proj", true, inr 7%Z)].
Proof. reflexivity. Qed.

(** X11.  The size cache under calls that overlap.  Once the cache holds
    a size for a directory and no call with the cache on is in flight for
    that directory, the cache keeps that size, and every call with the
    cache on for a path that resolves to the directory settles with it,
    until [clearSizeCache] is called: whichever calls start and end in
    between, in whatever order, with the cache on or off, and whatever the
    file system holds by then. *)
Theorem getDirectorySize_cache_is_sticky (cwd resolved : string) (size : Z)
  (s : FileSize.Session) (events : list FileSize.Event) :
  JsMap_get (FileSize.sizeCache s) resolved = Some size ->
  quiet cwd resolved s ->
  ~ In FileSize.Clear events ->
  JsMap_get (FileSize.sizeCache (FileSize.run cwd events s)) resolved = Some size
  /\ quiet cwd resolved (FileSize.run cwd events s)
  /\ exists new,
       FileSize.settled (FileSize.run cwd events s) = (FileSize.settled s ++ new)%list
       /\ Forall (settled_with cwd resolved size) new.
Proof.
  revert s. induction events as [|ev events IH]; intros s Hget Hq Hclear.
  - simpl. split; [exact Hget|]. split; [exact Hq|].
    exists []. rewrite app_nil_r. split; [reflexivity | constructor].
  - assert (Hev : ev <> FileSize.Clear) by (intros ->; apply Hclear; left; reflexivity).
    assert (Hrest : ~ In FileSize.Clear events) by (intros H; apply Hclear; right; exact H).
    destruct (step_keeps cwd resolved size s ev Hget Hq Hev)
      as (Hget1 & Hq1 & new1 & E1 & H1).
    destruct (IH _ Hget1 Hq1 Hrest) as (Hget2 & Hq2 & new2 & E2 & H2).
    change (FileSize.run cwd (ev :: events) s)
      with (FileSize.run cwd events (FileSize.step cwd s ev)).
    split; [exact Hget2|]. split; [exact Hq2|].
    exists (new1 ++ new2)%list. split.
    + rewrite E2, E1, app_assoc. reflexivity.
    + apply Forall_app. split; assumption.
Qed.

Lemma getDirectorySize_cache_is_sticky_witness :
  JsMap_get
    (FileSize.sizeCache
       (FileSize.run "/home/user"
          [FileSize.Call "./proj/../proj" true;
           FileSize.WalkEnds 0 (Dir [("b", File 3)]);
           FileSize.Call "proj" false;
           FileSize.Call "proj" true;
           FileSize.WalkEnds 0 (Dir [("a", File 7)])]
          (FileSize.mkSession [("/home/user/proj", 42%Z)] [("other", true)] [])))
    "/home/user/proj" = Some 42%Z.
Proof.
  apply (getDirectorySize_cache_is_sticky "/home/user" "/home/user/proj" 42%Z
           (FileSize.mkSession [("/home/user/proj", 42%Z)] [("other", true)] [])
           [FileSize.Call "./proj/../proj" true;
            FileSize.WalkEnds 0 (Dir [("b", File 3)]);
            FileSize.Call "proj" false;
            FileSize.Call "proj" true;
            FileSize.WalkEnds 0 (Dir [("a", File 7)])]).
  - reflexivity.
  - repeat constructor. simpl. intros _ H. discriminate H.
  - simpl. intros H. repeat (destruct H as [H | H]; [discriminate H|]). exact H.
Defined.

Lemma rev_chars_append (a b : string) :
  Js.rev_chars (a ++ b) = (Js.rev_chars b ++ Js.rev_chars a)%list.
Proof.
  unfold Js.rev_chars. rewrite chars_append, rev_app_distr. reflexivity.
Qed.

(** A label that ends in [" days"] or [" years"] is none of the fixed
    labels. *)
Lemma counted_label_distinct (n : string) (unit label : string) :
  In unit [" days"; " years"] ->
  In label ["unknown"; "today"; "1 day"; "2 months"; "3 months"; "6 months"; "1 year"] ->
  n ++ unit <> label.
Proof.
  intros Hu Hl E. apply (f_equal Js.rev_chars) in E. rewrite rev_chars_append in E.
  simpl in Hu, Hl.
  repeat (destruct Hu as [<- | Hu]; [|]); try contradiction;
    repeat (destruct Hl as [<- | Hl]; [|]); try contradiction;
    simpl in E; discriminate E.
Qed.

(** The label of a number of days, range by range. *)
Lemma formatDaysAgo_cases (d : Z) :
  ((d < 0)%Z /\ Display.formatDaysAgo (DaysNumber d) = "unknown")
  \/ (d = 0%Z /\ Display.formatDaysAgo (DaysNumber d) = "today")
  \/ (d = 1%Z /\ Display.formatDaysAgo (DaysNumber d) = "1 day")
  \/ ((2 <= d < 30)%Z
      /\ Display.formatDaysAgo (DaysNumber d) = JsString.number_to_string d ++ " days")
  \/ ((30 <= d < 60)%Z /\ Display.formatDaysAgo (DaysNumber d) = "2 months")
  \/ ((60 <= d < 90)%Z /\ Display.formatDaysAgo (DaysNumber d) = "3 months")
  \/ ((90 <= d < 180)%Z /\ Display.formatDaysAgo (DaysNumber d) = "6 months")
  \/ ((180 <= d < 730)%Z /\ Display.formatDaysAgo (DaysNumber d) = "1 year")
  \/ ((730 <= d)%Z
      /\ Display.formatDaysAgo (DaysNumber d)
         = JsString.number_to_string (d / 365) ++ " years").
Proof.
  unfold Display.formatDaysAgo.
  destruct (d <? 0)%Z eqn:E0; [apply Z.ltb_lt in E0; left; split; [lia | reflexivity]|].
  apply Z.ltb_ge in E0. right.
  destruct (d =? 0)%Z eqn:E1; [apply Z.eqb_eq in E1; left; split; [lia | reflexivity]|].
  apply Z.eqb_neq in E1. right.
  destruct (d =? 1)%Z eqn:E2; [apply Z.eqb_eq in E2; left; split; [lia | reflexivity]|].
  apply Z.eqb_neq in E2. right.
  destruct (d <? 30)%Z eqn:E3; [apply Z.ltb_lt in E3; left; split; [lia | reflexivity]|].
  apply Z.ltb_ge in E3. right.
  destruct (d <? 60)%Z eqn:E4; [apply Z.ltb_lt in E4; left; split; [lia | reflexivity]|].
  apply Z.ltb_ge in E4. right.
  destruct (d <? 90)%Z eqn:E5; [apply Z.ltb_lt in E5; left; split; [lia | reflexivity]|].
  apply Z.ltb_ge in E5. right.
  destruct (d <? 180)%Z eqn:E6; [apply Z.ltb_lt in E6; left; split; [lia | reflexivity]|].
  apply Z.ltb_ge in E6. right.
  destruct (d <? 365)%Z eqn:E7; [apply Z.ltb_lt in E7; left; split; [lia | reflexivity]|].
  apply Z.ltb_ge in E7. cbv zeta.
  destruct (d / 365 =? 1)%Z eqn:E8.
  - apply Z.eqb_eq in E8. left. split; [|reflexivity].
    assert (d < 730)%Z; [|lia].
    destruct (Z_lt_ge_dec d 730) as [H | H]; [exact H|].
    assert (2 <= d / 365)%Z by (apply Z.div_le_lower_bound; lia). lia.
  - apply Z.eqb_neq in E8. right. split; [|reflexivity].
    assert (1 <= d / 365)%Z by (apply Z.div_le_lower_bound; lia).
    destruct (Z_lt_ge_dec d 730) as [H' | H']; [|lia].
    assert (d / 365 < 2)%Z by (apply Z.div_lt_upper_bound; lia). lia.
Qed.

Ltac label_case :=
  match goal with
  | H : ?n ++ ?u = ?l |- _ =>
      exfalso; apply (counted_label_distinct n u l); [simpl; tauto | simpl; tauto | exact H]
  end.


(** X13.  An age is shown as ["unknown"] exactly when [fs.stat] fails
    on the directory or its modification time lies after the clock. *)
Theorem unknown_age_label (m : Machine) (dirPath : string) :
  Display.formatDaysAgo (snd (BaseScanner.getMetadata m dirPath)) = "unknown"
  <-> (stat_mtime m dirPath = None
       \/ exists mtime, stat_mtime m dirPath = Some mtime /\ (date_now m < mtime)%Z).
Proof.
  unfold BaseScanner.getMetadata, FileSystem.getLastModified.
  destruct (stat_mtime m dirPath) as [mtime|]; cbn [snd]; cbv zeta.
  - assert (Hneg : ((date_now m - mtime) / BaseScanner.MS_PER_DAY < 0 <-> date_now m < mtime)%Z).
    { unfold BaseScanner.MS_PER_DAY. split; intros H.
      - destruct (Z_lt_ge_dec (date_now m) mtime) as [Hl | Hg]; [exact Hl|].
        assert (0 <= (date_now m - mtime) / (24 * 60 * 60 * 1000))%Z
          by (apply Z.div_pos; lia). lia.
      - apply Z.div_lt_upper_bound; lia. }
    split.
    + intros H. right. exists mtime. split; [reflexivity|]. apply Hneg.
      destruct (formatDaysAgo_cases ((date_now m - mtime) / BaseScanner.MS_PER_DAY))
        as [[Hd _] | [[Hd E] | [[Hd E] | [[Hd E] | [[Hd E] | [[Hd E] | [[Hd E]
           | [[Hd E] | [Hd E]]]]]]]]]; [exact Hd | | | | | | | |];
        rewrite E in H; try discriminate H; label_case.
    + intros [H | (mt & Hs & Hlt)]; [discriminate H|]. injection Hs as <-.
      apply Hneg in Hlt. unfold Display.formatDaysAgo.
      apply Z.ltb_lt in Hlt. rewrite Hlt. reflexivity.
  - split; [intros _; left; reflexivity | reflexivity].
Qed.

Section MorePathFacts.
Import Js Path.

Lemma join_slash_not_empty pieces :
  pieces <> [] -> Forall (fun x => clean x = true) pieces ->
  String.eqb (join_slash pieces) "" = false.
Proof.
  intros Hn Hc. pose proof (join_slash_clean_not_empty pieces Hn Hc) as H.
  destruct (join_slash pieces); [contradiction H; reflexivity | reflexivity].
Qed.

Lemma last_char_abs_path x l :
  Forall (fun y => clean y = true) (x :: l) ->
  last_char_is_slash (abs_path (x :: l)) = false.
Proof.
  intros Hc.
  destruct (@exists_last _ (x :: l) ltac:(discriminate)) as (l' & y & E).
  rewrite E in *. apply Forall_app in Hc as [_ Hy]. inversion Hy as [|? ? Hy' _]; subst.
  rewrite abs_path_snoc.
  change (parent_text l' ++ String "/" y) with (parent_text l' ++ (String "/" "" ++ y)).
  rewrite <- append_assoc.
  apply last_char_no_slash; [apply clean_no_slash | apply clean_nonempty]; assumption.
Qed.

Lemma normalize_pieces_abs_path b pieces :
  Forall (fun y => clean y = true) pieces ->
  normalize_pieces b (abs_path pieces) = rev pieces.
Proof.
  intros Hc. unfold normalize_pieces. destruct pieces as [|x l]; [reflexivity|].
  rewrite split_abs_path by (discriminate || assumption).
  change (fold_left (normalize_step b) ("" :: x :: l) [])
    with (fold_left (normalize_step b) (x :: l) []).
  rewrite fold_clean_pieces by assumption. apply app_nil_r.
Qed.

(** A resolved path is left as it is by [normalize]. *)
Lemma normalize_abs_path pieces :
  Forall (fun y => clean y = true) pieces ->
  normalize (abs_path pieces) = abs_path pieces.
Proof.
  intros Hc. destruct pieces as [|x l]; [reflexivity|].
  unfold normalize.
  change (String.eqb (abs_path (x :: l)) "") with false. cbv iota.
  change (isAbsolute (abs_path (x :: l))) with true. simpl negb. cbv zeta.
  unfold normalizeString. rewrite normalize_pieces_abs_path by assumption.
  rewrite rev_involutive, join_slash_not_empty by (discriminate || assumption).
  rewrite last_char_abs_path by assumption. reflexivity.
Qed.

Lemma last_char_slash_end a : last_char_is_slash (a ++ "/") = true.
Proof.
  unfold last_char_is_slash, rev_chars. rewrite chars_append, rev_app_distr. reflexivity.
Qed.

(** A resolved path followed by a separator keeps it. *)
Lemma normalize_abs_path_sep x l :
  Forall (fun y => clean y = true) (x :: l) ->
  normalize (abs_path (x :: l) ++ "/") = abs_path (x :: l) ++ "/".
Proof.
  intros Hc. unfold normalize.
  change (String.eqb (abs_path (x :: l) ++ "/") "") with false. cbv iota.
  change (isAbsolute (abs_path (x :: l) ++ "/")) with true. simpl negb. cbv zeta.
  rewrite last_char_slash_end.
  unfold normalizeString, normalize_pieces.
  change (abs_path (x :: l) ++ "/") with (abs_path (x :: l) ++ String "/" "").
  rewrite split_app_slash. simpl (split_slash "").
  rewrite fold_skip_empty. fold (normalize_pieces false (abs_path (x :: l))).
  rewrite normalize_pieces_abs_path by assumption.
  rewrite rev_involutive, join_slash_not_empty by (discriminate || assumption).
  reflexivity.
Qed.

Lemma last_char_append_nonempty a b c r :
  last_char_is_slash (a ++ String c r) = last_char_is_slash (b ++ String c r).
Proof.
  unfold last_char_is_slash, rev_chars. rewrite !chars_append, !rev_app_distr.
  simpl list_ascii_of_string. simpl rev.
  destruct (rev (list_ascii_of_string r)) as [|d t]; reflexivity.
Qed.

(** A doubled separator is one separator to [normalize]. *)
Lemma normalize_double_slash a b :
  normalize (a ++ String "/" (String "/" b)) = normalize (a ++ String "/" b).
Proof.
  unfold normalize.
  assert (He : forall t, String.eqb (a ++ String "/" t) "" = false)
    by (intros t; destruct a; reflexivity).
  rewrite !He. cbv iota.
  assert (Ha : isAbsolute (a ++ String "/" (String "/" b)) = isAbsolute (a ++ String "/" b))
    by (destruct a; reflexivity).
  assert (Hl : last_char_is_slash (a ++ String "/" (String "/" b))
               = last_char_is_slash (a ++ String "/" b)).
  { destruct b as [|c r].
    - change (a ++ String "/" (String "/" "")) with (a ++ (String "/" "" ++ "/")).
      rewrite <- append_assoc, !last_char_slash_end. reflexivity.
    - change (a ++ String "/" (String "/" (String c r)))
        with (a ++ (String "/" (String "/" "") ++ String c r)).
      change (a ++ String "/" (String c r)) with (a ++ (String "/" "" ++ String c r)).
      rewrite <- !append_assoc. apply last_char_append_nonempty. }
  assert (Hn : forall f,
             normalizeString (a ++ String "/" (String "/" b)) f
             = normalizeString (a ++ String "/" b) f).
  { intros f. unfold normalizeString, normalize_pieces.
    rewrite !split_app_slash. simpl (split_slash (String "/" b)).
    rewrite !fold_left_app. reflexivity. }
  rewrite Ha, Hl, !Hn. reflexivity.
Qed.

Lemma join_abs_path_empty pieces :
  Forall (fun y => clean y = true) pieces -> join (abs_path pieces) "" = abs_path pieces.
Proof. intros Hc. unfold join. simpl. apply normalize_abs_path. exact Hc. Qed.

(** Joining a resolved directory and what follows it, separator
    included, in a resolved path below it gives that path back. *)
Lemma join_tail home tail pieces :
  home <> "" ->
  home ++ String "/" tail = abs_path pieces ->
  Forall (fun y => clean y = true) pieces ->
  join home (String "/" tail) = abs_path pieces.
Proof.
  intros Hh E Hc. unfold join.
  destruct (String.eqb home "") eqn:Eh; [apply String.eqb_eq in Eh; contradiction|].
  simpl String.eqb. cbv iota.
  change (home ++ "/" ++ String "/" tail) with (home ++ String "/" (String "/" tail)).
  rewrite normalize_double_slash, E. apply normalize_abs_path. exact Hc.
Qed.

Lemma slice_append a b : JsString.slice (String.length a) (a ++ b) = b.
Proof. induction a as [|c a IH]; simpl; [destruct b; reflexivity | exact IH]. Qed.

(** A path that [path.resolve] leaves as it is has resolved pieces. *)
Lemma resolved_form cwd p :
  isAbsolute cwd = true -> resolve cwd p = p ->
  exists pieces, p = abs_path pieces /\ Forall (fun y => clean y = true) pieces.
Proof.
  intros Hcwd E. exists (rev (resolve_pieces cwd p)). split.
  - rewrite <- E at 1. apply resolve_abs_form. exact Hcwd.
  - apply Forall_rev. apply resolve_pieces_clean.
Qed.

End MorePathFacts.

Section TrimFacts.
Import JsString.

Lemma trimEnd_fixed s : ends_with_white_space s = false -> trimEnd s = s.
Proof.
  unfold ends_with_white_space, trimEnd. intros H.
  destruct (Js.rev_chars s) as [|c l] eqn:E.
  - simpl. unfold Js.rev_chars in E.
    apply (f_equal (@rev ascii)) in E. rewrite rev_involutive in E. simpl in E.
    rewrite <- (string_of_list_ascii_of_string s), E. reflexivity.
  - simpl. rewrite H. rewrite <- E. unfold Js.rev_chars.
    rewrite rev_involutive. apply string_of_list_ascii_of_string.
Qed.

Lemma trim_fixed c s :
  is_white_space c = false -> ends_with_white_space (String c s) = false ->
  trim (String c s) = String c s.
Proof.
  intros Hc He. unfold trim. simpl trimStart. rewrite Hc. apply trimEnd_fixed. exact He.
Qed.

Lemma ends_with_white_space_append a b c r :
  ends_with_white_space (a ++ String c r) = ends_with_white_space (b ++ String c r).
Proof.
  unfold ends_with_white_space. rewrite !rev_chars_append.
  unfold Js.rev_chars at 1 3. simpl list_ascii_of_string. simpl rev.
  destruct (rev (list_ascii_of_string r)) as [|d t]; reflexivity.
Qed.

End TrimFacts.

Lemma prefix_tilde s : String.prefix "~" (String "~" s) = true.
Proof. simpl. destruct (ascii_dec "~" "~"); [destruct s; reflexivity | contradiction]. Qed.

(** X14.  Labels and paths.  For a resolved path with no white
    space at its end, [resolvePath] gives back the path that [toLabel]
    abbreviated, whether the label is ["~"], begins with ["~/"] or is the
    path itself. *)
Theorem resolvePath_inverts_toLabel (cwd home p : string) :
  Path.isAbsolute cwd = true ->
  Path.resolve cwd home = home ->
  Path.resolve cwd p = p ->
  ends_with_white_space p = false ->
  Cli.resolvePath cwd home (Cli.toLabel home p) = Some p.
Proof.
  intros Hcwd Hhome Hp Hws.
  destruct (resolved_form cwd home Hcwd Hhome) as (H & EH & HcH).
  destruct (resolved_form cwd p Hcwd Hp) as (P & EP & HcP).
  assert (Hpne : String.eqb p "" = false) by (rewrite EP; reflexivity).
  assert (Hhne : String.eqb home "" = false) by (rewrite EH; reflexivity).
  assert (Hself : Cli.resolvePath cwd home p = Some p).
  { unfold Cli.resolvePath. rewrite Hpne.
    assert (Ht : JsString.trim p = p).
    { rewrite EP in Hws |- *. apply trim_fixed; [reflexivity | exact Hws]. }
    rewrite Ht, Hpne.
    assert (Hs : Js.startsWith p "~" = false) by (rewrite EP; reflexivity).
    rewrite Hs, Hp. reflexivity. }
  unfold Cli.toLabel. rewrite Hpne, Hhne. simpl orb. cbv iota.
  destruct (String.eqb p home) eqn:Eph.
  - apply String.eqb_eq in Eph. rewrite Eph.
    unfold Cli.resolvePath. simpl String.eqb. cbv iota.
    change (JsString.trim "~") with "~". simpl String.eqb. cbv iota zeta.
    change (Js.startsWith "~" "~") with true. cbv iota.
    change (JsString.slice 1 "~") with "".
    rewrite EH at 1. rewrite join_abs_path_empty by assumption.
    rewrite <- EH, Hhome. reflexivity.
  - destruct (Js.startsWith p (home ++ Path.sep)) eqn:Es; [|exact Hself].
    apply prefix_inv in Es as [tail Etail].
    change (home ++ Path.sep) with (home ++ "/") in Etail.
    rewrite append_assoc in Etail.
    change ("/" ++ tail) with (String "/" tail) in Etail.
    rewrite Etail, slice_append.
    change ("~" ++ String "/" tail) with (String "~" (String "/" tail)).
    unfold Cli.resolvePath. simpl String.eqb. cbv iota.
    assert (Ht : JsString.trim (String "~" (String "/" tail)) = String "~" (String "/" tail)).
    { apply trim_fixed; [reflexivity|].
      change (String "~" (String "/" tail)) with ("~" ++ String "/" tail).
      rewrite (ends_with_white_space_append "~" home). rewrite <- Etail. exact Hws. }
    rewrite Ht. simpl String.eqb. cbv iota zeta.
    unfold Js.startsWith. rewrite prefix_tilde.
    change (JsString.slice 1 (String "~" (String "/" tail))) with (String "/" tail).
    rewrite (join_tail home tail P).
    + rewrite <- EP, Hp, <- Etail. reflexivity.
    + intros ->. discriminate Hhne.
    + rewrite <- Etail. exact EP.
    + exact HcP.
Qed.

Lemma resolvePath_inverts_toLabel_witness :
  Cli.toLabel "/home/user" "/home/user/projects/app" = "~/projects/app"
  /\ Cli.resolvePath "/tmp" "/home/user" "~/projects/app" = Some "/home/user/projects/app".
Proof.
  split; [reflexivity|].
  apply (resolvePath_inverts_toLabel "/tmp" "/home/user" "/home/user/projects/app");
    reflexivity.
Defined.

Section ValidateLoop.
Variable cwd : string.
Variable home : string.
Variable statSync_isDirectory : string -> Result bool.

Abbreviation resolvePath := (Cli.resolvePath cwd home).
Abbreviation isReadableDir := (Cli.isReadableDir statSync_isDirectory).
Abbreviation validate_raw := (Cli.validate_raw cwd home statSync_isDirectory).
Abbreviation validated_inv := (validated_inv cwd home statSync_isDirectory).

Lemma NoDup_snoc {A} (l : list A) x : NoDup l -> ~ In x l -> NoDup (l ++ [x]).
Proof.
  intros Hl Hx. apply NoDup_app; [exact Hl | repeat constructor; intros [] |].
  intros y Hy [<- | []]. contradiction.
Qed.

Lemma validate_raw_inv done st raw :
  validated_inv done st -> validated_inv (done ++ [raw]) (validate_raw st raw).
Proof.
  intros [Hseen Hnp Hnm Hp Hm Hi]. destruct st as [seen acc]. simpl in *.
  assert (Hex : forall p, (exists r, In r done /\ resolvePath r = Some p)
                          -> exists r, In r (done ++ [raw]) /\ resolvePath r = Some p).
  { intros p (r & Hr & Er). exists r. split; [apply in_or_app; left; exact Hr | exact Er]. }
  assert (Hex' : forall p, (exists r, In r (done ++ [raw]) /\ resolvePath r = Some p)
                           -> (exists r, In r done /\ resolvePath r = Some p)
                              \/ resolvePath raw = Some p).
  { intros p (r & Hr & Er). apply in_app_or in Hr as [Hr | [<- | []]];
      [left; exists r; split; assumption | right; exact Er]. }
  unfold Cli.validate_raw.
  destruct (resolvePath raw) as [resolved|] eqn:Er.
  - destruct (Js.includes seen resolved) eqn:Einc.
    + assert (Hin : In resolved seen).
      { unfold Js.includes in Einc. apply existsb_exists in Einc as (y & Hy & Ey).
        apply String.eqb_eq in Ey. subst y. exact Hy. }
      constructor; simpl; try assumption.
      * intros p. rewrite Hp. split; intros [Hx Hr]; (split; [|exact Hr]).
        -- apply Hex. exact Hx.
        -- destruct (Hex' p Hx) as [Hd | Hd]; [exact Hd|].
           injection Hd as <-. apply Hseen in Hin as [Hin | Hin].
           ++ apply Hp in Hin. apply Hin.
           ++ apply Hm in Hin as [_ Hf]. rewrite Hf in Hr. discriminate Hr.
      * intros p. rewrite Hm. split; intros [Hx Hr]; (split; [|exact Hr]).
        -- apply Hex. exact Hx.
        -- destruct (Hex' p Hx) as [Hd | Hd]; [exact Hd|].
           injection Hd as <-. apply Hseen in Hin as [Hin | Hin].
           ++ apply Hp in Hin as [_ Ht]. rewrite Ht in Hr. discriminate Hr.
           ++ apply Hm in Hin. apply Hin.
      * rewrite filter_app. simpl. rewrite Er, app_nil_r. exact Hi.
    + assert (Hnot : ~ In resolved seen).
      { intros Hin. apply not_true_iff_false in Einc. apply Einc.
        unfold Js.includes. apply existsb_exists. exists resolved.
        split; [exact Hin | apply String.eqb_refl]. }
      destruct (isReadableDir resolved) eqn:Erd; constructor; simpl.
      * intros p. rewrite !in_app_iff, Hseen. simpl. tauto.
      * apply NoDup_snoc; [exact Hnp|]. intros Hin. apply Hnot, Hseen. left. exact Hin.
      * exact Hnm.
      * intros p. rewrite in_app_iff, Hp. simpl. split.
        -- intros [[Hx Hr] | [<- | []]].
           ++ split; [apply Hex; exact Hx | exact Hr].
           ++ split; [|exact Erd]. exists raw.
              split; [apply in_or_app; right; left; reflexivity | exact Er].
        -- intros [Hx Hr]. destruct (Hex' p Hx) as [Hd | Hd].
           ++ left. split; assumption.
           ++ injection Hd as <-. right. left. reflexivity.
      * intros p. rewrite Hm. split; intros [Hx Hr]; (split; [|exact Hr]).
        -- apply Hex. exact Hx.
        -- destruct (Hex' p Hx) as [Hd | Hd]; [exact Hd|].
           injection Hd as <-. rewrite Erd in Hr. discriminate Hr.
      * rewrite filter_app. simpl. rewrite Er, app_nil_r. exact Hi.
      * intros p. rewrite !in_app_iff, Hseen. simpl. tauto.
      * exact Hnp.
      * apply NoDup_snoc; [exact Hnm|]. intros Hin. apply Hnot, Hseen. right. exact Hin.
      * intros p. rewrite Hp. split; intros [Hx Hr]; (split; [|exact Hr]).
        -- apply Hex. exact Hx.
        -- destruct (Hex' p Hx) as [Hd | Hd]; [exact Hd|].
           injection Hd as <-. rewrite Erd in Hr. discriminate Hr.
      * intros p. rewrite in_app_iff, Hm. simpl. split.
        -- intros [[Hx Hr] | [<- | []]].
           ++ split; [apply Hex; exact Hx | exact Hr].
           ++ split; [|exact Erd]. exists raw.
              split; [apply in_or_app; right; left; reflexivity | exact Er].
        -- intros [Hx Hr]. destruct (Hex' p Hx) as [Hd | Hd].
           ++ left. split; assumption.
           ++ injection Hd as <-. right. left. reflexivity.
      * rewrite filter_app. simpl. rewrite Er, app_nil_r. exact Hi.
  - constructor; simpl; try assumption.
    + intros p. rewrite Hp. split; intros [Hx Hr]; (split; [|exact Hr]).
      * apply Hex. exact Hx.
      * destruct (Hex' p Hx) as [Hd | Hd]; [exact Hd | discriminate Hd].
    + intros p. rewrite Hm. split; intros [Hx Hr]; (split; [|exact Hr]).
      * apply Hex. exact Hx.
      * destruct (Hex' p Hx) as [Hd | Hd]; [exact Hd | discriminate Hd].
    + rewrite filter_app. simpl. rewrite Er, Hi. reflexivity.
Qed.

Lemma validate_loop_inv rest : forall done st,
  validated_inv done st ->
  validated_inv (done ++ rest) (fold_left validate_raw rest st).
Proof.
  induction rest as [|raw rest IH]; intros done st H; simpl.
  - rewrite app_nil_r. exact H.
  - replace (done ++ raw :: rest)%list with ((done ++ [raw]) ++ rest)%list
      by (rewrite <- app_assoc; reflexivity).
    apply IH. apply validate_raw_inv. exact H.
Qed.

End ValidateLoop.

(** X15.  The scan paths of the configuration, validated.  A
    resolved path is kept at most once; it is among [paths] exactly when
    some raw path resolves to it and it is a readable directory, among
    [missing] exactly when some raw path resolves to it and it is not;
    [invalid] holds, in order, the raw paths that resolve to nothing
    (empty, or white space only). *)
Theorem resolveAndValidateScanPaths_sorts_every_path (cwd home : string)
  (statSync_isDirectory : string -> Result bool) (rawPaths : list string) :
  let v := Cli.resolveAndValidateScanPaths cwd home statSync_isDirectory rawPaths in
  NoDup (Cli.paths v) /\ NoDup (Cli.missing v)
  /\ (forall p, In p (Cli.paths v)
        <-> (exists raw, In raw rawPaths /\ Cli.resolvePath cwd home raw = Some p)
            /\ Cli.isReadableDir statSync_isDirectory p = true)
  /\ (forall p, In p (Cli.missing v)
        <-> (exists raw, In raw rawPaths /\ Cli.resolvePath cwd home raw = Some p)
            /\ Cli.isReadableDir statSync_isDirectory p = false)
  /\ Cli.invalid v
     = filter (fun raw => match Cli.resolvePath cwd home raw with
                          | None => true
                          | Some _ => false
                          end) rawPaths.
Proof.
  cbv zeta. unfold Cli.resolveAndValidateScanPaths.
  destruct (validate_loop_inv cwd home statSync_isDirectory rawPaths []
              ([], Cli.mkValidated [] [] []))
    as [_ Hnp Hnm Hp Hm Hi].
  - constructor; simpl.
    + intros p. tauto.
    + constructor.
    + constructor.
    + intros p. split; [intros [] | intros [(r & [] & _) _]].
    + intros p. split; [intros [] | intros [(r & [] & _) _]].
    + reflexivity.
  - simpl app in *.
    split; [exact Hnp|]. split; [exact Hnm|]. split; [exact Hp|].
    split; [exact Hm | exact Hi].
Qed.

Lemma get_set_eq {V} (m : JsMap.t V) k v : JsMap_get (JsMap.set m k v) k = Some v.
Proof.
  induction m as [|[k' v'] m IH]; simpl.
  - rewrite String.eqb_refl. reflexivity.
  - destruct (String.eqb k' k) eqn:E; simpl; rewrite E; [reflexivity | exact IH].
Qed.

Lemma has_set_eq {V} (m : JsMap.t V) k v : JsMap.has (JsMap.set m k v) k = true.
Proof.
  induction m as [|[k' v'] m IH]; simpl.
  - rewrite String.eqb_refl. reflexivity.
  - destruct (String.eqb k' k) eqn:E; simpl; rewrite E; [reflexivity | exact IH].
Qed.

Section StoredPaths.
Variable cwd : string.
Variable homedir : string.
Hypothesis cwd_absolute : Path.isAbsolute cwd = true.
Hypothesis home_resolved : Path.resolve cwd homedir = homedir.

(** What is stored for a resolved path is not empty, is left as it is
    by [trim], and expands to the path. *)
Lemma stored_path_expands p :
  Path.resolve cwd p = p -> ends_with_white_space p = false ->
  String.eqb (Config.toStoredPath p homedir) "" = false
  /\ JsString.trim (Config.toStoredPath p homedir) = Config.toStoredPath p homedir
  /\ Config.expand_entry cwd homedir (Config.toStoredPath p homedir) = p.
Proof.
  intros Hp Hws.
  destruct (resolved_form cwd homedir cwd_absolute home_resolved) as (H & EH & HcH).
  destruct (resolved_form cwd p cwd_absolute Hp) as (P & EP & HcP).
  assert (Hnp : Path.normalize p = p) by (rewrite EP; apply normalize_abs_path; exact HcP).
  assert (Hnh : Path.normalize homedir = homedir)
    by (rewrite EH; apply normalize_abs_path; exact HcH).
  assert (Hhne : String.eqb homedir "" = false) by (rewrite EH; reflexivity).
  assert (Hself : String.eqb p "" = false /\ JsString.trim p = p
                  /\ Config.expand_entry cwd homedir p = p).
  { split; [rewrite EP; reflexivity|]. split.
    - rewrite EP in Hws |- *. apply trim_fixed; [reflexivity | exact Hws].
    - unfold Config.expand_entry.
      assert (Hs : Js.startsWith p "~" = false) by (rewrite EP; reflexivity).
      rewrite Hs. exact Hp. }
  unfold Config.toStoredPath. cbv zeta. rewrite Hnp, Hnh, Hhne. simpl negb. simpl andb.
  destruct (Js.startsWith p (Path.normalize (homedir ++ Path.sep))) eqn:Es; [|exact Hself].
  destruct H as [|x l].
  - (* the home directory is the root *)
    rewrite EH. change (String.length (abs_path [])) with 1.
    rewrite EP. change (JsString.slice 1 (abs_path P)) with (Js.join_slash P).
    change ("~" ++ Js.join_slash P) with (String "~" (Js.join_slash P)).
    split; [reflexivity|]. split.
    + apply trim_fixed; [reflexivity|].
      destruct (Js.join_slash P) as [|c r] eqn:Ej; [reflexivity|].
      change (String "~" (String c r)) with ("~" ++ String c r).
      rewrite (ends_with_white_space_append "~" "/").
      change ("/" ++ String c r) with (String "/" (String c r)).
      rewrite <- Ej. fold (abs_path P). rewrite <- EP. exact Hws.
    + unfold Config.expand_entry, Js.startsWith. rewrite prefix_tilde.
      change (JsString.slice 1 (String "~" (Js.join_slash P))) with (Js.join_slash P).
      destruct P as [|y P']; [reflexivity|].
      unfold Path.join. change (String.eqb (abs_path []) "") with false. cbv iota.
      rewrite join_slash_not_empty by (discriminate || assumption).
      change (abs_path [] ++ "/" ++ Js.join_slash (y :: P'))
        with ("" ++ String "/" (String "/" (Js.join_slash (y :: P')))).
      rewrite normalize_double_slash. apply normalize_abs_path. exact HcP.
  - rewrite EH in Es. change (abs_path (x :: l) ++ Path.sep) with (abs_path (x :: l) ++ "/") in Es.
    rewrite normalize_abs_path_sep in Es by assumption. rewrite <- EH in Es.
    apply prefix_inv in Es as [tail Etail]. rewrite append_assoc in Etail.
    change ("/" ++ tail) with (String "/" tail) in Etail.
    assert (Esp : "~" ++ JsString.slice (String.length homedir) p
                  = String "~" (String "/" tail)).
    { rewrite Etail, slice_append. reflexivity. }
    rewrite Esp.
    split; [reflexivity|]. split.
    + apply trim_fixed; [reflexivity|].
      change (String "~" (String "/" tail)) with ("~" ++ String "/" tail).
      rewrite (ends_with_white_space_append "~" homedir). rewrite <- Etail. exact Hws.
    + unfold Config.expand_entry, Js.startsWith. rewrite prefix_tilde.
      change (JsString.slice 1 (String "~" (String "/" tail))) with (String "/" tail).
      rewrite (join_tail homedir tail P).
      * symmetry. exact EP.
      * intros E0. rewrite E0 in Hhne. discriminate Hhne.
      * rewrite <- Etail. exact EP.
      * exact HcP.
Qed.

Lemma stored_paths_expand paths :
  Forall (fun p => Path.resolve cwd p = p /\ ends_with_white_space p = false) paths ->
  map (Config.expand_entry cwd homedir)
      (filter (fun p => negb (String.eqb p ""))
         (map Config.trimmed_entry
            (map JString
               (filter (fun p => negb (String.eqb p ""))
                  (map (fun p => Config.toStoredPath p homedir) paths)))))
  = paths.
Proof.
  induction 1 as [|p paths [Hp Hws] _ IH]; [reflexivity|].
  destruct (stored_path_expands p Hp Hws) as (Hne & Ht & He).
  simpl. rewrite Hne. simpl. rewrite Ht, Hne. simpl. rewrite He, IH. reflexivity.
Qed.

End StoredPaths.

(** X16.  Saving and loading the configuration.  When [saveConfig]
    has written resolved paths whose last character is not white space,
    and the file can be read, [loadConfig] returns these paths, in the
    same order, whether they were stored in the [~/] form or as they are;
    it changes nothing and logs nothing. *)
Theorem saved_scan_paths_load_back (cwd homedir : string) (paths : list string)
  (s s1 : Eff.State Disk.t) :
  Path.isAbsolute cwd = true ->
  Path.resolve cwd homedir = homedir ->
  Forall (fun p => Path.resolve cwd p = p /\ ends_with_white_space p = false) paths ->
  Config.saveConfig homedir paths homedir s = (s1, inr true) ->
  Disk.refuses_read (Eff.world s1) (Config.getConfigPath homedir) = false ->
  Config.loadConfig cwd homedir s1 = (s1, inr paths).
Proof.
  intros Hcwd Hhome Hpaths Hsave Hread.
  unfold Config.saveConfig in Hsave. cbv zeta in Hsave.
  unfold Disk.writeFileSync in Hsave.
  destruct (Disk.refuses_write (Eff.world s) (Config.getConfigPath homedir));
    [discriminate Hsave|].
  injection Hsave as <-.
  unfold Config.loadConfig, Eff.bind, Config.migrateLegacyConfig. cbv zeta.
  simpl Eff.world in *. simpl Eff.trace.
  unfold Disk.existsSync at 2. simpl Disk.files.
  rewrite has_set_eq. simpl negb. rewrite andb_false_r.
  simpl Eff.world. unfold Disk.readFileSync. simpl Disk.files.
  rewrite get_set_eq. simpl Disk.refuses_read in Hread |- *. rewrite Hread.
  unfold Disk.parse, Config.scanPaths_of.
  change (JsMap_get [("scanPaths", JArray ?l)] "scanPaths") with (Some (JArray l)).
  cbv iota beta zeta.
  rewrite (stored_paths_expand cwd homedir Hcwd Hhome paths Hpaths). reflexivity.
Qed.

Lemma saved_scan_paths_load_back_witness :
  Config.loadConfig "/tmp" "/home/user"
    (Eff.mkState
       (Disk.mk [("/home/user/.dclean/config.json",
                  Disk.Document
                    (JObject [("scanPaths",
                               JArray [JString "~/projects"; JString "/srv/code"])]))]
                (fun _ => false) (fun _ => false)) [])
  = (Eff.mkState
       (Disk.mk [("/home/user/.dclean/config.json",
                  Disk.Document
                    (JObject [("scanPaths",
                               JArray [JString "~/projects"; JString "/srv/code"])]))]
                (fun _ => false) (fun _ => false)) [],
     inr ["/home/user/projects"; "/srv/code"]).
Proof.
  apply (saved_scan_paths_load_back "/tmp" "/home/user"
           ["/home/user/projects"; "/srv/code"]
           (Eff.mkState (Disk.mk [] (fun _ => false) (fun _ => false)) [])).
  - reflexivity.
  - reflexivity.
  - repeat constructor.
  - reflexivity.
  - reflexivity.
Defined.

(** X17.  The cleanup history.  When the history file holds an array,
    [logCleanup] appends the new entry and, if that makes more than 50
    entries, drops one entry, the oldest.  So a history of at most 50
    entries stays at most 50 long and always ends with the newest entry,
    while a longer one (edited by hand) is never cut back to 50. *)
Theorem logCleanup_appends_and_drops_the_oldest (homedir now : string)
  (stats : History.Stats) (s : Eff.State Disk.t) (history : list Json) :
  History.getHistory homedir (Eff.world s) = JArray history ->
  Disk.refuses_write (Eff.world s) (Path.dirname (History.getHistoryPath homedir)) = false ->
  Disk.refuses_write (Eff.world s) (History.getHistoryPath homedir) = false ->
  exists s' kept,
    History.logCleanup homedir now stats s = (s', inr tt)
    /\ Eff.trace s' = Eff.trace s
    /\ JsMap_get (Disk.files (Eff.world s')) (History.getHistoryPath homedir)
       = Some (Disk.Document (JArray (kept ++ [History.entry_of now stats])))
    /\ (kept = history \/ exists oldest, history = oldest :: kept)
    /\ (length history < 50 -> kept = history)
    /\ (length history <= 50 -> length (kept ++ [History.entry_of now stats]) <= 50)
    /\ (50 < length history ->
        length (kept ++ [History.entry_of now stats]) = length history).
Proof.
  intros Hh Hd Hw. unfold History.logCleanup. cbv zeta. rewrite Hh.
  unfold Disk.mkdirSync. rewrite Hd. unfold Disk.writeFileSync. rewrite Hw.
  set (entry := History.entry_of now stats).
  assert (Hlen : length (history ++ [entry]) = S (length history))
    by (rewrite length_app; simpl; lia).
  destruct (Nat.ltb History.MAX_ENTRIES (length (history ++ [entry]))) eqn:El.
  - apply Nat.ltb_lt in El. unfold History.MAX_ENTRIES in El. rewrite Hlen in El.
    destruct history as [|oldest rest]; [simpl in El; lia|].
    simpl tl. eexists _, rest. split; [reflexivity|]. simpl.
    split; [reflexivity|]. split; [apply get_set_eq|].
    split; [right; exists oldest; reflexivity|].
    rewrite length_app. simpl in *. repeat split; lia.
  - apply Nat.ltb_ge in El. unfold History.MAX_ENTRIES in El. rewrite Hlen in El.
    eexists _, history. split; [reflexivity|]. simpl.
    split; [reflexivity|]. split; [apply get_set_eq|].
    split; [left; reflexivity|].
    rewrite Hlen. repeat split; lia.
Qed.

Lemma logCleanup_appends_and_drops_the_oldest_witness :
  exists s' kept,
    History.logCleanup "/home/user" "2026-01-01T00:00:00.000Z"
      (History.mkStats (Some 5%Z) (Some 1%Z) (Some ["nodeModules"]))
      (Eff.mkState (Disk.mk [] (fun _ => false) (fun _ => false)) []) = (s', inr tt)
    /\ Eff.trace s' = []
    /\ JsMap_get (Disk.files (Eff.world s')) (History.getHistoryPath "/home/user")
       = Some (Disk.Document
                 (JArray (kept ++ [History.entry_of "2026-01-01T00:00:00.000Z"
                                     (History.mkStats (Some 5%Z) (Some 1%Z)
                                        (Some ["nodeModules"]))])))
    /\ kept = [].
Proof.
  destruct (logCleanup_appends_and_drops_the_oldest "/home/user"
              "2026-01-01T00:00:00.000Z"
              (History.mkStats (Some 5%Z) (Some 1%Z) (Some ["nodeModules"]))
              (Eff.mkState (Disk.mk [] (fun _ => false) (fun _ => false)) []) []
              eq_refl eq_refl eq_refl)
    as (s' & kept & E & Ht & Hf & _ & Hk & _).
  exists s', kept. repeat split; try assumption. apply Hk. simpl. lia.
Defined.

Section MoreJoinFacts.
Import Js Path.

(** Joining a resolved directory and a relative path of clean pieces. *)
Lemma join_abs_path_many pieces xs :
  Forall (fun y => clean y = true) pieces -> Forall (fun y => clean y = true) xs ->
  xs <> [] ->
  join (abs_path pieces) (join_slash xs) = abs_path (pieces ++ xs).
Proof.
  intros Hp Hx Hn. unfold join.
  change (String.eqb (abs_path pieces) "") with false. cbv iota.
  rewrite join_slash_not_empty by assumption.
  assert (Hall : Forall (fun y => clean y = true) (pieces ++ xs))
    by (apply Forall_app; split; assumption).
  destruct pieces as [|p0 ps].
  - change (abs_path [] ++ "/" ++ join_slash xs)
      with ("" ++ String "/" (String "/" (join_slash xs))).
    rewrite normalize_double_slash. apply normalize_abs_path. exact Hx.
  - replace (abs_path (p0 :: ps) ++ "/" ++ join_slash xs)
      with (abs_path ((p0 :: ps) ++ xs)).
    + apply normalize_abs_path. exact Hall.
    + unfold abs_path. rewrite join_app by (discriminate || assumption). reflexivity.
Qed.

End MoreJoinFacts.


Section SingleRoot.
Variable m : Machine.
Variable homeDir : string.
Variable onEnterDir : bool.

Abbreviation dd := (XcodeScanner.derivedDataPath homeDir).



End SingleRoot.



(** X19.  Paths shown relative to a scan root.  When the first scan
    root is not the root directory ["/"], for a path strictly below it
    [pathUnderRoot] shows the pieces that lead from the root to the path,
    and joining the root and what is shown gives the path back. *)
Theorem pathUnderRoot_is_relative_to_the_root (homedir : string)
  (R : list string) (y : string) (rest : list string) (others : list string) :
  R <> [] ->
  Forall (fun x => clean x = true) (R ++ y :: rest) ->
  Display.pathUnderRoot homedir (abs_path (R ++ y :: rest)) (abs_path R :: others)
  = Js.join_slash (y :: rest)
  /\ Path.join (abs_path R)
       (Display.pathUnderRoot homedir (abs_path (R ++ y :: rest)) (abs_path R :: others))
     = abs_path (R ++ y :: rest).
Proof.
  intros HR Hc.
  assert (HcR : Forall (fun x => clean x = true) R) by (apply Forall_app in Hc; apply Hc).
  assert (Hcr : Forall (fun x => clean x = true) (y :: rest))
    by (apply Forall_app in Hc; apply Hc).
  assert (E : Display.pathUnderRoot homedir (abs_path (R ++ y :: rest)) (abs_path R :: others)
              = Js.join_slash (y :: rest)).
  { unfold Display.pathUnderRoot. cbv zeta.
    rewrite !normalize_abs_path by assumption.
    destruct (abs_path_descendant R y rest Hc) as [_ Hne].
    apply String.eqb_neq in Hne. rewrite Hne.
    assert (Hp : abs_path (R ++ y :: rest)
                 = (abs_path R ++ Path.sep) ++ Js.join_slash (y :: rest)).
    { unfold abs_path. rewrite join_app by (assumption || discriminate).
      change Path.sep with "/". rewrite append_assoc. reflexivity. }
    assert (Hs : Js.startsWith (abs_path (R ++ y :: rest)) (abs_path R ++ Path.sep) = true).
    { rewrite Hp. apply prefix_append. }
    rewrite Hs.
    assert (Hsl : JsString.slice (String.length (abs_path R) + String.length Path.sep)
                    (abs_path (R ++ y :: rest)) = Js.join_slash (y :: rest)).
    { rewrite Hp at 1. rewrite <- length_append. apply slice_append. }
    rewrite Hsl, join_slash_not_empty by (discriminate || assumption). reflexivity. }
  split; [exact E|]. rewrite E.
  apply join_abs_path_many; [assumption | assumption | discriminate].
Qed.

Lemma pathUnderRoot_is_relative_to_the_root_witness :
  Display.pathUnderRoot "/home/user" "/home/user/projects/app/web" ["/home/user/projects"]
  = "app/web".
Proof.
  apply (pathUnderRoot_is_relative_to_the_root "/home/user" ["home"; "user"; "projects"]
           "app" ["web"] []).
  - discriminate.
  - repeat constructor.
Defined.

Section SubstringFacts.

Lemma prefix_append_l sub a b :
  String.prefix sub a = true -> String.prefix sub (a ++ b) = true.
Proof.
  intros H. apply prefix_inv in H as [r ->]. rewrite append_assoc. apply prefix_append.
Qed.

Lemma includes_append_l a b sub :
  JsString.includes a sub = true -> JsString.includes (a ++ b) sub = true.
Proof.
  induction a as [|c a IH]; simpl; intros H.
  - rewrite orb_false_r in H. destruct sub; [|discriminate H].
    destruct b; reflexivity.
  - apply orb_true_iff in H as [H | H].
    + apply orb_true_iff. left.
      apply (prefix_append_l sub (String c a) b). exact H.
    + apply orb_true_iff. right. apply IH. exact H.
Qed.

Lemma endsWith_append a b : Js.endsWith (a ++ b) b = true.
Proof.
  unfold Js.endsWith. rewrite rev_chars_append.
  rewrite <- (string_of_list_ascii_of_string
                (string_of_list_ascii (Js.rev_chars b ++ Js.rev_chars a))).
  rewrite list_ascii_of_string_of_list_ascii.
  replace (string_of_list_ascii (Js.rev_chars b ++ Js.rev_chars a))
    with (string_of_list_ascii (Js.rev_chars b) ++ string_of_list_ascii (Js.rev_chars a)).
  - apply prefix_append.
  - generalize (Js.rev_chars b) as l. induction l as [|c l IH]; simpl; [reflexivity|].
    rewrite IH. reflexivity.
Qed.

Lemma slice_to_append a b :
  JsString.slice_to (String.length (a ++ b) - String.length b) (a ++ b) = a.
Proof.
  rewrite length_append. replace (String.length a + String.length b - String.length b)
    with (String.length a) by lia.
  induction a as [|c a IH]; simpl; [destruct b; reflexivity|].
  rewrite IH. reflexivity.
Qed.

End SubstringFacts.

(** X20.  The Pods scanner and paths that hold ["Pods"].  The filter
    of the scanner drops a [Pods] directory when the text of its parent
    path holds ["Pods"] anywhere; so a scan from a directory whose path
    holds ["Pods"], and which is not itself named [Pods], returns no item
    whatever the tree holds. *)
Theorem pods_scan_is_empty_under_a_path_holding_Pods (m : Machine) (onEnterDir : bool)
  (R : list string) (res : PodsScanner.Output) :
  Forall (fun x => clean x = true) R ->
  well_formed (tree_at m (abs_path R)) ->
  JsString.includes (abs_path R) "Pods" = true ->
  last R "" <> "Pods" ->
  PodsScanner.scan m (abs_path R) onEnterDir = inr res ->
  PodsScanner.items res = [] /\ PodsScanner.count res = 0.
Proof.
  intros HR Hwf Hinc Hlast E. unfold PodsScanner.scan in E.
  destruct (BaseScanner.findDirectories _ _ _ _ _ _ _) as [e | found] eqn:Ef;
    [discriminate E|].
  injection E as <-. cbn [PodsScanner.items PodsScanner.count].
  assert (Hnone : filter PodsScanner.is_top_level found = []).
  { unfold BaseScanner.findDirectories, FileSystem.walkDirectory in Ef.
    destruct (FileSystem.walk _ _ _ _ _ _ _ _ _) as [e | [fnd entered]] eqn:Ew;
      [discriminate Ef|].
    injection Ef as <-.
    destruct (find_walk_found _ _ onEnterDir _ _ Hwf _ _ _ _ HR Ew)
      as (new & Hnew & _ & Hall).
    simpl in Hnew. subst new. rewrite Forall_forall in Hall.
    assert (Hfalse : forall f, In f fnd -> PodsScanner.is_top_level f = false).
    { intros f Hf. destruct (Hall f Hf) as (ns & -> & Hns & Hl & _).
      unfold PodsScanner.PODS in Hl.
      assert (Hne : ns <> []).
      { intros ->. rewrite app_nil_r in Hl. contradiction. }
      destruct (exists_last Hne) as (ns' & x & ->).
      rewrite app_assoc, last_last in Hl. subst x.
      rewrite app_assoc, abs_path_snoc.
      assert (HRne : R <> []) by (intros ->; discriminate Hinc).
      assert (Hpt : parent_text (R ++ ns') = abs_path (R ++ ns')).
      { destruct R; [contradiction | reflexivity]. }
      assert (Hin : JsString.includes (parent_text (R ++ ns')) "Pods" = true).
      { rewrite Hpt. destruct ns' as [|n0 ns0].
        - rewrite app_nil_r. exact Hinc.
        - unfold abs_path. rewrite join_app by (assumption || discriminate).
          apply (includes_append_l (abs_path R)). exact Hinc. }
      unfold PodsScanner.is_top_level. cbv zeta.
      change (Path.sep ++ PodsScanner.PODS) with "/Pods".
      change (String "/" "Pods") with "/Pods".
      rewrite endsWith_append. simpl negb. cbv iota.
      rewrite slice_to_append. unfold PodsScanner.PODS. rewrite Hin. reflexivity. }
    clear -Hfalse. induction fnd as [|f fnd IH]; [reflexivity|].
    simpl. rewrite (Hfalse f (or_introl eq_refl)). apply IH.
    intros g Hg. apply Hfalse. right. exact Hg. }
  rewrite Hnone. split; reflexivity.
Qed.

Lemma pods_scan_is_empty_under_a_path_holding_Pods_witness :
  PodsScanner.scan (machine_with_tree (FileSystem.Dir [("Pods", FileSystem.Dir [])]))
    "/home/user/CocoaPodsDemo" false
  = inr (PodsScanner.mkOutput "pods" [] 0 0).
Proof.
  destruct (PodsScanner.scan
              (machine_with_tree (FileSystem.Dir [("Pods", FileSystem.Dir [])]))
              "/home/user/CocoaPodsDemo" false) as [e | [t its tot cnt]] eqn:E;
    [discriminate E|].
  destruct (pods_scan_is_empty_under_a_path_holding_Pods
              (machine_with_tree (FileSystem.Dir [("Pods", FileSystem.Dir [])]))
              false ["home"; "user"; "CocoaPodsDemo"]
              (PodsScanner.mkOutput t its tot cnt)) as [Hi Hc].
  - repeat constructor.
  - simpl. repeat split; repeat constructor; simpl; intuition discriminate.
  - reflexivity.
  - discriminate.
  - exact E.
  - simpl in Hi, Hc. subst its cnt.
    vm_compute in E. injection E as <- <-. reflexivity.
Defined.

Section RustLoop.
Variable m : Machine.

Lemma target_entry_paths dirs : forall acc,
  map si_path (fold_left (RustTargetScanner.target_entry m) dirs acc)
  = (map si_path acc
     ++ filter (fun dir => pathExists m (Path.join (Path.dirname dir) "Cargo.toml")) dirs)%list.
Proof.
  induction dirs as [|d dirs IH]; intros acc; simpl.
  - rewrite app_nil_r. reflexivity.
  - rewrite IH. unfold RustTargetScanner.target_entry at 1. cbv zeta.
    destruct (pathExists m _); [|reflexivity].
    destruct (BaseScanner.getMetadata m d).
    rewrite map_app. simpl. rewrite <- app_assoc. reflexivity.
Qed.

End RustLoop.

(** X21.  The Rust scanner.  Its items are, in the order of the walk,
    the directories named [target] that [findDirectories] returned and
    that have a [Cargo.toml] beside them; so a [target] directory with no
    [Cargo.toml] in its parent is never an item, no directory is listed
    twice, and every item is named [target]. *)
Theorem rust_items_have_a_manifest_beside_them (m : Machine) (onEnterDir : bool)
  (R : list string) (res : ScanResult) :
  Forall (fun x => clean x = true) R ->
  well_formed (tree_at m (abs_path R)) ->
  RustTargetScanner.scan m (abs_path R) onEnterDir = inr res ->
  (exists found,
      BaseScanner.findDirectories m RustTargetScanner.maxDepth
        RustTargetScanner.ignorePatterns (abs_path R) "target" None onEnterDir = inr found
      /\ map si_path (sr_items res)
         = filter (fun dir => pathExists m (Path.join (Path.dirname dir) "Cargo.toml"))
                  found)
  /\ NoDup (map si_path (sr_items res))
  /\ (forall item, In item (sr_items res) ->
        Path.basename (si_path item) = "target"
        /\ pathExists m (Path.join (Path.dirname (si_path item)) "Cargo.toml") = true).
Proof.
  intros HR Hwf E. unfold RustTargetScanner.scan in E.
  destruct (BaseScanner.findDirectories _ _ _ _ _ _ _) as [e | found] eqn:Ef;
    [discriminate E|].
  injection E as <-. cbn [sr_items].
  pose proof (target_entry_paths m found []) as Hp. simpl in Hp.
  unfold BaseScanner.findDirectories, FileSystem.walkDirectory in Ef.
  destruct (FileSystem.walk _ _ _ _ _ _ _ _ _) as [e | [fnd entered]] eqn:Ew;
    [discriminate Ef|].
  injection Ef as <-.
  destruct (find_walk_found _ _ onEnterDir _ _ Hwf _ _ _ _ HR Ew)
    as (new & Hnew & Hnd & Hall).
  simpl in Hnew. subst new. rewrite Forall_forall in Hall.
  split; [exists fnd; split; [reflexivity | exact Hp]|].
  split; [rewrite Hp; apply NoDup_filter; exact Hnd|].
  intros item Hitem.
  assert (Hin : In (si_path item)
                   (filter (fun dir => pathExists m
                                         (Path.join (Path.dirname dir) "Cargo.toml")) fnd)).
  { rewrite <- Hp. apply in_map. exact Hitem. }
  apply filter_In in Hin as [Hf Hex]. split; [|exact Hex].
  destruct (Hall _ Hf) as (ns & -> & Hns & Hl & _).
  rewrite basename_abs_path by (apply Forall_app; split; assumption). exact Hl.
Qed.

Lemma rust_items_have_a_manifest_beside_them_witness :
  match RustTargetScanner.scan rust_machine "/home/user" false with
  | inr res => map si_path (sr_items res) = ["/home/user/crate/target"]
               /\ NoDup (map si_path (sr_items res))
  | inl _ => False
  end.
Proof.
  destruct (RustTargetScanner.scan rust_machine "/home/user" false) as [e | res] eqn:E;
    [discriminate E|].
  split; [injection E as <-; reflexivity|].
  apply (rust_items_have_a_manifest_beside_them rust_machine false ["home"; "user"] res).
  - repeat constructor.
  - simpl. repeat split; repeat constructor; simpl; intuition discriminate.
  - exact E.
Defined.

Section ChoiceFacts.
Import Prompts.

Lemma bucket_choices_within test buckets items type v :
  In (Option v) (bucket_choices test buckets items type) -> incl (value_items v) items.
Proof.
  unfold bucket_choices. intros H. apply in_flat_map in H as (bucket & _ & H).
  cbv zeta in H.
  destruct (filter (test (fst bucket)) items) as [|i0 sub] eqn:E; [contradiction|].
  destruct H as [H | []]. injection H as <-. simpl. rewrite <- E.
  intros x Hx. apply filter_In in Hx. apply Hx.
Qed.

Lemma buildCategoryChoices_within items type categoryLabel v :
  In (Option v) (buildCategoryChoices items type categoryLabel) ->
  incl (value_items v) items.
Proof.
  unfold buildCategoryChoices. intros H.
  apply in_app_or in H as [H | H]; [eapply bucket_choices_within; exact H|].
  apply in_app_or in H as [H | H]; [eapply bucket_choices_within; exact H|].
  destruct H as [H | [H | []]]; injection H as <-; apply incl_refl.
Qed.

Lemma category_choices_within (c : option (Category Cleaner.Item)) type label v :
  In (Option v) (category_choices c (fun l => l) type label) ->
  incl (value_items v) (category_items c).
Proof.
  unfold category_choices, category_items. destruct c as [cat|]; [|contradiction].
  destruct (count cat >? 0)%Z; [|contradiction].
  apply buildCategoryChoices_within.
Qed.

Lemma nvm_choices_within (c : option (Category (Cleaner.Item * bool))) type label v :
  In (Option v)
     (category_choices c (fun l => map fst (filter (fun i => negb (snd i)) l)) type label) ->
  incl (value_items v) (other_versions c).
Proof.
  unfold category_choices, other_versions. destruct c as [cat|]; [|contradiction].
  destruct (count cat >? 0)%Z; [|contradiction].
  apply buildCategoryChoices_within.
Qed.

(** Every choice holds only items of the scan, the current version of
    Node left out. *)
Lemma cleanup_choices_within sr v :
  In (Option v) (cleanup_choices sr) -> incl (value_items v) (offered sr).
Proof.
  unfold cleanup_choices, offered. intros H.
  apply in_app_or in H as [H | H].
  { destruct H as [H | [H | []]]; [injection H as <-; intros x [] | discriminate H]. }
  apply in_app_or in H as [H | H].
  { eapply incl_tran; [eapply category_choices_within; exact H|].
    apply incl_appl, incl_refl. }
  apply in_app_or in H as [H | H].
  { eapply incl_tran; [eapply category_choices_within; exact H|].
    apply incl_appr, incl_appl, incl_refl. }
  apply in_app_or in H as [H | H].
  { eapply incl_tran; [eapply category_choices_within; exact H|].
    apply incl_appr, incl_appr, incl_appl, incl_refl. }
  apply in_app_or in H as [H | H].
  { eapply incl_tran; [eapply category_choices_within; exact H|].
    apply incl_appr, incl_appr, incl_appr, incl_appl, incl_refl. }
  apply in_app_or in H as [H | H].
  { eapply incl_tran; [eapply category_choices_within; exact H|].
    apply incl_appr, incl_appr, incl_appr, incl_appr, incl_appl, incl_refl. }
  apply in_app_or in H as [H | H].
  { eapply incl_tran; [eapply category_choices_within; exact H|].
    apply incl_appr, incl_appr, incl_appr, incl_appr, incl_appr, incl_appl, incl_refl. }
  apply in_app_or in H as [H | H].
  { eapply incl_tran; [eapply category_choices_within; exact H|].
    apply incl_appr, incl_appr, incl_appr, incl_appr, incl_appr, incl_appr, incl_appl, incl_refl. }
  apply in_app_or in H as [H | H].
  { eapply incl_tran; [eapply category_choices_within; exact H|].
    apply incl_appr, incl_appr, incl_appr, incl_appr, incl_appr, incl_appr, incl_appr, incl_appl, incl_refl. }
  eapply incl_tran; [eapply nvm_choices_within; exact H|].
  apply incl_appr, incl_appr, incl_appr, incl_appr, incl_appr, incl_appr, incl_appr, incl_appr, incl_refl.
Qed.

Section Loop.
Variable promptForSpecificItems : string -> list Cleaner.Item -> list Cleaner.Item.
Hypothesis picks_among : forall label allItems,
  incl (promptForSpecificItems label allItems) allItems.

Lemma final_selection_within (allowed : list Cleaner.Item) raw : forall acc,
  existsb isSkip raw = false ->
  (forall v, In v raw -> incl (value_items v) allowed) ->
  (forall sel its, In sel acc -> Cleaner.items sel = Some its -> incl its allowed) ->
  forall sel its,
    In sel (fold_left (final_selection promptForSpecificItems) raw acc) ->
    Cleaner.items sel = Some its -> incl its allowed.
Proof.
  induction raw as [|v raw IH]; intros acc Hskip Hraw Hacc; [exact Hacc|].
  simpl in Hskip. apply orb_false_iff in Hskip as [Hv Hskip].
  simpl fold_left. apply IH; [exact Hskip | intros w Hw; apply Hraw; right; exact Hw |].
  intros sel its Hin Hits.
  pose proof (Hraw v (or_introl eq_refl)) as Hvin.
  destruct v as [|type items|categoryType allItems label]; [discriminate Hv| |].
  - simpl in Hin. apply in_app_or in Hin as [Hin | [<- | []]]; [eapply Hacc; eassumption|].
    simpl in Hits. injection Hits as <-. exact Hvin.
  - simpl in Hin.
    destruct (promptForSpecificItems label allItems) as [|i0 sub] eqn:E;
      [eapply Hacc; eassumption|].
    apply in_app_or in Hin as [Hin | [<- | []]]; [eapply Hacc; eassumption|].
    simpl in Hits. injection Hits as <-.
    eapply incl_tran; [|exact Hvin]. rewrite <- E. apply picks_among.
Qed.

End Loop.
End ChoiceFacts.

(** X22.  What can be selected for deletion.  Whatever the user checks
    among the choices of [promptForCleanup], and whatever is picked in
    the lists of specific items, every item of every selection returned
    is an item the scan reported, and none of them is there as the
    current version of Node: that version is in no choice.  When ["Skip"]
    is among the checked values, nothing is returned. *)
Theorem cleanup_selections_hold_only_offered_items
  (promptForSpecificItems : string -> list Cleaner.Item -> list Cleaner.Item)
  (scanResults : Prompts.ScanResults) (raw : list Prompts.ChoiceValue) :
  (forall label allItems, incl (promptForSpecificItems label allItems) allItems) ->
  (forall v, In v raw -> In (Prompts.Option v) (Prompts.cleanup_choices scanResults)) ->
  (forall sel its item,
      In sel (Prompts.promptForCleanup promptForSpecificItems scanResults raw) ->
      Cleaner.items sel = Some its -> In item its ->
      In item (offered scanResults))
  /\ (In Prompts.Skip raw ->
      Prompts.promptForCleanup promptForSpecificItems scanResults raw = []).
Proof.
  intros Hpick Hraw. split.
  - intros sel its item Hsel Hits Hitem. unfold Prompts.promptForCleanup in Hsel.
    destruct (existsb Prompts.isSkip raw) eqn:Es; [contradiction|].
    refine (final_selection_within promptForSpecificItems Hpick (offered scanResults)
              raw [] Es _ _ sel its Hsel Hits item Hitem).
    + intros v Hv. apply cleanup_choices_within. apply Hraw. exact Hv.
    + intros s l [].
  - intros Hskip. unfold Prompts.promptForCleanup.
    assert (E : existsb Prompts.isSkip raw = true).
    { apply existsb_exists. exists Prompts.Skip. split; [exact Hskip | reflexivity]. }
    rewrite E. reflexivity.
Qed.

Lemma cleanup_selections_hold_only_offered_items_witness :
  In (Cleaner.mkItem "/home/user/.nvm/versions/node/v18.0.0" (Some 7%Z) (Some (DaysNumber 400)))
     (offered
        (Prompts.mkScanResults None None None None None None None None
           (Some (Prompts.mkCategory 2
                    [(Cleaner.mkItem "/home/user/.nvm/versions/node/v18.0.0" (Some 7%Z)
                        (Some (DaysNumber 400)), false);
                     (Cleaner.mkItem "/home/user/.nvm/versions/node/v20.0.0" (Some 9%Z)
                        (Some (DaysNumber 3)), true)])))).
Proof.
  refine (proj1 (cleanup_selections_hold_only_offered_items (fun _ l => l)
            (Prompts.mkScanResults None None None None None None None None
               (Some (Prompts.mkCategory 2
                        [(Cleaner.mkItem "/home/user/.nvm/versions/node/v18.0.0" (Some 7%Z)
                            (Some (DaysNumber 400)), false);
                         (Cleaner.mkItem "/home/user/.nvm/versions/node/v20.0.0" (Some 9%Z)
                            (Some (DaysNumber 3)), true)])))
            [Prompts.CustomSelect "nvm"
               [Cleaner.mkItem "/home/user/.nvm/versions/node/v18.0.0" (Some 7%Z)
                  (Some (DaysNumber 400))] "NVM versions"] _ _)
            (Cleaner.mkSelection "nvm"
               (Some [Cleaner.mkItem "/home/user/.nvm/versions/node/v18.0.0" (Some 7%Z)
                        (Some (DaysNumber 400))]))
            [Cleaner.mkItem "/home/user/.nvm/versions/node/v18.0.0" (Some 7%Z)
               (Some (DaysNumber 400))]
            _ _ eq_refl _).
  - intros label allItems. apply incl_refl.
  - intros v [<- | []]. simpl. tauto.
  - left. reflexivity.
  - left. reflexivity.
Defined.

(** X23.  Unknown ages in the age filters.  An item whose age is
    unknown ([lastModifiedDays] is [Infinity], as when [fs.stat] failed)
    is older than every threshold: each of the three choices "older than
    3 months", "older than 6 months" and "older than 1 year" is offered
    for its category and holds the item.  An item whose modification time
    lies in the future (a negative number of days) is in none of them. *)
Theorem unknown_age_is_in_every_age_filter (items : list Cleaner.Item)
  (type categoryLabel : string) (i : Cleaner.Item) (days : Z) (label : string) :
  In i items ->
  In (days, label) Prompts.AGE_BUCKETS ->
  (Cleaner.lastModifiedDays i = Some DaysInfinity ->
   In (Prompts.Option (Prompts.Group type (filter (Prompts.older_than days) items)))
      (Prompts.buildCategoryChoices items type categoryLabel)
   /\ In i (filter (Prompts.older_than days) items))
  /\ (forall d, Cleaner.lastModifiedDays i = Some (DaysNumber d) -> (d < 0)%Z ->
      ~ In i (filter (Prompts.older_than days) items)).
Proof.
  intros Hi Hb. split.
  - intros Hinf.
    assert (Hin : In i (filter (Prompts.older_than days) items)).
    { apply filter_In. split; [exact Hi|]. unfold Prompts.older_than. rewrite Hinf. reflexivity. }
    split; [|exact Hin].
    unfold Prompts.buildCategoryChoices. apply in_or_app. left.
    unfold Prompts.bucket_choices. apply in_flat_map. exists (days, label).
    split; [exact Hb|]. cbv zeta. simpl fst.
    destruct (filter (Prompts.older_than days) items) as [|i0 sub]; [contradiction|].
    left. reflexivity.
  - intros d Hd Hneg Hin. apply filter_In in Hin as [_ Hold].
    unfold Prompts.older_than in Hold. rewrite Hd in Hold.
    apply Z.gtb_lt in Hold.
    simpl in Hb. destruct Hb as [Hb | [Hb | [Hb | []]]]; injection Hb as <- _; lia.
Qed.

Lemma unknown_age_is_in_every_age_filter_witness :
  In (Cleaner.mkItem "/home/user/a/node_modules" (Some 1%Z) (Some DaysInfinity))
     (filter (Prompts.older_than 365)
        [Cleaner.mkItem "/home/user/a/node_modules" (Some 1%Z) (Some DaysInfinity)]).
Proof.
  apply (proj1 (unknown_age_is_in_every_age_filter
                  [Cleaner.mkItem "/home/user/a/node_modules" (Some 1%Z) (Some DaysInfinity)]
                  "node_modules" "node_modules"
                  (Cleaner.mkItem "/home/user/a/node_modules" (Some 1%Z) (Some DaysInfinity))
                  365 "1 year" (or_introl eq_refl)
                  (or_intror (or_intror (or_introl eq_refl)))) eq_refl).
Defined.

Lemma has_get {V} (m : JsMap.t V) k : JsMap.has m k = true <-> JsMap_get m k <> None.
Proof.
  induction m as [|[k' v] m IH]; simpl.
  - split; [discriminate | intros H; contradiction H; reflexivity].
  - destruct (String.eqb k' k); [split; [discriminate | reflexivity] | exact IH].
Qed.

Lemma has_removed {V} (m : JsMap.t V) k :
  JsMap.has (filter (fun e => negb (String.eqb (fst e) k)) m) k = false.
Proof.
  induction m as [|[k' v] m IH]; simpl; [reflexivity|].
  destruct (String.eqb k' k) eqn:E; simpl; [exact IH | rewrite E; exact IH].
Qed.

Lemma has_set_other {V} (m : JsMap.t V) k v k' :
  k' <> k -> JsMap.has (JsMap.set m k v) k' = JsMap.has m k'.
Proof.
  intros Hne. induction m as [|[k0 v0] m IH]; simpl.
  - destruct (String.eqb k k') eqn:E; [apply String.eqb_eq in E; congruence | reflexivity].
  - destruct (String.eqb k0 k) eqn:E.
    + apply String.eqb_eq in E. subst k0. simpl. reflexivity.
    + simpl. destruct (String.eqb k0 k'); [reflexivity | exact IH].
Qed.

(** X24.  Migration of the legacy configuration.  When only the old
    file [~/.devclean.json] exists and nothing is refused, [loadConfig]
    moves it to [~/.dclean/config.json] and returns the scan paths it
    holds; the document is kept as it was.  When the new file exists,
    [loadConfig] changes nothing on the disk, whatever the old file
    holds. *)
Theorem loadConfig_migrates_the_legacy_file (cwd homedir : string)
  (s : Eff.State Disk.t) :
  (forall data,
      JsMap_get (Disk.files (Eff.world s))
        (Path.join homedir Config.LEGACY_CONFIG_FILENAME) = Some (Disk.Document data) ->
      Disk.existsSync (Eff.world s) (Config.getConfigPath homedir) = false ->
      (forall p, Disk.refuses_write (Eff.world s) p = false) ->
      Disk.refuses_read (Eff.world s) (Config.getConfigPath homedir) = false ->
      exists s',
        fst (Config.loadConfig cwd homedir s) = s'
        /\ snd (Config.loadConfig cwd homedir s)
           = inr (match Config.scanPaths_of cwd homedir data with
                  | inr scanPaths => scanPaths
                  | inl _ => []
                  end)
        /\ JsMap_get (Disk.files (Eff.world s')) (Config.getConfigPath homedir)
           = Some (Disk.Document data)
        /\ (Path.join homedir Config.LEGACY_CONFIG_FILENAME <> Config.getConfigPath homedir ->
            Disk.existsSync (Eff.world s')
              (Path.join homedir Config.LEGACY_CONFIG_FILENAME) = false))
  /\ (Disk.existsSync (Eff.world s) (Config.getConfigPath homedir) = true ->
      Eff.world (fst (Config.loadConfig cwd homedir s)) = Eff.world s).
Proof.
  split.
  - intros data Hlegacy Hnew Hwrite Hread.
    assert (Hex : Disk.existsSync (Eff.world s)
                    (Path.join homedir Config.LEGACY_CONFIG_FILENAME) = true).
    { unfold Disk.existsSync. apply has_get. rewrite Hlegacy. discriminate. }
    unfold Config.loadConfig, Eff.bind, Config.migrateLegacyConfig. cbv zeta.
    rewrite Hex, Hnew. simpl negb. simpl andb. cbv iota.
    unfold Disk.mkdirSync, Disk.renameSync. rewrite !Hwrite, Hlegacy. simpl orb. cbv iota.
    simpl Eff.world. unfold Disk.readFileSync. simpl Disk.files. simpl Disk.refuses_read.
    rewrite get_set_eq, Hread. unfold Disk.parse.
    eexists. split; [reflexivity|].
    destruct (Config.scanPaths_of cwd homedir data) as [e | scanPaths].
    + unfold Eff.emit, Eff.ret. simpl. split; [reflexivity|].
      split; [apply get_set_eq|].
      intros Hne. unfold Disk.existsSync. simpl.
      rewrite has_set_other by exact Hne. apply has_removed.
    + simpl. split; [reflexivity|]. split; [apply get_set_eq|].
      intros Hne. unfold Disk.existsSync. simpl.
      rewrite has_set_other by exact Hne. apply has_removed.
  - intros Hnew.
    unfold Config.loadConfig, Eff.bind, Config.migrateLegacyConfig. cbv zeta.
    rewrite Hnew. simpl negb. rewrite andb_false_r.
    destruct (Disk.readFileSync (Eff.world s) (Config.getConfigPath homedir)) as [e | raw];
      [reflexivity|].
    destruct (Disk.parse raw) as [e | data]; [reflexivity|].
    destruct (Config.scanPaths_of cwd homedir data); reflexivity.
Qed.

Lemma loadConfig_migrates_the_legacy_file_witness :
  snd (Config.loadConfig "/tmp" "/home/user"
         (Eff.mkState
            (Disk.mk [("/home/user/.devclean.json",
                       Disk.Document
                         (JObject [("scanPaths", JArray [JString " ~/dev "; JNumber 3])]))]
                     (fun _ => false) (fun _ => false)) []))
  = inr ["/home/user/dev"].
Proof.
  destruct (proj1 (loadConfig_migrates_the_legacy_file "/tmp" "/home/user"
              (Eff.mkState
                 (Disk.mk [("/home/user/.devclean.json",
                            Disk.Document
                              (JObject [("scanPaths",
                                         JArray [JString " ~/dev "; JNumber 3])]))]
                          (fun _ => false) (fun _ => false)) []))
              (JObject [("scanPaths", JArray [JString " ~/dev "; JNumber 3])])
              eq_refl eq_refl (fun _ => eq_refl) eq_refl)
    as (s' & _ & Hres & _).
  exact Hres.
Defined.
